(** * wifibroadcast: the transmit / receive core, embedded in Rocq

    A shallow embedding of the parts of the wifibroadcast sources that the
    specification talks about, and of the code around them:

    - [WBTxRx.h]          the [RadioPort] byte and the payload size limits,
    - [Encryption.hpp]    [Encryptor] and [Decryptor] (key files, AEAD
                          envelope, session key),
    - [gf256_ssse3.h]     the SSSE3 region multiply and multiply-add over
                          GF(2^8),
    - [WBTransmitter.cpp] the transmitter: constructor, frames, counters and
                          session-key schedule,
    - [SocketHelper.hpp]  [UDPForwarder], [UDPMultiForwarder] and the receive
                          loop of [UDPReceiver].

    Bytes are integers in [0,256) (type [Z]), buffers are lists of bytes, C++
    objects are records, and a call that may throw, fail an assertion or run
    into undefined behaviour returns an [outcome]. *)

From Stdlib Require Import String Ascii ZArith List Bool Lia.
Import ListNotations.
Local Open Scope Z_scope.

(* ================================================================== *)
(** * Part I: definitions                                              *)
(* ================================================================== *)

(** ** Bytes, buffers and machine integers *)

Abbreviation byte := Z (only parsing).

Definition is_byte (b : Z) : Prop := 0 <= b < 256.
Definition is_byteb (b : Z) : bool := (0 <=? b) && (b <? 256).

(** [size_t] arithmetic wraps modulo 2^64. *)
Definition SIZE_MAX_plus_1 : Z := 2 ^ 64.
Definition size_t_sub (a b : Z) : Z := (a - b) mod SIZE_MAX_plus_1.
Definition size_t_add (a b : Z) : Z := (a + b) mod SIZE_MAX_plus_1.

Definition size (buf : list byte) : Z := Z.of_nat (length buf).

(** Little-endian object representation of an unsigned integer of [n] bytes. *)
Fixpoint le_bytes (n : nat) (v : Z) : list byte :=
  match n with
  | O => []
  | S n' => (v mod 256) :: le_bytes n' (v / 256)
  end.

Fixpoint le_value (bs : list byte) : Z :=
  match bs with
  | [] => 0
  | b :: bs' => b + 256 * le_value bs'
  end.

(** Element-wise combination of two buffers (stops at the shorter one). *)
Fixpoint map2 {A B C : Type} (f : A -> B -> C) (xs : list A) (ys : list B) : list C :=
  match xs, ys with
  | x :: xs', y :: ys' => f x y :: map2 f xs' ys'
  | _, _ => []
  end.

(** ** Outcomes of a C++ call *)

Inductive cpp_exception : Type :=
| length_error          (* std::length_error, thrown by vector::resize *)
| runtime_error (what : string).

Inductive outcome (A : Type) : Type :=
| Returned (a : A)
| Threw (e : cpp_exception)
| AssertionFailed
| UndefinedBehaviour.

Arguments Returned {A} a.
Arguments Threw {A} e.
Arguments AssertionFailed {A}.
Arguments UndefinedBehaviour {A}.

(** One call after another: the second runs when the first has returned. *)
Definition and_then {A B : Type} (o : outcome A) (k : A -> outcome B) : outcome B :=
  match o with
  | Returned a => k a
  | Threw e => Threw e
  | AssertionFailed => AssertionFailed
  | UndefinedBehaviour => UndefinedBehaviour
  end.

(** [std::vector<uint8_t>::max_size()] of the common 64-bit standard libraries. *)
Definition vector_max_size : Z := 2 ^ 63 - 1.

(** [v.resize(n)] on an empty vector: [n] zero bytes, or [std::length_error]. *)
Definition vector_resize (n : Z) : outcome (list byte) :=
  if n >? vector_max_size then Threw length_error
  else Returned (repeat 0 (Z.to_nat n)).

(* ------------------------------------------------------------------ *)
(** ** libsodium: the constants and the primitives the code links against *)

Module Libsodium.

Definition crypto_box_SEEDBYTES : Z := 32.
Definition crypto_box_PUBLICKEYBYTES : Z := 32.
Definition crypto_box_SECRETKEYBYTES : Z := 32.
Definition crypto_box_NONCEBYTES : Z := 24.
Definition crypto_box_MACBYTES : Z := 16.
Definition crypto_aead_chacha20poly1305_KEYBYTES : Z := 32.
Definition crypto_aead_chacha20poly1305_NPUBBYTES : Z := 8.
Definition crypto_aead_chacha20poly1305_ABYTES : Z := 16.

(** The libsodium entry points used by Encryption.hpp.  A C call that
    reports failure through its return code yields [None]. *)
Class Sodium : Type := {
  (** [crypto_aead_chacha20poly1305_encrypt(c, &clen, m, mlen, ad, adlen, NULL, npub, k)] *)
  crypto_aead_chacha20poly1305_encrypt :
    forall (m ad npub k : list byte), list byte;
  (** [crypto_aead_chacha20poly1305_decrypt(m, &mlen, NULL, c, clen, ad, adlen, npub, k)] *)
  crypto_aead_chacha20poly1305_decrypt :
    forall (c ad npub k : list byte), option (list byte);
  (** [crypto_box_easy(c, m, mlen, n, pk, sk)] *)
  crypto_box_easy :
    forall (m n pk sk : list byte), option (list byte);
  (** [crypto_box_open_easy(m, c, clen, n, pk, sk)] *)
  crypto_box_open_easy :
    forall (c n pk sk : list byte), option (list byte);
  (** [crypto_box_seed_keypair(pk, sk, seed)] *)
  crypto_box_seed_keypair :
    forall (seed : list byte), list byte * list byte
}.

(** What the code relies on: the documented contract of the AEAD pair. *)
Class SodiumLaws (S : Sodium) : Prop := {
  aead_encrypt_length : forall m ad npub k,
    size (crypto_aead_chacha20poly1305_encrypt m ad npub k)
    = size m + crypto_aead_chacha20poly1305_ABYTES;
  aead_decrypt_encrypt : forall m ad npub k,
    crypto_aead_chacha20poly1305_decrypt
      (crypto_aead_chacha20poly1305_encrypt m ad npub k) ad npub k = Some m;
  aead_decrypt_length : forall c ad npub k m,
    crypto_aead_chacha20poly1305_decrypt c ad npub k = Some m ->
    size c = size m + crypto_aead_chacha20poly1305_ABYTES
}.

(** The contract of the public-key box, for the way the default keys use
    it: both sides derive the same key pair from the same seed, so that the
    box is opened with the public and the secret key it was made with, and
    [crypto_box_beforenm] gives both calls the same shared key.  A box is
    [crypto_box_MACBYTES] longer than its message. *)
Class BoxLaws (S : Sodium) : Prop := {
  box_easy_length : forall m n pk sk c,
    crypto_box_easy m n pk sk = Some c ->
    size c = size m + crypto_box_MACBYTES;
  box_open_easy_box_easy : forall m n pk sk c,
    crypto_box_easy m n pk sk = Some c ->
    crypto_box_open_easy c n pk sk = Some m
}.

End Libsodium.

(* ------------------------------------------------------------------ *)
(** ** WBTxRx.h: the radio port byte *)

Module WBTxRx.

Definition PCAP_MAX_PACKET_SIZE : Z := 1510.
(** [PCAP_MAX_PACKET_SIZE - RadiotapHeader::SIZE_BYTES - IEEE80211_HEADER_SIZE_BYTES];
    the two header sizes live in RadiotapHeader.hpp and Ieee80211Header.hpp,
    the [static_assert] in WBTxRx.h fixes the result. *)
Definition RAW_WIFI_FRAME_MAX_PAYLOAD_SIZE : Z := 1473.
Definition MAX_PACKET_PAYLOAD_SIZE : Z :=
  RAW_WIFI_FRAME_MAX_PAYLOAD_SIZE - Libsodium.crypto_aead_chacha20poly1305_ABYTES.

Definition STREAM_INDEX_MIN : Z := 0.
Definition STREAM_INDEX_MAX : Z := 127.
Definition STREAM_INDEX_SESSION_KEY_PACKETS : Z := 128.

(** [struct RadioPort { uint8_t encrypted: 1; uint8_t multiplex_index: 7; }].
    A bit-field of width [w] keeps the low [w] bits of what is stored in it. *)
Record RadioPort : Type := mkRadioPortRaw {
  encrypted : Z;
  multiplex_index : Z
}.

Definition mkRadioPort (e s : Z) : RadioPort :=
  {| encrypted := e mod 2 ^ 1; multiplex_index := s mod 2 ^ 7 |}.

(** The order in which a compiler lays consecutive bit-fields into their
    storage unit.  The C++ standard leaves it to the implementation; the
    ABIs of the little-endian targets (x86-64 System V, and ARM, on which
    the SSSE3 and NEON paths of this code base run) allocate from the least
    significant bit, big-endian ABIs from the most significant one. *)
Inductive bitfield_order : Type := LsbFirst | MsbFirst.

(** Packing of the bit-fields [(width, value)], in declaration order, into
    one storage unit of [unit_bits] bits; [pos] bits are already taken. *)
Fixpoint pack_bitfields (o : bitfield_order) (unit_bits pos : Z)
         (fields : list (Z * Z)) : Z :=
  match fields with
  | [] => 0
  | (w, v) :: rest =>
      let shift := match o with
                   | LsbFirst => pos
                   | MsbFirst => unit_bits - pos - w
                   end in
      Z.lor (Z.shiftl (v mod 2 ^ w) shift)
            (pack_bitfields o unit_bits (pos + w) rest)
  end.

(** [radio_port_to_uint8_t]: [memcpy] of the one-byte object into a [uint8_t]. *)
Definition radio_port_to_uint8_t (o : bitfield_order) (radio_port : RadioPort) : byte :=
  pack_bitfields o 8 0 [(1, encrypted radio_port); (7, multiplex_index radio_port)].

(** Reading a bit-field of width [w] that starts [pos] bits into the storage
    unit whose value is [b]. *)
Definition read_bitfield (o : bitfield_order) (unit_bits pos w b : Z) : Z :=
  let shift := match o with
               | LsbFirst => pos
               | MsbFirst => unit_bits - pos - w
               end in
  Z.shiftr b shift mod 2 ^ w.

(** The [RadioPort] object whose one byte is [b]: what the members read
    once the byte has been copied back into the struct. *)
Definition RadioPort_of_byte (o : bitfield_order) (b : byte) : RadioPort :=
  {| encrypted := read_bitfield o 8 0 1 b;
     multiplex_index := read_bitfield o 8 1 7 b |}.

End WBTxRx.

(* ------------------------------------------------------------------ *)
(** ** SocketHelper.hpp: UDPMultiForwarder *)

Module SocketHelper.

Record UDPForwarder : Type := {
  client_addr : string;
  client_udp_port : Z
}.

(** A [std::list] iterator is modelled by its position; [length l] is [end()]. *)
Fixpoint find_if {A : Type} (p : A -> bool) (l : list A) : nat :=
  match l with
  | [] => O
  | x :: l' => if p x then O else S (find_if p l')
  end.

Fixpoint remove_at {A : Type} (pos : nat) (l : list A) : list A :=
  match l, pos with
  | [], _ => []
  | _ :: l', O => l'
  | x :: l', S pos' => x :: remove_at pos' l'
  end.

(** [l.erase(pos)]: the iterator must be dereferenceable; erasing [end()] is
    undefined behaviour. *)
Definition list_erase {A : Type} (l : list A) (pos : nat) : outcome (list A) :=
  if (pos <? length l)%nat then Returned (remove_at pos l)
  else UndefinedBehaviour.

Definition same_target (addr : string) (port : Z) (f : UDPForwarder) : bool :=
  String.eqb (client_addr f) addr && (client_udp_port f =? port).

Definition removeForwarder (udpForwarders : list UDPForwarder)
           (addr : string) (port : Z) : outcome (list UDPForwarder) :=
  list_erase udpForwarders (find_if (same_target addr port) udpForwarders).

(** What the classes of this file do to the outside: system calls, the
    hand-over of a datagram to the callback, lines on the console. *)
Inductive effect : Type :=
| Socket                                          (* socket(AF_INET, SOCK_DGRAM, 0) *)
| SendTo (f : UDPForwarder) (packet : list byte)  (* sendto on the socket of [f], to its address *)
| Callback (payload : list byte)                  (* mCb(buff->data(), message_length) *)
| Print (line : string).

(** [UDPForwarder::UDPForwarder(client_addr, client_udp_port)]; [sockfd] is
    what [socket] returns to it. *)
Definition UDPForwarder_new (sockfd : Z) (addr : string) (port : Z)
  : outcome UDPForwarder * list effect :=
  if sockfd <? 0 then
    (Threw (runtime_error "Error opening socket:"),
     [Socket; Print "Error opening socket:"])
  else
    (Returned {| client_addr := addr; client_udp_port := port |},
     [Socket; Print "UDPForwarder::configured for "]).

(** [UDPMultiForwarder::addForwarder]: the list of forwarders afterwards;
    [sockfd] is what [socket] would return to a new forwarder. *)
Definition addForwarder (sockfd : Z) (udpForwarders : list UDPForwarder)
           (addr : string) (port : Z) : outcome (list UDPForwarder) * list effect :=
  if existsb (same_target addr port) udpForwarders then
    (Returned udpForwarders, [Print "UDPMultiForwarder: already forwarding to:"])
  else
    let '(made, ev) := UDPForwarder_new sockfd addr port in
    (match made with
     | Returned f => Returned (udpForwarders ++ [f])
     | Threw ex => Threw ex
     | AssertionFailed => AssertionFailed
     | UndefinedBehaviour => UndefinedBehaviour
     end,
     Print "UDPMultiForwarder: add forwarding to:" :: ev).

(** [UDPForwarder::forwardPacketViaUDP]; [sendto] gives the return value of
    the system call. *)
Definition UDPForwarder_forwardPacketViaUDP
           (sendto : UDPForwarder -> list byte -> Z)
           (f : UDPForwarder) (packet : list byte) : list effect :=
  let ret := sendto f packet in
  SendTo f packet
    :: (if (ret <? 0) || negb (ret =? size packet)
        then [Print "Error sending packet of size:"] else []).

(** [UDPMultiForwarder::forwardPacketViaUDP]. *)
Definition forwardPacketViaUDP (sendto : UDPForwarder -> list byte -> Z)
           (udpForwarders : list UDPForwarder) (packet : list byte) : list effect :=
  flat_map (fun udpForwarder =>
              UDPForwarder_forwardPacketViaUDP sendto udpForwarder packet)
           udpForwarders.

(** The address and port a forwarder sends to. *)
Definition target (f : UDPForwarder) : string * Z :=
  (client_addr f, client_udp_port f).

(** The datagrams among the effects, each with the forwarder it went through. *)
Definition datagrams (ev : list effect) : list (UDPForwarder * list byte) :=
  flat_map (fun e => match e with SendTo f p => [(f, p)] | _ => [] end) ev.

(** The payloads handed to the callback, among the effects. *)
Definition delivered (ev : list effect) : list (list byte) :=
  flat_map (fun e => match e with Callback p => [p] | _ => [] end) ev.

(** Whether [socket] was called. *)
Definition opens_socket (ev : list effect) : bool :=
  existsb (fun e => match e with Socket => true | _ => false end) ev.

Definition UDP_PACKET_MAX_SIZE : Z := 65507.

(** [UDPReceiver::loopUntilError].  [incoming] is what the successive calls
    of [recv(mSocket, buff, UDP_PACKET_MAX_SIZE, MSG_WAITALL)] yield: the
    return value and the buffer it leaves.  The result is the member
    [receiving] at the end, the calls of [recv] that were not made, and the
    effects; with nothing left to receive the loop waits in [recv] and the
    function does not return ([None]). *)
Fixpoint loopUntilError (incoming : list (Z * list byte)) (receiving : bool)
  : option bool * list (Z * list byte) * list effect :=
  if receiving then
    match incoming with
    | [] => (None, [], [])
    | (message_length, buff) :: rest =>
        if message_length >? 0 then
          let '(r, unread, ev) := loopUntilError rest true in
          (r, unread, Callback (firstn (Z.to_nat message_length) buff) :: ev)
        else
          let '(r, unread, ev) := loopUntilError rest false in
          (r, unread, Print "ERROR got message length of:" :: ev)
    end
  else (Some false, incoming, [Print "UDP end"]).

End SocketHelper.

(* ------------------------------------------------------------------ *)
(** ** Encryption.hpp: Encryptor and Decryptor *)

Module Encryption.

Import Libsodium.

(** The arguments of one AEAD call, as the caller assembles them. *)
Record aead_call : Type := {
  call_text : list byte;   (* message (encrypt) or ciphertext and tag (decrypt) *)
  call_ad : list byte;     (* associated data *)
  call_npub : list byte;   (* public nonce *)
  call_key : list byte
}.

Definition run_encrypt {S : Sodium} (a : aead_call) : list byte :=
  crypto_aead_chacha20poly1305_encrypt (call_text a) (call_ad a) (call_npub a) (call_key a).

Definition run_decrypt {S : Sodium} (a : aead_call) : option (list byte) :=
  crypto_aead_chacha20poly1305_decrypt (call_text a) (call_ad a) (call_npub a) (call_key a).

(** *** Packet types of wifibroadcast.hpp *)

(** Modelled from the spec: [WBDataHeader] is declared in wifibroadcast.hpp.
    The spec gives the packed 11-byte layout: radio port (1 byte), nonce
    (8 bytes), sequence number (2 bytes), integers little-endian. *)
Record WBDataHeader : Type := {
  radio_port : Z;
  nonce : Z;
  sequence_number : Z
}.

Definition sizeof_WBDataHeader : Z := 11.

(** [(uint8_t* ) &wblockHdr]: the object representation of the header. *)
Definition WBDataHeader_bytes (h : WBDataHeader) : list byte :=
  le_bytes 1 (radio_port h) ++ le_bytes 8 (nonce h) ++ le_bytes 2 (sequence_number h).

(** [(uint8_t* ) (&(wblockHdr.nonce))]: the bytes of the [uint64_t] nonce field. *)
Definition WBDataHeader_nonce_bytes (h : WBDataHeader) : list byte :=
  le_bytes 8 (nonce h).

(** The nonce as the spec words it: the 8-byte packet nonce left-padded with
    zeros to 12 bytes. *)
Definition spec_left_padded_nonce (h : WBDataHeader) : list byte :=
  repeat 0 4%nat ++ WBDataHeader_nonce_bytes h.

(** Modelled from the spec: [WBSessionKeyPacket] is declared in
    wifibroadcast.hpp.  The spec gives: 24-byte nonce, 48-byte sealed key,
    one byte of flags, one byte N_max. *)
Record WBSessionKeyPacket : Type := {
  session_key_nonce : list byte;
  session_key_data : list byte;
  flags : Z;
  n_max : Z
}.

Definition sizeof_session_key_nonce : nat := 24.
Definition sizeof_session_key_data : nat := 48.

Definition WBSessionKeyPacket_bytes (p : WBSessionKeyPacket) : list byte :=
  session_key_nonce p ++ session_key_data p ++ le_bytes 1 (flags p) ++ le_bytes 1 (n_max p).

(** [(WBSessionKeyPacket* ) buf]: reading the fields back out of a buffer. *)
Definition as_WBSessionKeyPacket (buf : list byte) : WBSessionKeyPacket :=
  {| session_key_nonce := firstn sizeof_session_key_nonce buf;
     session_key_data :=
       firstn sizeof_session_key_data (skipn sizeof_session_key_nonce buf);
     flags := nth (sizeof_session_key_nonce + sizeof_session_key_data) buf 0;
     n_max := nth (S (sizeof_session_key_nonce + sizeof_session_key_data)) buf 0 |}.

(** *** Helpers standing for libc *)

Definition DEFAULT_ENCRYPTION_SEED : list byte := repeat 0 (Z.to_nat crypto_box_SEEDBYTES).

(** [memcmp(a, b, n)]: zero, or the difference of the first bytes that differ. *)
Fixpoint memcmp (a b : list byte) (n : nat) : Z :=
  match n with
  | O => 0
  | S n' =>
      match a, b with
      | x :: a', y :: b' => if x =? y then memcmp a' b' n' else x - y
      | _, _ => 0
      end
  end.

(** A file is its contents; [fopen] fails on a path that is not there. *)
Definition filesystem : Type := string -> option (list byte).

(** [fread(dst, n, 1, fp) == 1]: [n] bytes read and the rest of the stream. *)
Definition fread (n : Z) (stream : list byte) : option (list byte * list byte) :=
  if size stream <? n then None
  else Some (firstn (Z.to_nat n) stream, skipn (Z.to_nat n) stream).

(** *** class Encryptor *)

(** [enc_session_key] is the member [session_key] of [Encryptor]. *)
Record Encryptor : Type := {
  tx_secretkey : list byte;
  rx_publickey : list byte;
  enc_session_key : list byte;
  sessionKeyPacket : WBSessionKeyPacket
}.

Definition empty_session_key_packet : WBSessionKeyPacket :=
  {| session_key_nonce := repeat 0 sizeof_session_key_nonce;
     session_key_data := repeat 0 sizeof_session_key_data;
     flags := 0; n_max := 0 |}.

Definition Encryptor_ctor {S : Sodium} (fs : filesystem) (keypair : option string)
  : outcome Encryptor :=
  match keypair with
  | None =>
      let '(pk, sk) := crypto_box_seed_keypair DEFAULT_ENCRYPTION_SEED in
      Returned {| tx_secretkey := sk; rx_publickey := pk;
                  enc_session_key := repeat 0 (Z.to_nat crypto_aead_chacha20poly1305_KEYBYTES);
                  sessionKeyPacket := empty_session_key_packet |}
  | Some path =>
      match fs path with
      | None => Threw (runtime_error "Unable to open")
      | Some fp =>
          match fread crypto_box_SECRETKEYBYTES fp with
          | None => Threw (runtime_error "Unable to read tx secret key")
          | Some (sk, fp') =>
              match fread crypto_box_PUBLICKEYBYTES fp' with
              | None => Threw (runtime_error "Unable to read rx public key")
              | Some (pk, _) =>
                  Returned {| tx_secretkey := sk; rx_publickey := pk;
                              enc_session_key :=
                                repeat 0 (Z.to_nat crypto_aead_chacha20poly1305_KEYBYTES);
                              sessionKeyPacket := empty_session_key_packet |}
              end
          end
      end
  end.

(** [makeSessionKey]; the two [randombytes_buf] results are passed in. *)
Definition makeSessionKey {S : Sodium} (e : Encryptor)
           (random_key random_nonce : list byte) : outcome Encryptor :=
  match crypto_box_easy random_key random_nonce (rx_publickey e) (tx_secretkey e) with
  | Some sealed =>
      Returned {| tx_secretkey := tx_secretkey e; rx_publickey := rx_publickey e;
                  enc_session_key := random_key;
                  sessionKeyPacket :=
                    {| session_key_nonce := random_nonce;
                       session_key_data := sealed;
                       flags := flags (sessionKeyPacket e);
                       n_max := n_max (sessionKeyPacket e) |} |}
  | None => Threw (runtime_error "Unable to make session key!")
  end.

(** The AEAD call of [makeEncryptedPacketIncludingHeader]. *)
Definition encrypt_call (e : Encryptor) (wblockHdr : WBDataHeader)
           (payload : list byte) : aead_call :=
  {| call_text := payload;
     call_ad := WBDataHeader_bytes wblockHdr;
     call_npub := WBDataHeader_nonce_bytes wblockHdr;
     call_key := enc_session_key e |}.

(** [makeEncryptedPacketIncludingHeader], the branch that is compiled:
    [DO_NOT_ENCRYPT_DATA_BUT_PROVIDE_BACKWARDS_COMPABILITY] is not defined. *)
Definition makeEncryptedPacketIncludingHeader {S : Sodium} (e : Encryptor)
           (wblockHdr : WBDataHeader) (payload : list byte) : outcome (list byte) :=
  let payloadSize := size payload in
  match vector_resize
          (size_t_add (size_t_add sizeof_WBDataHeader payloadSize)
                      crypto_aead_chacha20poly1305_ABYTES) with
  | Returned ret =>
      let cyphertext := run_encrypt (encrypt_call e wblockHdr payload) in
      let ciphertext_len := size cyphertext in
      (* assert(ret.size()==sizeof(WBDataHeader)+ciphertext_len) *)
      if size ret =? sizeof_WBDataHeader + ciphertext_len
      then Returned (WBDataHeader_bytes wblockHdr ++ cyphertext)
      else AssertionFailed
  | Threw ex => Threw ex
  | AssertionFailed => AssertionFailed
  | UndefinedBehaviour => UndefinedBehaviour
  end.

(** *** class Decryptor *)

Record Decryptor : Type := {
  rx_secretkey : list byte;
  tx_publickey : list byte;
  session_key : list byte
}.

Definition sizeof_session_key : nat := Z.to_nat crypto_aead_chacha20poly1305_KEYBYTES.

Definition Decryptor_ctor {S : Sodium} (fs : filesystem) (keypair : option string)
  : outcome Decryptor :=
  match keypair with
  | None =>
      let '(pk, sk) := crypto_box_seed_keypair DEFAULT_ENCRYPTION_SEED in
      (* memset(session_key.data(), '\0', sizeof(session_key)) *)
      Returned {| rx_secretkey := sk; tx_publickey := pk;
                  session_key := repeat 0 sizeof_session_key |}
  | Some path =>
      match fs path with
      | None => Threw (runtime_error "Unable to open")
      | Some fp =>
          match fread crypto_box_SECRETKEYBYTES fp with
          | None => Threw (runtime_error "Unable to read rx secret key")
          | Some (sk, fp') =>
              match fread crypto_box_PUBLICKEYBYTES fp' with
              | None => Threw (runtime_error "Unable to read tx public key")
              | Some (pk, _) =>
                  Returned {| rx_secretkey := sk; tx_publickey := pk;
                              session_key := repeat 0 sizeof_session_key |}
              end
          end
      end
  end.

(** The [crypto_box_open_easy] call of [onNewPacketWfbKey]. *)
Definition unseal_session_key {S : Sodium} (d : Decryptor) (buf : list byte)
  : option (list byte) :=
  let sessionKeyPacket := as_WBSessionKeyPacket buf in
  crypto_box_open_easy (session_key_data sessionKeyPacket)
                       (session_key_nonce sessionKeyPacket)
                       (tx_publickey d) (rx_secretkey d).

(** [onNewPacketWfbKey]: the returned flag and the decryptor afterwards. *)
Definition onNewPacketWfbKey {S : Sodium} (d : Decryptor) (buf : list byte)
  : bool * Decryptor :=
  match unseal_session_key d buf with
  | None => (false, d)
  | Some new_session_key =>
      if negb (memcmp (session_key d) new_session_key sizeof_session_key =? 0)
      then (true, {| rx_secretkey := rx_secretkey d;
                     tx_publickey := tx_publickey d;
                     session_key := new_session_key |})
      else (false, d)
  end.

(** The AEAD call of [decryptPacket]. *)
Definition decrypt_call (d : Decryptor) (wblockHdr : WBDataHeader)
           (encryptedPayload : list byte) : aead_call :=
  {| call_text := encryptedPayload;
     call_ad := WBDataHeader_bytes wblockHdr;
     call_npub := WBDataHeader_nonce_bytes wblockHdr;
     call_key := session_key d |}.

(** [decryptPacket], the branch that is compiled.  [decrypted.resize] comes
    first, with a size computed in [size_t]. *)
Definition decryptPacket {S : Sodium} (d : Decryptor) (wblockHdr : WBDataHeader)
           (encryptedPayload : list byte) : outcome (option (list byte)) :=
  let encryptedPayloadSize := size encryptedPayload in
  match vector_resize
          (size_t_sub encryptedPayloadSize crypto_aead_chacha20poly1305_ABYTES) with
  | Returned decrypted =>
      match run_decrypt (decrypt_call d wblockHdr encryptedPayload) with
      | None => Returned None
      | Some plain =>
          (* assert(decrypted.size()==decrypted_len) *)
          if size decrypted =? size plain then Returned (Some plain)
          else AssertionFailed
      end
  | Threw ex => Threw ex
  | AssertionFailed => AssertionFailed
  | UndefinedBehaviour => UndefinedBehaviour
  end.

End Encryption.

(* ------------------------------------------------------------------ *)
(** ** A model of the libsodium AEAD

    [crypto_aead_chacha20poly1305] is libsodium's original ChaCha20-Poly1305
    construction: a 64-bit block counter, a 64-bit nonce, the one-time
    Poly1305 key taken from block 0, the message encrypted from block 1 on,
    and the tag computed over [ad || le64(adlen) || c || le64(mlen)]. *)

Module SodiumModel.

Import Libsodium Encryption.

Definition u32 (x : Z) : Z := x mod 2 ^ 32.

Definition rotl32 (x n : Z) : Z :=
  u32 (Z.lor (Z.shiftl x n) (Z.shiftr x (32 - n))).

Fixpoint upd (i : nat) (v : Z) (l : list Z) : list Z :=
  match l, i with
  | [], _ => []
  | _ :: l', O => v :: l'
  | x :: l', S i' => x :: upd i' v l'
  end.

Definition quarterround (ia ib ic id : nat) (x : list Z) : list Z :=
  let a := nth ia x 0 in let b := nth ib x 0 in
  let c := nth ic x 0 in let d := nth id x 0 in
  let a := u32 (a + b) in let d := rotl32 (Z.lxor d a) 16 in
  let c := u32 (c + d) in let b := rotl32 (Z.lxor b c) 12 in
  let a := u32 (a + b) in let d := rotl32 (Z.lxor d a) 8 in
  let c := u32 (c + d) in let b := rotl32 (Z.lxor b c) 7 in
  upd ia a (upd ib b (upd ic c (upd id d x))).

Definition doubleround (x : list Z) : list Z :=
  let x := quarterround 0 4 8 12 x in
  let x := quarterround 1 5 9 13 x in
  let x := quarterround 2 6 10 14 x in
  let x := quarterround 3 7 11 15 x in
  let x := quarterround 0 5 10 15 x in
  let x := quarterround 1 6 11 12 x in
  let x := quarterround 2 7 8 13 x in
  quarterround 3 4 9 14 x.

(** The [i]-th little-endian 32-bit word of a buffer. *)
Definition word_at (bs : list byte) (i : nat) : Z :=
  le_value (firstn 4 (skipn (4 * i) bs ++ repeat 0 4%nat)).

Definition chacha20_init (k npub : list byte) (counter : Z) : list Z :=
  [0x61707865; 0x3320646e; 0x79622d32; 0x6b206574]
    ++ map (word_at k) (seq 0 8)
    ++ [u32 counter; u32 (counter / 2 ^ 32)]
    ++ map (word_at npub) (seq 0 2).

(** One 64-byte block of key stream. *)
Definition chacha20_block (k npub : list byte) (counter : Z) : list byte :=
  let st := chacha20_init k npub counter in
  let x := Nat.iter 10 doubleround st in
  flat_map (fun i => le_bytes 4 (u32 (nth i x 0 + nth i st 0))) (seq 0 16).

(** [crypto_stream_chacha20_xor_ic]: the message xored with the key stream
    that starts at block [ic]. *)
Fixpoint chacha20_xor_ic (fuel : nat) (m k npub : list byte) (ic : Z) : list byte :=
  match fuel with
  | O => []
  | S fuel' =>
      match m with
      | [] => []
      | _ => map2 Z.lxor (firstn 64 m) (chacha20_block k npub ic)
               ++ chacha20_xor_ic fuel' (skipn 64 m) k npub (ic + 1)
      end
  end.

Definition poly1305_p : Z := 2 ^ 130 - 5.

Definition poly1305_clamp (r : Z) : Z :=
  Z.land r 0x0ffffffc0ffffffc0ffffffc0fffffff.

Fixpoint poly1305_blocks (fuel : nat) (r acc : Z) (msg : list byte) : Z :=
  match fuel with
  | O => acc
  | S fuel' =>
      match msg with
      | [] => acc
      | _ => let chunk := firstn 16 msg in
             let n := le_value chunk + 2 ^ (8 * Z.of_nat (length chunk)) in
             poly1305_blocks fuel' r (((acc + n) * r) mod poly1305_p) (skipn 16 msg)
      end
  end.

(** [crypto_onetimeauth_poly1305]: the 16-byte tag of [msg] under a 32-byte key. *)
Definition poly1305 (key msg : list byte) : list byte :=
  let r := poly1305_clamp (le_value (firstn 16 key)) in
  let s := le_value (firstn 16 (skipn 16 key)) in
  le_bytes 16 (poly1305_blocks (length msg) r 0 msg + s).

Definition aead_tag (ad c npub k : list byte) : list byte :=
  let block0 := chacha20_block k npub 0 in
  poly1305 (firstn 32 block0)
           (ad ++ le_bytes 8 (size ad) ++ c ++ le_bytes 8 (size c)).

Definition aead_encrypt (m ad npub k : list byte) : list byte :=
  let c := chacha20_xor_ic (length m) m k npub 1 in
  c ++ aead_tag ad c npub k.

(** [crypto_verify_16]-style comparison of two buffers. *)
Fixpoint bytes_eqb (a b : list byte) : bool :=
  match a, b with
  | [], [] => true
  | x :: a', y :: b' => (x =? y) && bytes_eqb a' b'
  | _, _ => false
  end.

Definition aead_decrypt (c ad npub k : list byte) : option (list byte) :=
  if size c <? crypto_aead_chacha20poly1305_ABYTES then None
  else
    let mlen := (length c - Z.to_nat crypto_aead_chacha20poly1305_ABYTES)%nat in
    let body := firstn mlen c in
    let tag := skipn mlen c in
    if bytes_eqb tag (aead_tag ad body npub k)
    then Some (chacha20_xor_ic mlen body k npub 1)
    else None.

(** The public-key box is not modelled down to X25519 and XSalsa20: no
    property below depends on how it works inside.  This stand-in keeps its
    shape, a secret-key box under a key both sides can derive, 16 bytes
    longer than the message. *)
Definition box_shared_key (pk sk : list byte) : list byte := map2 Z.lxor pk sk.

Definition box_easy (m n pk sk : list byte) : option (list byte) :=
  Some (aead_encrypt m [] (firstn 8 n) (box_shared_key pk sk)).

Definition box_open_easy (c n pk sk : list byte) : option (list byte) :=
  aead_decrypt c [] (firstn 8 n) (box_shared_key pk sk).

Definition box_seed_keypair (seed : list byte) : list byte * list byte :=
  (map (fun b => Z.lxor b 0x5c) seed, map (fun b => Z.lxor b 0x36) seed).

#[export] Instance sodium_model : Sodium := {
  crypto_aead_chacha20poly1305_encrypt := aead_encrypt;
  crypto_aead_chacha20poly1305_decrypt := aead_decrypt;
  crypto_box_easy := box_easy;
  crypto_box_open_easy := box_open_easy;
  crypto_box_seed_keypair := box_seed_keypair
}.

End SodiumModel.

(* ------------------------------------------------------------------ *)
(** ** gf256_ssse3.h: region multiply-add over GF(2^8) *)

Module GF256.

Definition MOEPGF256_SIZE : Z := 256.

(** The field: polynomials over GF(2) modulo [x^8 + x^4 + x^3 + x^2 + 1],
    that is 0x11d = 285, the polynomial the table header is named after. *)
Definition gf_polynomial : Z := 0x11d.

Definition gf_double (a : Z) : Z :=
  let a2 := Z.shiftl a 1 in
  if Z.testbit a2 8 then Z.lxor a2 gf_polynomial else a2.

Fixpoint gf_mul_bits (n : nat) (a b acc : Z) : Z :=
  match n with
  | O => acc
  | S n' =>
      gf_mul_bits n' (gf_double a) (Z.shiftr b 1)
                  (if Z.odd b then Z.lxor acc a else acc)
  end.

(** Multiplication in GF(2^8), by shift and add over the 8 bits of [b]. *)
Definition gf_mul (a b : Z) : Z := gf_mul_bits 8 a b 0.

(** Modelled from the spec: [MOEPGF256_SHUFFLE_LOW_TABLE] and
    [MOEPGF256_SHUFFLE_HIGH_TABLE] come from gf256tables285.h.  The spec
    describes them as the split-nibble shuffle tables, the low and the high
    4-bit product table of each multiplier: row [c] of [tl] holds [c * i] and
    row [c] of [th] holds [c * (i << 4)], for the nibble values [i]. *)
Definition tl (c : Z) : list byte :=
  map (fun i => gf_mul c (Z.of_nat i)) (seq 0 16).

Definition th (c : Z) : list byte :=
  map (fun i => gf_mul c (Z.shiftl (Z.of_nat i) 4)) (seq 0 16).

(** *** The SSE intrinsics used; a [__m128i] is its 16 bytes, lowest first *)

Definition m128i : Type := list byte.

Definition _mm_set1_epi8 (b : Z) : m128i := repeat (b mod 256) 16.

Definition _mm_and_si128 (a b : m128i) : m128i := map2 Z.land a b.

Definition _mm_xor_si128 (a b : m128i) : m128i := map2 Z.lxor a b.

(** [pshufb]: a selector byte with bit 7 set yields zero, otherwise its low
    four bits index into [a]. *)
Definition shuffle_byte (a : m128i) (i : byte) : byte :=
  if Z.testbit i 7 then 0 else nth (Z.to_nat (Z.land i 15)) a 0.

Definition _mm_shuffle_epi8 (a b : m128i) : m128i := map (shuffle_byte a) b.

(** Logical right shift of the two 64-bit lanes. *)
Definition _mm_srli_epi64 (a : m128i) (count : Z) : m128i :=
  le_bytes 8 (Z.shiftr (le_value (firstn 8 a)) count)
    ++ le_bytes 8 (Z.shiftr (le_value (skipn 8 a)) count).

(** [_mm_loadu_si128] is used on the rows of the tables only, which are
    arrays of 16 bytes; it asks nothing of the address. *)
Definition _mm_loadu_si128 (row : list byte) : m128i := firstn 16 row.

(** *** Memory *)

(** The regions are handed over as pointers.  A pointer is an address, and
    the memory tells for every address whether a byte of an allocated
    object lives there, and which.  Objects are not told apart: an access is
    defined when every byte it touches is allocated. *)
Definition memory : Type := Z -> option byte.

(** The [n] bytes from [p] on, if all of them are allocated. *)
Fixpoint read_bytes (mem : memory) (p : Z) (n : nat) : option (list byte) :=
  match n with
  | O => Some []
  | S n' =>
      match mem p, read_bytes mem (p + 1) n' with
      | Some b, Some bs => Some (b :: bs)
      | _, _ => None
      end
  end.

(** The memory with the bytes [v] put at [p], [p + 1], ... *)
Definition write_bytes (mem : memory) (p : Z) (v : list byte) : memory :=
  fun a =>
    if (p <=? a) && (a <? p + size v) then Some (nth (Z.to_nat (a - p)) v 0)
    else mem a.

(** [_mm_load_si128] and [_mm_store_si128] move 16 bytes and require the
    address to be a multiple of 16: on another address the instruction
    raises a general-protection fault, and the behaviour of the program is
    undefined.  So it is when one of the 16 bytes is not allocated, as
    happens at the end of a region whose length is not a multiple of 16. *)
Definition _mm_load_si128 (mem : memory) (p : Z) : outcome m128i :=
  if p mod 16 =? 0 then
    match read_bytes mem p 16 with
    | Some v => Returned v
    | None => UndefinedBehaviour
    end
  else UndefinedBehaviour.

Definition _mm_store_si128 (mem : memory) (p : Z) (v : m128i) : outcome memory :=
  if p mod 16 =? 0 then
    match read_bytes mem p 16 with
    | Some _ => Returned (write_bytes mem p v)
    | None => UndefinedBehaviour
    end
  else UndefinedBehaviour.

(** Modelled from the spec: [xorr_sse2] is defined in another header of
    libmoepgf.  The spec asks [dst ^= c * src] of the multiply-add; for
    [c = 1], where the code hands over to [xorr_sse2], that is the region
    exclusive-or [region1 ^= region2] over [length] allocated bytes.  What
    [xorr_sse2] asks of the addresses beyond that is not visible here. *)
Definition xorr_sse2 (mem : memory) (region1 region2 : Z) (length : Z) : outcome memory :=
  match read_bytes mem region1 (Z.to_nat length),
        read_bytes mem region2 (Z.to_nat length) with
  | Some v1, Some v2 => Returned (write_bytes mem region1 (map2 Z.lxor v1 v2))
  | _, _ => UndefinedBehaviour
  end.

(** The [for] loop of [maddrc256_shuffle_ssse3]; [region1], [region2] and
    [end_] are the three pointers.  Every iteration moves [region1] 16 bytes
    closer to [end_], so that [length] iterations are never used up. *)
Fixpoint maddrc256_loop (fuel : nat) (t1 t2 m1 m2 : m128i)
         (mem : memory) (region1 region2 end_ : Z) : outcome memory :=
  match fuel with
  | O => Returned mem
  | S fuel' =>
      if region1 <? end_ then
        and_then (_mm_load_si128 mem region2) (fun in2 =>
        and_then (_mm_load_si128 mem region1) (fun in1 =>
        let l := _mm_and_si128 in2 m1 in
        let l := _mm_shuffle_epi8 t1 l in
        let h := _mm_and_si128 in2 m2 in
        let h := _mm_srli_epi64 h 4 in
        let h := _mm_shuffle_epi8 t2 h in
        let out := _mm_xor_si128 h l in
        let out := _mm_xor_si128 out in1 in
        and_then (_mm_store_si128 mem region1 out) (fun mem' =>
        maddrc256_loop fuel' t1 t2 m1 m2 mem' (region1 + 16) (region2 + 16) end_)))
      else Returned mem
  end.

(** [maddrc256_shuffle_ssse3(region1, region2, constant, length)]: the
    memory afterwards. *)
Definition maddrc256_shuffle_ssse3 (mem : memory) (region1 region2 : Z)
           (constant : Z) (length : Z) : outcome memory :=
  if constant =? 0 then Returned mem
  else if constant =? 1 then xorr_sse2 mem region1 region2 length
  else
    let t1 := _mm_loadu_si128 (tl constant) in
    let t2 := _mm_loadu_si128 (th constant) in
    let m1 := _mm_set1_epi8 0x0f in
    let m2 := _mm_set1_epi8 0xf0 in
    maddrc256_loop (Z.to_nat length) t1 t2 m1 m2 mem region1 region2 (region1 + length).

(** [memset(region, value, length)] and [memcpy(region1, region2, length)]
    of the C library: the bytes have to be allocated, and the two regions of
    [memcpy] must not overlap. *)
Definition memset (mem : memory) (region : Z) (value : byte) (length : Z)
  : outcome memory :=
  match read_bytes mem region (Z.to_nat length) with
  | Some _ => Returned (write_bytes mem region (repeat value (Z.to_nat length)))
  | None => UndefinedBehaviour
  end.

Definition memcpy (mem : memory) (region1 region2 : Z) (length : Z) : outcome memory :=
  if (region1 <? region2 + length) && (region2 <? region1 + length)
  then UndefinedBehaviour
  else
    match read_bytes mem region1 (Z.to_nat length),
          read_bytes mem region2 (Z.to_nat length) with
    | Some _, Some v2 => Returned (write_bytes mem region1 v2)
    | _, _ => UndefinedBehaviour
    end.

(** The [for] loop of [mulrc256_shuffle_ssse3]. *)
Fixpoint mulrc256_loop (fuel : nat) (t1 t2 m1 m2 : m128i)
         (mem : memory) (region end_ : Z) : outcome memory :=
  match fuel with
  | O => Returned mem
  | S fuel' =>
      if region <? end_ then
        and_then (_mm_load_si128 mem region) (fun in_ =>
        let l := _mm_and_si128 in_ m1 in
        let l := _mm_shuffle_epi8 t1 l in
        let h := _mm_and_si128 in_ m2 in
        let h := _mm_srli_epi64 h 4 in
        let h := _mm_shuffle_epi8 t2 h in
        let out := _mm_xor_si128 h l in
        and_then (_mm_store_si128 mem region out) (fun mem' =>
        mulrc256_loop fuel' t1 t2 m1 m2 mem' (region + 16) end_))
      else Returned mem
  end.

(** [mulrc256_shuffle_ssse3(region, constant, length)]: the memory
    afterwards. *)
Definition mulrc256_shuffle_ssse3 (mem : memory) (region : Z) (constant : Z) (length : Z)
  : outcome memory :=
  if constant =? 0 then memset mem region 0 length
  else if constant =? 1 then Returned mem
  else
    let t1 := _mm_loadu_si128 (tl constant) in
    let t2 := _mm_loadu_si128 (th constant) in
    let m1 := _mm_set1_epi8 0x0f in
    let m2 := _mm_set1_epi8 0xf0 in
    mulrc256_loop (Z.to_nat length) t1 t2 m1 m2 mem region (region + length).

(** [mulrc256_shuffle_sse3_x(region1, region2, constant, length)]: the
    memory afterwards. *)
Definition mulrc256_shuffle_sse3_x (mem : memory) (region1 region2 : Z)
           (constant : Z) (length : Z) : outcome memory :=
  and_then (memcpy mem region1 region2 length) (fun mem' =>
  mulrc256_shuffle_ssse3 mem' region1 constant length).


(** What one round of the loop makes of a source byte [s] under the
    multiplier [c]: the two table look-ups, xored. *)
Definition split_nibble_product (c s : byte) : byte :=
  Z.lxor (shuffle_byte (th c) (Z.shiftr (Z.land s 0xf0) 4))
         (shuffle_byte (tl c) (Z.land s 0x0f)).

(** All byte values. *)
Definition all_bytes : list byte := map Z.of_nat (seq 0 256).


End GF256.

(* ------------------------------------------------------------------ *)
(** ** WBTransmitter.cpp: the transmitter *)

Module WBTransmitter.

(** [TOptions], with the members WBTransmitter.cpp reads; [fec_k] is a
    [std::variant<int, std::string>]. *)
Inductive fec_k_t : Type :=
| fec_k_int (k : Z)          (* index() == 0 *)
| fec_k_string (s : string). (* index() == 1 *)

Definition fec_k_index (v : fec_k_t) : Z :=
  match v with fec_k_int _ => 0 | fec_k_string _ => 1 end.

Record TOptions : Type := {
  radio_port : Z;
  fec_k : fec_k_t;
  fec_percentage : Z;
  keypair : option string;
  wlan : string;
  enableLogAlive : bool
}.

Inductive FEC_VARIABLE_INPUT_TYPE : Type := none | h264 | h265.

(** The packet announcing the session key, with the fields the transmitter
    fills in and under the names WBTransmitter.cpp uses for them. *)
Record WBSessionKeyPacket : Type := {
  sessionKeyNonce : list byte;
  sessionKeyData : list byte;
  IS_FEC_ENABLED : bool;
  MAX_N_FRAGMENTS_PER_BLOCK : Z
}.

(** Everything WBTransmitter.cpp uses and other files define: constants,
    the encryptor, the two FEC encoders, the frame headers, the packet
    wrapper, the RTP helpers and the pcap injection.  An encoder hands its
    fragments to [outputDataCallback] while [encodePacket] runs; here
    [encodePacket] returns them, in order, as [(nonce, payload)] pairs.
    How these calls fail is not visible in WBTransmitter.cpp: apart from
    the constructor of the encryptor they are taken to return. *)
Class Collaborators : Type := {
  FEC_MAX_PAYLOAD_SIZE : Z;
  SESSION_KEY_ANNOUNCE_DELTA : Z;
  MAX_SANE_INJECTION_TIME : Z;
  MAX_N_P_FRAGMENTS_PER_BLOCK : Z;

  encryptor : Type;
  (** The constructor of the encryptor throws when it cannot read the keys. *)
  Encryptor_new : option string -> outcome encryptor;
  makeNewSessionKey : encryptor -> encryptor * (list byte * list byte);

  WBDataHeader : Type;
  WBDataHeader_new : Z -> Z -> WBDataHeader;
  encryptPacket : encryptor -> Z -> list byte -> WBDataHeader -> list byte;

  fec_encoder : Type;
  FECEncoder_new : Z -> Z -> fec_encoder;
  FECEncoder_calculateN : Z -> Z -> Z;
  FECEncoder_encodePacket :
    fec_encoder -> list byte -> option bool -> fec_encoder * list (Z * list byte);
  FECEncoder_resetOnOverflow : fec_encoder -> bool * fec_encoder;

  fec_disabled_encoder : Type;
  FECDisabledEncoder_new : fec_disabled_encoder;
  FECDisabledEncoder_encodePacket :
    fec_disabled_encoder -> list byte -> fec_disabled_encoder * list (Z * list byte);

  h264_end_block : list byte -> bool;
  h265_end_block : list byte -> bool;

  UserSelectableParams : Type;
  set_mcs_index : Z -> UserSelectableParams -> UserSelectableParams;
  RadiotapHeader : Type;
  RadiotapHeader_new : UserSelectableParams -> RadiotapHeader;
  Ieee80211Header : Type;
  Ieee80211Header_new : Ieee80211Header;
  writeParams : Ieee80211Header -> Z -> Z -> Ieee80211Header;

  AbstractWBPacket : Type;
  (** [{(uint8_t* ) &sessionKeyPacket, WBSessionKeyPacket::SIZE_BYTES}] *)
  packet_of_session_key : WBSessionKeyPacket -> AbstractWBPacket;
  (** [{(const uint8_t* ) &wbDataHeader, sizeof(WBDataHeader), data, size}] *)
  packet_of_header_and_buffer : WBDataHeader -> list byte -> AbstractWBPacket;
  payloadSize : AbstractWBPacket -> Z;

  (** The time [mPcapTransmitter.injectPacket] takes for the frame that is
      injected after [n] others. *)
  pcap_injection_time : Z -> Z
}.

Declare Scope tx_scope.
Delimit Scope tx_scope with tx.

Section Transmitter.

Context {C : Collaborators}.

(** What the transmitter does to the world around it. *)
Inductive event : Type :=
| Injected (radiotap : RadiotapHeader) (ieee80211 : Ieee80211Header)
           (packet : AbstractWBPacket)
| SleptFor (milliseconds : Z)
| Logged (message : string).

Record WBTransmitter : Type := {
  options : TOptions;
  IS_FEC_DISABLED : bool;
  IS_FEC_VARIABLE : bool;
  fecVariableInputType : FEC_VARIABLE_INPUT_TYPE;
  mEncryptor : encryptor;
  mFecEncoder : option fec_encoder;
  mFecDisabledEncoder : option fec_disabled_encoder;
  sessionKeyPacket : WBSessionKeyPacket;
  _radioTapHeaderParams : UserSelectableParams;
  mRadiotapHeader : RadiotapHeader;
  mIeee80211Header : Ieee80211Header;
  ieee80211_seq : Z;
  m_curr_seq_nr : Z;
  count_bytes_data_injected : Z;
  count_bytes_data_provided : Z;
  count_tx_injections_error_hint : Z;
  nInjectedPackets : Z;
  nInjectedSessionKeypackets : Z;
  nInputPackets : Z;
  session_key_announce_ts : Z;
  pcapInjectionTime : list Z
}.

Definition set_mEncryptor (v : encryptor) (t : WBTransmitter) : WBTransmitter :=
  {| options := options t; IS_FEC_DISABLED := IS_FEC_DISABLED t;
     IS_FEC_VARIABLE := IS_FEC_VARIABLE t; fecVariableInputType := fecVariableInputType t;
     mEncryptor := v; mFecEncoder := mFecEncoder t; mFecDisabledEncoder := mFecDisabledEncoder t;
     sessionKeyPacket := sessionKeyPacket t; _radioTapHeaderParams := _radioTapHeaderParams t;
     mRadiotapHeader := mRadiotapHeader t; mIeee80211Header := mIeee80211Header t;
     ieee80211_seq := ieee80211_seq t; m_curr_seq_nr := m_curr_seq_nr t;
     count_bytes_data_injected := count_bytes_data_injected t;
     count_bytes_data_provided := count_bytes_data_provided t;
     count_tx_injections_error_hint := count_tx_injections_error_hint t;
     nInjectedPackets := nInjectedPackets t;
     nInjectedSessionKeypackets := nInjectedSessionKeypackets t; nInputPackets := nInputPackets t;
     session_key_announce_ts := session_key_announce_ts t;
     pcapInjectionTime := pcapInjectionTime t |}.

Definition set_mFecEncoder (v : option fec_encoder) (t : WBTransmitter) : WBTransmitter :=
  {| options := options t; IS_FEC_DISABLED := IS_FEC_DISABLED t;
     IS_FEC_VARIABLE := IS_FEC_VARIABLE t; fecVariableInputType := fecVariableInputType t;
     mEncryptor := mEncryptor t; mFecEncoder := v; mFecDisabledEncoder := mFecDisabledEncoder t;
     sessionKeyPacket := sessionKeyPacket t; _radioTapHeaderParams := _radioTapHeaderParams t;
     mRadiotapHeader := mRadiotapHeader t; mIeee80211Header := mIeee80211Header t;
     ieee80211_seq := ieee80211_seq t; m_curr_seq_nr := m_curr_seq_nr t;
     count_bytes_data_injected := count_bytes_data_injected t;
     count_bytes_data_provided := count_bytes_data_provided t;
     count_tx_injections_error_hint := count_tx_injections_error_hint t;
     nInjectedPackets := nInjectedPackets t;
     nInjectedSessionKeypackets := nInjectedSessionKeypackets t; nInputPackets := nInputPackets t;
     session_key_announce_ts := session_key_announce_ts t;
     pcapInjectionTime := pcapInjectionTime t |}.

Definition set_mFecDisabledEncoder (v : option fec_disabled_encoder) (t : WBTransmitter) : WBTransmitter :=
  {| options := options t; IS_FEC_DISABLED := IS_FEC_DISABLED t;
     IS_FEC_VARIABLE := IS_FEC_VARIABLE t; fecVariableInputType := fecVariableInputType t;
     mEncryptor := mEncryptor t; mFecEncoder := mFecEncoder t; mFecDisabledEncoder := v;
     sessionKeyPacket := sessionKeyPacket t; _radioTapHeaderParams := _radioTapHeaderParams t;
     mRadiotapHeader := mRadiotapHeader t; mIeee80211Header := mIeee80211Header t;
     ieee80211_seq := ieee80211_seq t; m_curr_seq_nr := m_curr_seq_nr t;
     count_bytes_data_injected := count_bytes_data_injected t;
     count_bytes_data_provided := count_bytes_data_provided t;
     count_tx_injections_error_hint := count_tx_injections_error_hint t;
     nInjectedPackets := nInjectedPackets t;
     nInjectedSessionKeypackets := nInjectedSessionKeypackets t; nInputPackets := nInputPackets t;
     session_key_announce_ts := session_key_announce_ts t;
     pcapInjectionTime := pcapInjectionTime t |}.

Definition set_sessionKeyPacket (v : WBSessionKeyPacket) (t : WBTransmitter) : WBTransmitter :=
  {| options := options t; IS_FEC_DISABLED := IS_FEC_DISABLED t;
     IS_FEC_VARIABLE := IS_FEC_VARIABLE t; fecVariableInputType := fecVariableInputType t;
     mEncryptor := mEncryptor t; mFecEncoder := mFecEncoder t;
     mFecDisabledEncoder := mFecDisabledEncoder t; sessionKeyPacket := v;
     _radioTapHeaderParams := _radioTapHeaderParams t; mRadiotapHeader := mRadiotapHeader t;
     mIeee80211Header := mIeee80211Header t; ieee80211_seq := ieee80211_seq t;
     m_curr_seq_nr := m_curr_seq_nr t; count_bytes_data_injected := count_bytes_data_injected t;
     count_bytes_data_provided := count_bytes_data_provided t;
     count_tx_injections_error_hint := count_tx_injections_error_hint t;
     nInjectedPackets := nInjectedPackets t;
     nInjectedSessionKeypackets := nInjectedSessionKeypackets t; nInputPackets := nInputPackets t;
     session_key_announce_ts := session_key_announce_ts t;
     pcapInjectionTime := pcapInjectionTime t |}.

Definition set_radioTapHeaderParams (v : UserSelectableParams) (t : WBTransmitter) : WBTransmitter :=
  {| options := options t; IS_FEC_DISABLED := IS_FEC_DISABLED t;
     IS_FEC_VARIABLE := IS_FEC_VARIABLE t; fecVariableInputType := fecVariableInputType t;
     mEncryptor := mEncryptor t; mFecEncoder := mFecEncoder t;
     mFecDisabledEncoder := mFecDisabledEncoder t; sessionKeyPacket := sessionKeyPacket t;
     _radioTapHeaderParams := v; mRadiotapHeader := mRadiotapHeader t;
     mIeee80211Header := mIeee80211Header t; ieee80211_seq := ieee80211_seq t;
     m_curr_seq_nr := m_curr_seq_nr t; count_bytes_data_injected := count_bytes_data_injected t;
     count_bytes_data_provided := count_bytes_data_provided t;
     count_tx_injections_error_hint := count_tx_injections_error_hint t;
     nInjectedPackets := nInjectedPackets t;
     nInjectedSessionKeypackets := nInjectedSessionKeypackets t; nInputPackets := nInputPackets t;
     session_key_announce_ts := session_key_announce_ts t;
     pcapInjectionTime := pcapInjectionTime t |}.

Definition set_mRadiotapHeader (v : RadiotapHeader) (t : WBTransmitter) : WBTransmitter :=
  {| options := options t; IS_FEC_DISABLED := IS_FEC_DISABLED t;
     IS_FEC_VARIABLE := IS_FEC_VARIABLE t; fecVariableInputType := fecVariableInputType t;
     mEncryptor := mEncryptor t; mFecEncoder := mFecEncoder t;
     mFecDisabledEncoder := mFecDisabledEncoder t; sessionKeyPacket := sessionKeyPacket t;
     _radioTapHeaderParams := _radioTapHeaderParams t; mRadiotapHeader := v;
     mIeee80211Header := mIeee80211Header t; ieee80211_seq := ieee80211_seq t;
     m_curr_seq_nr := m_curr_seq_nr t; count_bytes_data_injected := count_bytes_data_injected t;
     count_bytes_data_provided := count_bytes_data_provided t;
     count_tx_injections_error_hint := count_tx_injections_error_hint t;
     nInjectedPackets := nInjectedPackets t;
     nInjectedSessionKeypackets := nInjectedSessionKeypackets t; nInputPackets := nInputPackets t;
     session_key_announce_ts := session_key_announce_ts t;
     pcapInjectionTime := pcapInjectionTime t |}.

Definition set_mIeee80211Header (v : Ieee80211Header) (t : WBTransmitter) : WBTransmitter :=
  {| options := options t; IS_FEC_DISABLED := IS_FEC_DISABLED t;
     IS_FEC_VARIABLE := IS_FEC_VARIABLE t; fecVariableInputType := fecVariableInputType t;
     mEncryptor := mEncryptor t; mFecEncoder := mFecEncoder t;
     mFecDisabledEncoder := mFecDisabledEncoder t; sessionKeyPacket := sessionKeyPacket t;
     _radioTapHeaderParams := _radioTapHeaderParams t; mRadiotapHeader := mRadiotapHeader t;
     mIeee80211Header := v; ieee80211_seq := ieee80211_seq t; m_curr_seq_nr := m_curr_seq_nr t;
     count_bytes_data_injected := count_bytes_data_injected t;
     count_bytes_data_provided := count_bytes_data_provided t;
     count_tx_injections_error_hint := count_tx_injections_error_hint t;
     nInjectedPackets := nInjectedPackets t;
     nInjectedSessionKeypackets := nInjectedSessionKeypackets t; nInputPackets := nInputPackets t;
     session_key_announce_ts := session_key_announce_ts t;
     pcapInjectionTime := pcapInjectionTime t |}.

Definition set_ieee80211_seq (v : Z) (t : WBTransmitter) : WBTransmitter :=
  {| options := options t; IS_FEC_DISABLED := IS_FEC_DISABLED t;
     IS_FEC_VARIABLE := IS_FEC_VARIABLE t; fecVariableInputType := fecVariableInputType t;
     mEncryptor := mEncryptor t; mFecEncoder := mFecEncoder t;
     mFecDisabledEncoder := mFecDisabledEncoder t; sessionKeyPacket := sessionKeyPacket t;
     _radioTapHeaderParams := _radioTapHeaderParams t; mRadiotapHeader := mRadiotapHeader t;
     mIeee80211Header := mIeee80211Header t; ieee80211_seq := v; m_curr_seq_nr := m_curr_seq_nr t;
     count_bytes_data_injected := count_bytes_data_injected t;
     count_bytes_data_provided := count_bytes_data_provided t;
     count_tx_injections_error_hint := count_tx_injections_error_hint t;
     nInjectedPackets := nInjectedPackets t;
     nInjectedSessionKeypackets := nInjectedSessionKeypackets t; nInputPackets := nInputPackets t;
     session_key_announce_ts := session_key_announce_ts t;
     pcapInjectionTime := pcapInjectionTime t |}.

Definition set_m_curr_seq_nr (v : Z) (t : WBTransmitter) : WBTransmitter :=
  {| options := options t; IS_FEC_DISABLED := IS_FEC_DISABLED t;
     IS_FEC_VARIABLE := IS_FEC_VARIABLE t; fecVariableInputType := fecVariableInputType t;
     mEncryptor := mEncryptor t; mFecEncoder := mFecEncoder t;
     mFecDisabledEncoder := mFecDisabledEncoder t; sessionKeyPacket := sessionKeyPacket t;
     _radioTapHeaderParams := _radioTapHeaderParams t; mRadiotapHeader := mRadiotapHeader t;
     mIeee80211Header := mIeee80211Header t; ieee80211_seq := ieee80211_seq t; m_curr_seq_nr := v;
     count_bytes_data_injected := count_bytes_data_injected t;
     count_bytes_data_provided := count_bytes_data_provided t;
     count_tx_injections_error_hint := count_tx_injections_error_hint t;
     nInjectedPackets := nInjectedPackets t;
     nInjectedSessionKeypackets := nInjectedSessionKeypackets t; nInputPackets := nInputPackets t;
     session_key_announce_ts := session_key_announce_ts t;
     pcapInjectionTime := pcapInjectionTime t |}.

Definition set_count_bytes_data_injected (v : Z) (t : WBTransmitter) : WBTransmitter :=
  {| options := options t; IS_FEC_DISABLED := IS_FEC_DISABLED t;
     IS_FEC_VARIABLE := IS_FEC_VARIABLE t; fecVariableInputType := fecVariableInputType t;
     mEncryptor := mEncryptor t; mFecEncoder := mFecEncoder t;
     mFecDisabledEncoder := mFecDisabledEncoder t; sessionKeyPacket := sessionKeyPacket t;
     _radioTapHeaderParams := _radioTapHeaderParams t; mRadiotapHeader := mRadiotapHeader t;
     mIeee80211Header := mIeee80211Header t; ieee80211_seq := ieee80211_seq t;
     m_curr_seq_nr := m_curr_seq_nr t; count_bytes_data_injected := v;
     count_bytes_data_provided := count_bytes_data_provided t;
     count_tx_injections_error_hint := count_tx_injections_error_hint t;
     nInjectedPackets := nInjectedPackets t;
     nInjectedSessionKeypackets := nInjectedSessionKeypackets t; nInputPackets := nInputPackets t;
     session_key_announce_ts := session_key_announce_ts t;
     pcapInjectionTime := pcapInjectionTime t |}.

Definition set_count_bytes_data_provided (v : Z) (t : WBTransmitter) : WBTransmitter :=
  {| options := options t; IS_FEC_DISABLED := IS_FEC_DISABLED t;
     IS_FEC_VARIABLE := IS_FEC_VARIABLE t; fecVariableInputType := fecVariableInputType t;
     mEncryptor := mEncryptor t; mFecEncoder := mFecEncoder t;
     mFecDisabledEncoder := mFecDisabledEncoder t; sessionKeyPacket := sessionKeyPacket t;
     _radioTapHeaderParams := _radioTapHeaderParams t; mRadiotapHeader := mRadiotapHeader t;
     mIeee80211Header := mIeee80211Header t; ieee80211_seq := ieee80211_seq t;
     m_curr_seq_nr := m_curr_seq_nr t; count_bytes_data_injected := count_bytes_data_injected t;
     count_bytes_data_provided := v;
     count_tx_injections_error_hint := count_tx_injections_error_hint t;
     nInjectedPackets := nInjectedPackets t;
     nInjectedSessionKeypackets := nInjectedSessionKeypackets t; nInputPackets := nInputPackets t;
     session_key_announce_ts := session_key_announce_ts t;
     pcapInjectionTime := pcapInjectionTime t |}.

Definition set_count_tx_injections_error_hint (v : Z) (t : WBTransmitter) : WBTransmitter :=
  {| options := options t; IS_FEC_DISABLED := IS_FEC_DISABLED t;
     IS_FEC_VARIABLE := IS_FEC_VARIABLE t; fecVariableInputType := fecVariableInputType t;
     mEncryptor := mEncryptor t; mFecEncoder := mFecEncoder t;
     mFecDisabledEncoder := mFecDisabledEncoder t; sessionKeyPacket := sessionKeyPacket t;
     _radioTapHeaderParams := _radioTapHeaderParams t; mRadiotapHeader := mRadiotapHeader t;
     mIeee80211Header := mIeee80211Header t; ieee80211_seq := ieee80211_seq t;
     m_curr_seq_nr := m_curr_seq_nr t; count_bytes_data_injected := count_bytes_data_injected t;
     count_bytes_data_provided := count_bytes_data_provided t;
     count_tx_injections_error_hint := v; nInjectedPackets := nInjectedPackets t;
     nInjectedSessionKeypackets := nInjectedSessionKeypackets t; nInputPackets := nInputPackets t;
     session_key_announce_ts := session_key_announce_ts t;
     pcapInjectionTime := pcapInjectionTime t |}.

Definition set_nInjectedPackets (v : Z) (t : WBTransmitter) : WBTransmitter :=
  {| options := options t; IS_FEC_DISABLED := IS_FEC_DISABLED t;
     IS_FEC_VARIABLE := IS_FEC_VARIABLE t; fecVariableInputType := fecVariableInputType t;
     mEncryptor := mEncryptor t; mFecEncoder := mFecEncoder t;
     mFecDisabledEncoder := mFecDisabledEncoder t; sessionKeyPacket := sessionKeyPacket t;
     _radioTapHeaderParams := _radioTapHeaderParams t; mRadiotapHeader := mRadiotapHeader t;
     mIeee80211Header := mIeee80211Header t; ieee80211_seq := ieee80211_seq t;
     m_curr_seq_nr := m_curr_seq_nr t; count_bytes_data_injected := count_bytes_data_injected t;
     count_bytes_data_provided := count_bytes_data_provided t;
     count_tx_injections_error_hint := count_tx_injections_error_hint t; nInjectedPackets := v;
     nInjectedSessionKeypackets := nInjectedSessionKeypackets t; nInputPackets := nInputPackets t;
     session_key_announce_ts := session_key_announce_ts t;
     pcapInjectionTime := pcapInjectionTime t |}.

Definition set_nInjectedSessionKeypackets (v : Z) (t : WBTransmitter) : WBTransmitter :=
  {| options := options t; IS_FEC_DISABLED := IS_FEC_DISABLED t;
     IS_FEC_VARIABLE := IS_FEC_VARIABLE t; fecVariableInputType := fecVariableInputType t;
     mEncryptor := mEncryptor t; mFecEncoder := mFecEncoder t;
     mFecDisabledEncoder := mFecDisabledEncoder t; sessionKeyPacket := sessionKeyPacket t;
     _radioTapHeaderParams := _radioTapHeaderParams t; mRadiotapHeader := mRadiotapHeader t;
     mIeee80211Header := mIeee80211Header t; ieee80211_seq := ieee80211_seq t;
     m_curr_seq_nr := m_curr_seq_nr t; count_bytes_data_injected := count_bytes_data_injected t;
     count_bytes_data_provided := count_bytes_data_provided t;
     count_tx_injections_error_hint := count_tx_injections_error_hint t;
     nInjectedPackets := nInjectedPackets t; nInjectedSessionKeypackets := v;
     nInputPackets := nInputPackets t; session_key_announce_ts := session_key_announce_ts t;
     pcapInjectionTime := pcapInjectionTime t |}.

Definition set_nInputPackets (v : Z) (t : WBTransmitter) : WBTransmitter :=
  {| options := options t; IS_FEC_DISABLED := IS_FEC_DISABLED t;
     IS_FEC_VARIABLE := IS_FEC_VARIABLE t; fecVariableInputType := fecVariableInputType t;
     mEncryptor := mEncryptor t; mFecEncoder := mFecEncoder t;
     mFecDisabledEncoder := mFecDisabledEncoder t; sessionKeyPacket := sessionKeyPacket t;
     _radioTapHeaderParams := _radioTapHeaderParams t; mRadiotapHeader := mRadiotapHeader t;
     mIeee80211Header := mIeee80211Header t; ieee80211_seq := ieee80211_seq t;
     m_curr_seq_nr := m_curr_seq_nr t; count_bytes_data_injected := count_bytes_data_injected t;
     count_bytes_data_provided := count_bytes_data_provided t;
     count_tx_injections_error_hint := count_tx_injections_error_hint t;
     nInjectedPackets := nInjectedPackets t;
     nInjectedSessionKeypackets := nInjectedSessionKeypackets t; nInputPackets := v;
     session_key_announce_ts := session_key_announce_ts t;
     pcapInjectionTime := pcapInjectionTime t |}.

Definition set_session_key_announce_ts (v : Z) (t : WBTransmitter) : WBTransmitter :=
  {| options := options t; IS_FEC_DISABLED := IS_FEC_DISABLED t;
     IS_FEC_VARIABLE := IS_FEC_VARIABLE t; fecVariableInputType := fecVariableInputType t;
     mEncryptor := mEncryptor t; mFecEncoder := mFecEncoder t;
     mFecDisabledEncoder := mFecDisabledEncoder t; sessionKeyPacket := sessionKeyPacket t;
     _radioTapHeaderParams := _radioTapHeaderParams t; mRadiotapHeader := mRadiotapHeader t;
     mIeee80211Header := mIeee80211Header t; ieee80211_seq := ieee80211_seq t;
     m_curr_seq_nr := m_curr_seq_nr t; count_bytes_data_injected := count_bytes_data_injected t;
     count_bytes_data_provided := count_bytes_data_provided t;
     count_tx_injections_error_hint := count_tx_injections_error_hint t;
     nInjectedPackets := nInjectedPackets t;
     nInjectedSessionKeypackets := nInjectedSessionKeypackets t; nInputPackets := nInputPackets t;
     session_key_announce_ts := v; pcapInjectionTime := pcapInjectionTime t |}.

Definition set_pcapInjectionTime (v : list Z) (t : WBTransmitter) : WBTransmitter :=
  {| options := options t; IS_FEC_DISABLED := IS_FEC_DISABLED t;
     IS_FEC_VARIABLE := IS_FEC_VARIABLE t; fecVariableInputType := fecVariableInputType t;
     mEncryptor := mEncryptor t; mFecEncoder := mFecEncoder t;
     mFecDisabledEncoder := mFecDisabledEncoder t; sessionKeyPacket := sessionKeyPacket t;
     _radioTapHeaderParams := _radioTapHeaderParams t; mRadiotapHeader := mRadiotapHeader t;
     mIeee80211Header := mIeee80211Header t; ieee80211_seq := ieee80211_seq t;
     m_curr_seq_nr := m_curr_seq_nr t; count_bytes_data_injected := count_bytes_data_injected t;
     count_bytes_data_provided := count_bytes_data_provided t;
     count_tx_injections_error_hint := count_tx_injections_error_hint t;
     nInjectedPackets := nInjectedPackets t;
     nInjectedSessionKeypackets := nInjectedSessionKeypackets t; nInputPackets := nInputPackets t;
     session_key_announce_ts := session_key_announce_ts t; pcapInjectionTime := v |}.

(** Methods run in a state monad over the transmitter that also collects
    the events; a method may end in an [outcome] other than [Returned]. *)
Definition Tx (A : Type) : Type :=
  WBTransmitter -> outcome (A * WBTransmitter * list event).

Definition ret {A : Type} (a : A) : Tx A := fun t => Returned (a, t, []).

Definition bind {A B : Type} (m : Tx A) (k : A -> Tx B) : Tx B :=
  fun t =>
    match m t with
    | Returned (a, t1, ev1) =>
        match k a t1 with
        | Returned (b, t2, ev2) => Returned (b, t2, ev1 ++ ev2)
        | Threw ex => Threw ex
        | AssertionFailed => AssertionFailed
        | UndefinedBehaviour => UndefinedBehaviour
        end
    | Threw ex => Threw ex
    | AssertionFailed => AssertionFailed
    | UndefinedBehaviour => UndefinedBehaviour
    end.

Definition get : Tx WBTransmitter := fun t => Returned (t, t, []).
Definition modify (f : WBTransmitter -> WBTransmitter) : Tx unit :=
  fun t => Returned (tt, f t, []).
Definition emit (e : event) : Tx unit := fun t => Returned (tt, t, [e]).
Definition null_dereference {A : Type} : Tx A := fun _ => UndefinedBehaviour.
Definition when (b : bool) (m : Tx unit) : Tx unit := if b then m else ret tt.

Notation "x <- m ;; k" := (bind m (fun x => k))
  (at level 61, m at next level, right associativity) : tx_scope.
Notation "m ;; k" := (bind m (fun _ => k))
  (at level 61, right associativity) : tx_scope.
Local Open Scope tx_scope.

(** [for (int i = 0; i < n; i++) body]. *)
Fixpoint for_loop (n : nat) (body : Tx unit) : Tx unit :=
  match n with
  | O => ret tt
  | S n' => body ;; for_loop n' body
  end.

(** Running [f] on the elements of [xs], one after the other. *)
Fixpoint for_each {A : Type} (xs : list A) (f : A -> Tx unit) : Tx unit :=
  match xs with
  | [] => ret tt
  | x :: xs' => f x ;; for_each xs' f
  end.

Definition convert (options : TOptions) : outcome FEC_VARIABLE_INPUT_TYPE :=
  match fec_k options with
  | fec_k_int _ => Returned none
  | fec_k_string tmp =>
      if String.eqb tmp "h264" then Returned h264
      else if String.eqb tmp "h265" then Returned h265
      else AssertionFailed
  end.

Definition sendPacket (abstractWbPacket : AbstractWBPacket) : Tx unit :=
  modify (fun t => set_count_bytes_data_injected
                     (count_bytes_data_injected t + payloadSize abstractWbPacket) t) ;;
  modify (fun t => set_mIeee80211Header
                     (writeParams (mIeee80211Header t) (radio_port (options t))
                                  (ieee80211_seq t)) t) ;;
  modify (fun t => set_ieee80211_seq ((ieee80211_seq t + 16) mod 2 ^ 16) t) ;;
  t <- get ;;
  emit (Injected (mRadiotapHeader t) (mIeee80211Header t) abstractWbPacket) ;;
  let injectionTime := pcap_injection_time (nInjectedPackets t) in
  when (injectionTime >? MAX_SANE_INJECTION_TIME)
       (modify (fun t => set_count_tx_injections_error_hint
                           (count_tx_injections_error_hint t + 1) t) ;;
        when (enableLogAlive (options t))
             (emit (Logged "Injecting PCAP packet took really long:"))) ;;
  modify (fun t => set_nInjectedPackets (nInjectedPackets t + 1) t) ;;
  when (enableLogAlive (options t))
       (modify (fun t => set_pcapInjectionTime (pcapInjectionTime t ++ [injectionTime]) t)).

Definition sendFecPrimaryOrSecondaryFragment (nonce : Z) (payload : list byte) : Tx unit :=
  t <- get ;;
  let wbDataHeader := WBDataHeader_new nonce (m_curr_seq_nr t) in
  modify (fun t => set_m_curr_seq_nr (m_curr_seq_nr t + 1) t) ;;
  let encryptedData := encryptPacket (mEncryptor t) nonce payload wbDataHeader in
  sendPacket (packet_of_header_and_buffer wbDataHeader encryptedData).

Definition sendSessionKey : Tx unit :=
  t <- get ;;
  sendPacket (packet_of_session_key (sessionKeyPacket t)) ;;
  modify (fun t => set_nInjectedSessionKeypackets (nInjectedSessionKeypackets t + 1) t).

(** [mEncryptor.makeNewSessionKey(sessionKeyPacket.sessionKeyNonce, sessionKeyPacket.sessionKeyData)] *)
Definition renew_session_key : Tx unit :=
  modify (fun t =>
            let '(enc, (n, d)) := makeNewSessionKey (mEncryptor t) in
            set_sessionKeyPacket
              {| sessionKeyNonce := n; sessionKeyData := d;
                 IS_FEC_ENABLED := IS_FEC_ENABLED (sessionKeyPacket t);
                 MAX_N_FRAGMENTS_PER_BLOCK := MAX_N_FRAGMENTS_PER_BLOCK (sessionKeyPacket t) |}
              (set_mEncryptor enc t)).

(** The size test at the head of [feedPacket]. *)
Definition incompatible_size (sz : Z) : bool :=
  (sz <=? 0) || (sz >? FEC_MAX_PAYLOAD_SIZE).

(** The [endBlock] argument of [mFecEncoder->encodePacket]: computed from
    the packet for variable k, absent for fixed k. *)
Definition end_block_hint (buf : list byte) (t : WBTransmitter) : option bool :=
  if IS_FEC_VARIABLE t then
    Some (match fecVariableInputType t with
          | h264 => h264_end_block buf
          | _ => h265_end_block buf
          end)
  else None.

(** The block of [feedPacket] that sends the session key in
    [SESSION_KEY_ANNOUNCE_DELTA] intervals. *)
Definition announce_session_key_if_due (cur_ts : Z) : Tx unit :=
  t <- get ;;
  when (cur_ts >=? session_key_announce_ts t)
       (sendSessionKey ;;
        modify (set_session_key_announce_ts (cur_ts + SESSION_KEY_ANNOUNCE_DELTA))).

(** The block of [feedPacket] that runs the encoder; the encoder calls
    [sendFecPrimaryOrSecondaryFragment] for every fragment it puts out. *)
Definition encode_and_send (buf : list byte) : Tx unit :=
  t <- get ;;
  if IS_FEC_DISABLED t then
    match mFecDisabledEncoder t with
    | None => null_dereference
    | Some enc =>
        let '(enc', fragments) := FECDisabledEncoder_encodePacket enc buf in
        modify (set_mFecDisabledEncoder (Some enc')) ;;
        for_each fragments (fun f => sendFecPrimaryOrSecondaryFragment (fst f) (snd f))
    end
  else
    match mFecEncoder t with
    | None => null_dereference
    | Some enc =>
        let endBlock := end_block_hint buf t in
        let '(enc1, fragments) := FECEncoder_encodePacket enc buf endBlock in
        modify (set_mFecEncoder (Some enc1)) ;;
        for_each fragments (fun f => sendFecPrimaryOrSecondaryFragment (fst f) (snd f)) ;;
        let '(overflow, enc2) := FECEncoder_resetOnOverflow enc1 in
        modify (set_mFecEncoder (Some enc2)) ;;
        when overflow (renew_session_key ;; sendSessionKey)
    end.

(** [feedPacket(buf, size)]; [cur_ts] is what [steady_clock::now()] returns. *)
Definition feedPacket (cur_ts : Z) (buf : list byte) : Tx unit :=
  if incompatible_size (size buf) then
    emit (Logged "Fed packet with incompatible size:")
  else
    modify (fun t => set_count_bytes_data_provided
                       (count_bytes_data_provided t + size buf) t) ;;
    announce_session_key_if_due cur_ts ;;
    encode_and_send buf ;;
    modify (fun t => set_nInputPackets (nInputPackets t + 1) t).

(** A run of the caller: one [feedPacket] per (clock reading, packet). *)
Definition feed_all (calls : list (Z * list byte)) : Tx unit :=
  for_each calls (fun c => feedPacket (fst c) (snd c)).

Definition update_mcs_index (mcs_index : Z) : Tx unit :=
  modify (fun t => set_radioTapHeaderParams
                     (set_mcs_index mcs_index (_radioTapHeaderParams t)) t) ;;
  modify (fun t => set_mRadiotapHeader (RadiotapHeader_new (_radioTapHeaderParams t)) t).

(** The object after the member initialisers of the constructor have run;
    the counters start at zero. *)
Definition initial (radioTapHeaderParams : UserSelectableParams) (options1 : TOptions)
           (encryptor0 : encryptor) (input_type : FEC_VARIABLE_INPUT_TYPE)
  : WBTransmitter :=
  {| options := options1;
     IS_FEC_DISABLED := match fec_k options1 with
                        | fec_k_int k => k =? 0
                        | fec_k_string _ => false
                        end;
     IS_FEC_VARIABLE := fec_k_index (fec_k options1) =? 1;
     fecVariableInputType := input_type;
     mEncryptor := encryptor0;
     mFecEncoder := None;
     mFecDisabledEncoder := None;
     sessionKeyPacket := {| sessionKeyNonce := []; sessionKeyData := [];
                            IS_FEC_ENABLED := false; MAX_N_FRAGMENTS_PER_BLOCK := 0 |};
     _radioTapHeaderParams := radioTapHeaderParams;
     mRadiotapHeader := RadiotapHeader_new radioTapHeaderParams;
     mIeee80211Header := Ieee80211Header_new;
     ieee80211_seq := 0;
     m_curr_seq_nr := 0;
     count_bytes_data_injected := 0;
     count_bytes_data_provided := 0;
     count_tx_injections_error_hint := 0;
     nInjectedPackets := 0;
     nInjectedSessionKeypackets := 0;
     nInputPackets := 0;
     session_key_announce_ts := 0;
     pcapInjectionTime := [] |}.

(** The body of the constructor; [now] is what [steady_clock::now()] returns
    after the start-up announcements.  The thread that prints [logAlive]
    output is left out: it only reads the counters. *)
Definition constructor_body (now : Z) : Tx unit :=
  renew_session_key ;;
  t <- get ;;
  (if IS_FEC_DISABLED t then
     modify (set_mFecDisabledEncoder (Some FECDisabledEncoder_new))
   else
     let kMax := match fec_k (options t) with
                 | fec_k_int k => k
                 | fec_k_string _ => MAX_N_P_FRAGMENTS_PER_BLOCK
                 end in
     modify (set_mFecEncoder (Some (FECEncoder_new kMax (fec_percentage (options t))))) ;;
     modify (fun t => set_sessionKeyPacket
                        {| sessionKeyNonce := sessionKeyNonce (sessionKeyPacket t);
                           sessionKeyData := sessionKeyData (sessionKeyPacket t);
                           IS_FEC_ENABLED := IS_FEC_ENABLED (sessionKeyPacket t);
                           MAX_N_FRAGMENTS_PER_BLOCK :=
                             FECEncoder_calculateN kMax (fec_percentage (options t)) |} t)) ;;
  emit (Logged "WB-TX assigned ID {} assigned WLAN {}") ;;
  modify (fun t => set_sessionKeyPacket
                     {| sessionKeyNonce := sessionKeyNonce (sessionKeyPacket t);
                        sessionKeyData := sessionKeyData (sessionKeyPacket t);
                        IS_FEC_ENABLED := negb (IS_FEC_DISABLED t);
                        MAX_N_FRAGMENTS_PER_BLOCK :=
                          MAX_N_FRAGMENTS_PER_BLOCK (sessionKeyPacket t) |} t) ;;
  emit (Logged "Sending Session key on startup") ;;
  for_loop 5 (sendSessionKey ;; emit (SleptFor 10)) ;;
  modify (set_session_key_announce_ts (now + SESSION_KEY_ANNOUNCE_DELTA)).

(** [WBTransmitter::WBTransmitter(radioTapHeaderParams, options1, console)]:
    the constructed object and what happened while it was built.  Of the
    member initialisers, [mEncryptor(options.keypair)] and
    [fecVariableInputType(convert(options))] can end the construction here.
    [mPcapTransmitter(options.wlan)] is constructed by code outside the
    sources, as are the encoders and [makeNewSessionKey] in the body: they
    are taken to return, so that this definition tells when the constructor
    cannot return, and what it has done when all of them returned. *)
Definition WBTransmitter_new (radioTapHeaderParams : UserSelectableParams)
           (options1 : TOptions) (now : Z) : outcome (WBTransmitter * list event) :=
  match Encryptor_new (keypair options1) with
  | Returned encryptor0 =>
      match convert options1 with
      | Returned input_type =>
          match constructor_body now
                  (initial radioTapHeaderParams options1 encryptor0 input_type) with
          | Returned (_, t, ev) => Returned (t, ev)
          | Threw ex => Threw ex
          | AssertionFailed => AssertionFailed
          | UndefinedBehaviour => UndefinedBehaviour
          end
      | Threw ex => Threw ex
      | AssertionFailed => AssertionFailed
      | UndefinedBehaviour => UndefinedBehaviour
      end
  | Threw ex => Threw ex
  | AssertionFailed => AssertionFailed
  | UndefinedBehaviour => UndefinedBehaviour
  end.

(** The frames that went out, among the events. *)
Definition injected_packets (ev : list event) : list AbstractWBPacket :=
  flat_map (fun e => match e with Injected _ _ p => [p] | _ => [] end) ev.

(** What is seen on the air: frames and the pauses between them. *)
Inductive on_air : Type :=
| Frame (packet : AbstractWBPacket)
| Pause (milliseconds : Z).

Definition timeline (ev : list event) : list on_air :=
  flat_map (fun e => match e with
                     | Injected _ _ p => [Frame p]
                     | SleptFor ms => [Pause ms]
                     | Logged _ => []
                     end) ev.

(** The frame that announces the session key of [t]. *)
Definition session_key_frame (t : WBTransmitter) : on_air :=
  Frame (packet_of_session_key (sessionKeyPacket t)).

(** A frame that carries a data fragment. *)
Definition is_data_frame (a : on_air) : Prop :=
  exists wbDataHeader encryptedData,
    a = Frame (packet_of_header_and_buffer wbDataHeader encryptedData).

(** The encoder that [feedPacket] dereferences is there. *)
Definition encoder_ready (t : WBTransmitter) : bool :=
  if IS_FEC_DISABLED t then
    match mFecDisabledEncoder t with Some _ => true | None => false end
  else
    match mFecEncoder t with Some _ => true | None => false end.

(** Groups of fields, to say what a method leaves alone. *)
Definition settings (t : WBTransmitter) :=
  (options t, IS_FEC_DISABLED t, IS_FEC_VARIABLE t, fecVariableInputType t,
   nInputPackets t, count_bytes_data_provided t).

Definition encoders (t : WBTransmitter) :=
  (mFecEncoder t, mFecDisabledEncoder t).

Definition untouched_by_sending (t : WBTransmitter) :=
  (settings t, encoders t, session_key_announce_ts t, mEncryptor t, sessionKeyPacket t).

(** [resetOnOverflow] reports, after this packet, that the nonces ran out. *)
Definition nonce_overflow (buf : list byte) (t : WBTransmitter) : bool :=
  if IS_FEC_DISABLED t then false
  else
    match mFecEncoder t with
    | Some enc =>
        fst (FECEncoder_resetOnOverflow
               (fst (FECEncoder_encodePacket enc buf (end_block_hint buf t))))
    | None => false
    end.

(** [m], started in [t], returns, and [Q] holds of the result, the final
    state and the events. *)
Definition returns {A : Type} (m : Tx A) (t : WBTransmitter)
           (Q : A -> WBTransmitter -> list event -> Prop) : Prop :=
  exists a t' ev, m t = Returned (a, t', ev) /\ Q a t' ev.

(** Whenever [m] returns, [R] holds of the state before, the state after
    and the events. *)
Definition respects {A : Type}
           (R : WBTransmitter -> WBTransmitter -> list event -> Prop)
           (m : Tx A) : Prop :=
  forall t a t' ev, m t = Returned (a, t', ev) -> R t t' ev.

(** The members that sending a frame or renewing the session key reads or
    writes.  The others are the book-keeping of [feedPacket]: the encoders,
    [m_curr_seq_nr], [session_key_announce_ts], [nInputPackets] and
    [count_bytes_data_provided]. *)
Definition sending_state (t : WBTransmitter) :=
  (options t, mEncryptor t, sessionKeyPacket t,
   _radioTapHeaderParams t, mRadiotapHeader t, mIeee80211Header t, ieee80211_seq t,
   (count_bytes_data_injected t, count_tx_injections_error_hint t,
    nInjectedPackets t, nInjectedSessionKeypackets t, pcapInjectionTime t)).

(** The headers of the frames that went out, among the events. *)
Definition injected_headers (ev : list event) : list (RadiotapHeader * Ieee80211Header) :=
  flat_map (fun e => match e with Injected rt hdr _ => [(rt, hdr)] | _ => [] end) ev.

(** [abstractWbPacket.payloadSize], summed over frames. *)
Definition payload_bytes (packets : list AbstractWBPacket) : Z :=
  fold_right (fun p n => payloadSize p + n) 0 packets.

(** The counters that [sendPacket] and [sendSessionKey] keep follow the
    frames that went out. *)
Definition accounted (t t' : WBTransmitter) (ev : list event) : Prop :=
  nInjectedPackets t' = nInjectedPackets t + Z.of_nat (length (injected_packets ev))
  /\ count_bytes_data_injected t'
     = count_bytes_data_injected t + payload_bytes (injected_packets ev)
  /\ 0 <= nInjectedSessionKeypackets t' - nInjectedSessionKeypackets t
       <= Z.of_nat (length (injected_packets ev)).

(** The 802.11 headers of [n] frames sent one after the other: each is
    written, into the header of the frame before, with the radio port and
    the next sequence control value. *)
Fixpoint headers_from (hdr : Ieee80211Header) (port seq : Z) (n : nat)
  : list Ieee80211Header :=
  match n with
  | O => []
  | S n' =>
      let hdr' := writeParams hdr port seq in
      hdr' :: headers_from hdr' port ((seq + 16) mod 2 ^ 16) n'
  end.

(** All frames went out under the radiotap header of [t] and with the
    radio port of its options, the sequence control value going up by 16
    from frame to frame. *)
Definition framed (t t' : WBTransmitter) (ev : list event) : Prop :=
  let n := length (injected_headers ev) in
  options t' = options t
  /\ _radioTapHeaderParams t' = _radioTapHeaderParams t
  /\ mRadiotapHeader t' = mRadiotapHeader t
  /\ map fst (injected_headers ev) = repeat (mRadiotapHeader t) n
  /\ map snd (injected_headers ev)
     = headers_from (mIeee80211Header t) (radio_port (options t)) (ieee80211_seq t) n
  /\ mIeee80211Header t' = last (map snd (injected_headers ev)) (mIeee80211Header t)
  /\ ieee80211_seq t' = Nat.iter n (fun seq => (seq + 16) mod 2 ^ 16) (ieee80211_seq t).

(** The nonce and the sealed key that the session key packet announces. *)
Definition announced_key (t : WBTransmitter) : list byte * list byte :=
  (sessionKeyNonce (sessionKeyPacket t), sessionKeyData (sessionKeyPacket t)).

(** The session key packet announces the key the encryptor holds: both
    come out of one call of [makeNewSessionKey]. *)
Definition key_in_sync (t : WBTransmitter) : Prop :=
  exists encryptor0, makeNewSessionKey encryptor0 = (mEncryptor t, announced_key t).

(** The packets, among those of a run of calls, that pass the size check. *)
Definition accepted (calls : list (Z * list byte)) : list (list byte) :=
  filter (fun buf => negb (incompatible_size (size buf))) (map snd calls).

Definition total_size (packets : list (list byte)) : Z :=
  fold_right (fun buf n => size buf + n) 0 packets.

(** The frames that [sendFecPrimaryOrSecondaryFragment] makes of the
    fragments [(nonce, payload)] an encoder puts out, the first of them
    under the sequence number [seq_nr]. *)
Fixpoint data_frames (enc : encryptor) (seq_nr : Z) (fragments : list (Z * list byte))
  : list AbstractWBPacket :=
  match fragments with
  | [] => []
  | (nonce, payload) :: rest =>
      let wbDataHeader := WBDataHeader_new nonce seq_nr in
      packet_of_header_and_buffer wbDataHeader
                                  (encryptPacket enc nonce payload wbDataHeader)
        :: data_frames enc (seq_nr + 1) rest
  end.

(** The fragments that the encoder [feedPacket] runs puts out for [buf]. *)
Definition fragments_of (buf : list byte) (t : WBTransmitter) : list (Z * list byte) :=
  if IS_FEC_DISABLED t then
    match mFecDisabledEncoder t with
    | Some enc => snd (FECDisabledEncoder_encodePacket enc buf)
    | None => []
    end
  else
    match mFecEncoder t with
    | Some enc => snd (FECEncoder_encodePacket enc buf (end_block_hint buf t))
    | None => []
    end.

(** A step that leaves a session key packet in sync with the encryptor so. *)
Definition key_stays_in_sync (t t' : WBTransmitter) (ev : list event) : Prop :=
  key_in_sync t -> key_in_sync t'.

(** [kMax] of the constructor. *)
Definition kMax_of (options1 : TOptions) : Z :=
  match fec_k options1 with
  | fec_k_int k => k
  | fec_k_string _ => MAX_N_P_FRAGMENTS_PER_BLOCK
  end.

(** The configuration that the constructor derives from the options: the
    two flags, the input type, and the one encoder that is made, with the
    fragment count put into the session key packet when FEC is on. *)
Definition configured (options1 : TOptions) (input_type : FEC_VARIABLE_INPUT_TYPE)
           (t : WBTransmitter) : Prop :=
  options t = options1
  /\ fecVariableInputType t = input_type
  /\ IS_FEC_DISABLED t = match fec_k options1 with
                         | fec_k_int k => k =? 0
                         | fec_k_string _ => false
                         end
  /\ IS_FEC_VARIABLE t = match fec_k options1 with
                         | fec_k_int _ => false
                         | fec_k_string _ => true
                         end
  /\ (if IS_FEC_DISABLED t then
        mFecDisabledEncoder t = Some FECDisabledEncoder_new /\ mFecEncoder t = None
      else
        mFecEncoder t
        = Some (FECEncoder_new (kMax_of options1) (fec_percentage options1))
        /\ mFecDisabledEncoder t = None
        /\ MAX_N_FRAGMENTS_PER_BLOCK (sessionKeyPacket t)
           = FECEncoder_calculateN (kMax_of options1) (fec_percentage options1)).

End Transmitter.

Notation "x <- m ;; k" := (bind m (fun x => k))
  (at level 61, m at next level, right associativity) : tx_scope.
Notation "m ;; k" := (bind m (fun _ => k))
  (at level 61, right associativity) : tx_scope.

End WBTransmitter.

(* ------------------------------------------------------------------ *)
(** ** Concrete inputs used to exercise the statements below *)

Module Examples.

Import Libsodium Encryption.

Definition header_7 : WBDataHeader :=
  {| radio_port := 7; nonce := 0x0102030405060708; sequence_number := 16 |}.

Definition payload_123 : list byte := [1; 2; 3].

Definition forwarders_1 : list SocketHelper.UDPForwarder :=
  [ {| SocketHelper.client_addr := "192.168.0.2"; SocketHelper.client_udp_port := 5600 |} ].

(** Two regions of 32 bytes. *)
Definition region_dst : list byte := map Z.of_nat (seq 0 32).
Definition region_src : list byte := map (fun i => (Z.of_nat i * 37 + 11) mod 256) (seq 0 32).

(** A memory with four objects: [region_dst] at 0x1000, [region_src] at
    0x2000, 48 bytes at 0x3000 and 20 bytes at 0x4000. *)
Definition object_3 : list byte := map (fun i => (Z.of_nat i * 7 + 1) mod 256) (seq 0 48).
Definition object_4 : list byte := map (fun i => (Z.of_nat i * 3 + 5) mod 256) (seq 0 20).

Definition heap : GF256.memory :=
  GF256.write_bytes
    (GF256.write_bytes
       (GF256.write_bytes
          (GF256.write_bytes (fun _ => None) 0x1000 region_dst)
          0x2000 region_src)
       0x3000 object_3)
    0x4000 object_4.

(** A transmit side and a receive side on the default key pair, with the
    model of libsodium. *)
Definition no_files : filesystem := fun _ => None.

Definition session_key_A : list byte := map Z.of_nat (seq 1 32).
Definition box_nonce_A : list byte := map Z.of_nat (seq 100 24).

Definition fresh_encryptor : outcome Encryptor :=
  Encryptor_ctor (S := SodiumModel.sodium_model) no_files None.

Definition encryptor_A : Encryptor :=
  match fresh_encryptor with
  | Returned e =>
      match makeSessionKey (S := SodiumModel.sodium_model) e session_key_A box_nonce_A with
      | Returned e' => e'
      | _ => e
      end
  | _ => {| tx_secretkey := []; rx_publickey := []; enc_session_key := [];
            sessionKeyPacket := empty_session_key_packet |}
  end.

(** The announcement of [session_key_A], as it travels. *)
Definition announcement_A : list byte :=
  WBSessionKeyPacket_bytes (sessionKeyPacket encryptor_A).

Definition fresh_decryptor : Decryptor :=
  match Decryptor_ctor (S := SodiumModel.sodium_model) no_files None with
  | Returned d => d
  | _ => {| rx_secretkey := []; tx_publickey := []; session_key := [] |}
  end.

(** The receive side once it has seen [announcement_A]. *)
Definition decryptor_A : Decryptor :=
  snd (onNewPacketWfbKey (S := SodiumModel.sodium_model) fresh_decryptor announcement_A).

(** Stand-ins for what the transmitter takes from other files: a FEC
    encoder that forwards each packet as one fragment under the next nonce,
    the encryptor of Encryption.hpp over the model of libsodium, frames as
    pairs of buffers, and injections that take one tick. *)
Definition loopback : WBTransmitter.Collaborators := {|
  WBTransmitter.FEC_MAX_PAYLOAD_SIZE := WBTxRx.MAX_PACKET_PAYLOAD_SIZE;
  WBTransmitter.SESSION_KEY_ANNOUNCE_DELTA := 1000;
  WBTransmitter.MAX_SANE_INJECTION_TIME := 5;
  WBTransmitter.MAX_N_P_FRAGMENTS_PER_BLOCK := 128;
  WBTransmitter.encryptor := Encryptor;
  WBTransmitter.Encryptor_new :=
    Encryptor_ctor (S := SodiumModel.sodium_model) no_files;
  WBTransmitter.makeNewSessionKey := fun e =>
    match makeSessionKey (S := SodiumModel.sodium_model) e session_key_A box_nonce_A with
    | Returned e' =>
        (e', (session_key_nonce (sessionKeyPacket e'),
              session_key_data (sessionKeyPacket e')))
    | _ => (e, ([], []))
    end;
  WBTransmitter.WBDataHeader := WBDataHeader;
  WBTransmitter.WBDataHeader_new := fun n s =>
    {| radio_port := 0; nonce := n; sequence_number := s |};
  WBTransmitter.encryptPacket := fun e _ payload hdr =>
    run_encrypt (S := SodiumModel.sodium_model) (encrypt_call e hdr payload);
  WBTransmitter.fec_encoder := Z;
  WBTransmitter.FECEncoder_new := fun _ _ => 0;
  WBTransmitter.FECEncoder_calculateN := fun k p => k + (k * p + 99) / 100;
  WBTransmitter.FECEncoder_encodePacket := fun n buf _ => (n + 1, [(n, buf)]);
  WBTransmitter.FECEncoder_resetOnOverflow := fun n => (false, n);
  WBTransmitter.fec_disabled_encoder := Z;
  WBTransmitter.FECDisabledEncoder_new := 0;
  WBTransmitter.FECDisabledEncoder_encodePacket := fun n buf => (n + 1, [(n, buf)]);
  WBTransmitter.h264_end_block := fun _ => true;
  WBTransmitter.h265_end_block := fun _ => true;
  WBTransmitter.UserSelectableParams := Z;
  WBTransmitter.set_mcs_index := fun m _ => m;
  WBTransmitter.RadiotapHeader := Z;
  WBTransmitter.RadiotapHeader_new := fun m => m;
  WBTransmitter.Ieee80211Header := (Z * Z)%type;
  WBTransmitter.Ieee80211Header_new := (0, 0);
  WBTransmitter.writeParams := fun _ port seq => (port, seq);
  WBTransmitter.AbstractWBPacket := (list byte * list byte)%type;
  WBTransmitter.packet_of_session_key := fun p =>
    ([], WBTransmitter.sessionKeyNonce p ++ WBTransmitter.sessionKeyData p
           ++ [Z.b2z (WBTransmitter.IS_FEC_ENABLED p);
               WBTransmitter.MAX_N_FRAGMENTS_PER_BLOCK p mod 256]);
  WBTransmitter.packet_of_header_and_buffer := fun h b => (WBDataHeader_bytes h, b);
  WBTransmitter.payloadSize := fun p => size (snd p);
  WBTransmitter.pcap_injection_time := fun _ => 1
|}.

Definition options_fec_8_50 : WBTransmitter.TOptions :=
  {| WBTransmitter.radio_port := 7;
     WBTransmitter.fec_k := WBTransmitter.fec_k_int 8;
     WBTransmitter.fec_percentage := 50;
     WBTransmitter.keypair := None;
     WBTransmitter.wlan := "wlan0";
     WBTransmitter.enableLogAlive := false |}.

(** A transmitter constructed at clock reading 100. *)
Definition transmitter_A : WBTransmitter.WBTransmitter (C := loopback) :=
  match WBTransmitter.WBTransmitter_new (C := loopback) 3 options_fec_8_50 100 with
  | Returned (t, _) => t
  | _ => WBTransmitter.initial (C := loopback) 3 options_fec_8_50 encryptor_A
                               WBTransmitter.none
  end.

End Examples.

(* ================================================================== *)
(** * Part II: properties                                              *)
(* ================================================================== *)

(** ** Buffers *)

Lemma length_le_bytes (n : nat) (v : Z) : length (le_bytes n v) = n.
Proof.
  revert v; induction n as [|n IH]; intros v; simpl; [reflexivity|].
  now rewrite IH.
Qed.

Lemma le_bytes_le_value (bs : list byte) :
  Forall is_byte bs -> le_bytes (length bs) (le_value bs) = bs.
Proof.
  induction 1 as [|b bs Hb _ IH]; [reflexivity|].
  cbn [le_value length le_bytes]. unfold is_byte in Hb.
  replace (b + 256 * le_value bs) with (b + le_value bs * 256) by lia.
  rewrite Z.mod_add, Z.div_add by lia.
  rewrite Z.mod_small, Z.div_small by lia.
  now rewrite Z.add_0_l, IH.
Qed.

Lemma firstn_length_app {A : Type} (a b : list A) : firstn (length a) (a ++ b) = a.
Proof. induction a as [|x a IH]; simpl; [reflexivity | now rewrite IH]. Qed.

Lemma skipn_length_app {A : Type} (a b : list A) : skipn (length a) (a ++ b) = b.
Proof. induction a as [|x a IH]; simpl; [reflexivity | exact IH]. Qed.

Lemma length_map2 {A B C : Type} (f : A -> B -> C) (xs : list A) (ys : list B) :
  length (map2 f xs ys) = Nat.min (length xs) (length ys).
Proof.
  revert ys; induction xs as [|x xs IH]; intros [|y ys]; simpl; auto.
Qed.

Lemma map2_app {A B C : Type} (f : A -> B -> C) (xs1 xs2 : list A) (ys1 ys2 : list B) :
  length xs1 = length ys1 ->
  map2 f (xs1 ++ xs2) (ys1 ++ ys2) = map2 f xs1 ys1 ++ map2 f xs2 ys2.
Proof.
  revert ys1; induction xs1 as [|x xs1 IH]; intros [|y ys1] H; simpl in *;
    try discriminate; [reflexivity|].
  f_equal. apply IH. now injection H.
Qed.

Lemma map2_ext_r {A C : Type} (P : A -> Prop) (f g : A -> A -> C) (xs ys : list A) :
  (forall x y, P y -> f x y = g x y) ->
  Forall P ys -> map2 f xs ys = map2 g xs ys.
Proof.
  intros Hfg Hy; revert xs; induction Hy as [|y ys Hy _ IH]; intros [|x xs];
    try reflexivity.
  simpl. f_equal; [now apply Hfg | apply IH].
Qed.

Lemma map2_repeat_r {A B C : Type} (f : A -> B -> C) (xs : list A) (v : B) (n : nat) :
  (length xs <= n)%nat -> map2 f xs (repeat v n) = map (fun x => f x v) xs.
Proof.
  revert n; induction xs as [|x xs IH]; intros [|n] H; simpl in *;
    try reflexivity; try lia.
  f_equal. apply IH. lia.
Qed.

Lemma map2_map_same {A B C D : Type} (f : B -> C -> D) (g : A -> B) (h : A -> C)
      (xs : list A) :
  map2 f (map g xs) (map h xs) = map (fun x => f (g x) (h x)) xs.
Proof. induction xs as [|x xs IH]; simpl; [reflexivity | now rewrite IH]. Qed.

Lemma map2_map_l {A B C D : Type} (f : B -> C -> D) (g : A -> B)
      (xs : list A) (ys : list C) :
  map2 f (map g xs) ys = map2 (fun x y => f (g x) y) xs ys.
Proof.
  revert ys; induction xs as [|x xs IH]; intros [|y ys]; simpl;
    try reflexivity. now rewrite IH.
Qed.

Lemma map2_flip {A B C : Type} (f : A -> B -> C) (xs : list A) (ys : list B) :
  map2 f xs ys = map2 (fun y x => f x y) ys xs.
Proof.
  revert ys; induction xs as [|x xs IH]; intros [|y ys]; simpl;
    try reflexivity. now rewrite IH.
Qed.

Lemma Forall_firstn {A : Type} (P : A -> Prop) (n : nat) (l : list A) :
  Forall P l -> Forall P (firstn n l).
Proof.
  intros H; revert n; induction H as [|x l Hx _ IH]; intros [|n]; simpl;
    constructor; auto.
Qed.

Lemma Forall_skipn {A : Type} (P : A -> Prop) (n : nat) (l : list A) :
  Forall P l -> Forall P (skipn n l).
Proof.
  intros H; revert n; induction H as [|x l Hx Hl IH]; intros [|n]; simpl;
    auto.
Qed.

Lemma map2_xor_cancel (xs ks : list byte) :
  (length xs <= length ks)%nat ->
  map2 Z.lxor (map2 Z.lxor xs ks) ks = xs.
Proof.
  revert ks; induction xs as [|x xs IH]; intros [|k ks] H; simpl in *;
    try reflexivity; try lia.
  f_equal.
  - now rewrite Z.lxor_assoc, Z.lxor_nilpotent, Z.lxor_0_r.
  - apply IH. lia.
Qed.

(* ------------------------------------------------------------------ *)
(** ** WBTxRx.h *)

Module WBTxRxFacts.

Import WBTxRx.

(** [static_assert(MAX_PACKET_PAYLOAD_SIZE==1457)]. *)
Example static_assert_MAX_PACKET_PAYLOAD_SIZE : MAX_PACKET_PAYLOAD_SIZE = 1457.
Proof. reflexivity. Qed.

Lemma bitfield_domain_check :
  forallb (fun e =>
    forallb (fun s =>
      let b := radio_port_to_uint8_t LsbFirst (mkRadioPort e s) in
      (b =? Z.lor e (Z.shiftl s 1)) && (Z.land b 1 =? e) && (Z.shiftr b 1 =? s)
      && (radio_port_to_uint8_t MsbFirst (mkRadioPort e s) =? Z.lor (Z.shiftl e 7) s))
    (map Z.of_nat (seq 0 128)))
  [0; 1] = true.
Proof. vm_compute. reflexivity. Qed.

(** C5, as amended.  The byte depends on the bit-field allocation order of
    the compiler.  With allocation from the least significant bit (the
    little-endian ABIs this code is built for) [encrypted] is bit 0 and
    [multiplex_index] bits 1 to 7: the byte is [e | (s << 1)].  Only with
    allocation from the most significant bit is it [(e << 7) | s]. *)
Theorem radio_port_byte_layout (e s : Z) :
  e = 0 \/ e = 1 ->
  0 <= s <= 127 ->
  let b := radio_port_to_uint8_t LsbFirst (mkRadioPort e s) in
  b = Z.lor e (Z.shiftl s 1)
  /\ Z.land b 1 = e
  /\ Z.shiftr b 1 = s
  /\ radio_port_to_uint8_t MsbFirst (mkRadioPort e s) = Z.lor (Z.shiftl e 7) s.
Proof.
  intros He Hs.
  pose proof bitfield_domain_check as H.
  rewrite forallb_forall in H.
  assert (Hin : In e [0; 1]) by (simpl; lia).
  specialize (H e Hin). rewrite forallb_forall in H.
  assert (Hs' : In s (map Z.of_nat (seq 0 128))).
  { apply in_map_iff. exists (Z.to_nat s). split; [lia|]. apply in_seq. lia. }
  specialize (H s Hs'). cbv zeta in H.
  repeat rewrite andb_true_iff in H.
  destruct H as [[[H1 H2] H3] H4].
  cbv zeta. repeat split; now apply Z.eqb_eq.
Qed.

Lemma radio_port_byte_layout_witness :
  (1 = 0 \/ 1 = 1) /\ 0 <= 5 <= 127
  /\ radio_port_to_uint8_t LsbFirst (mkRadioPort 1 5) = Z.lor 1 (Z.shiftl 5 1).
Proof.
  split; [right; reflexivity|]. split; [lia|].
  apply (radio_port_byte_layout 1 5); [right; reflexivity | lia].
Defined.

(** C5, as stated, fails: an encrypted packet on stream 0 is sent with the
    radio port byte 1, not [(1 << 7) | 0 = 128]. *)
Lemma radio_port_byte_not_msb :
  radio_port_to_uint8_t LsbFirst (mkRadioPort 1 0) = 1
  /\ radio_port_to_uint8_t LsbFirst (mkRadioPort 1 0) <> Z.lor (Z.shiftl 1 7) 0.
Proof. split; [reflexivity | discriminate]. Qed.

(** *** The radio port byte identifies the stream *)

Lemma radio_port_read_back_check (o : bitfield_order) :
  forallb (fun e =>
    forallb (fun s =>
      let b := radio_port_to_uint8_t o (mkRadioPort e s) in
      is_byteb b
      && (encrypted (RadioPort_of_byte o b) =? e)
      && (multiplex_index (RadioPort_of_byte o b) =? s))
    (map Z.of_nat (seq 0 128)))
  [0; 1] = true.
Proof. destruct o; vm_compute; reflexivity. Qed.

Lemma radio_port_read_back (o : bitfield_order) (e s : Z) :
  0 <= e <= 1 -> 0 <= s <= 127 ->
  let b := radio_port_to_uint8_t o (mkRadioPort e s) in
  0 <= b <= 255
  /\ encrypted (RadioPort_of_byte o b) = e
  /\ multiplex_index (RadioPort_of_byte o b) = s.
Proof.
  intros He Hs.
  pose proof (radio_port_read_back_check o) as H.
  rewrite forallb_forall in H.
  assert (Hin : In e [0; 1]) by (simpl; lia).
  specialize (H e Hin). rewrite forallb_forall in H.
  assert (Hs' : In s (map Z.of_nat (seq 0 128))).
  { apply in_map_iff. exists (Z.to_nat s). split; [lia|]. apply in_seq. lia. }
  specialize (H s Hs'). cbv zeta in H.
  repeat rewrite andb_true_iff in H.
  destruct H as [[H1 H2] H3].
  unfold is_byteb in H1. apply andb_true_iff in H1.
  cbv zeta. repeat split; try (now apply Z.eqb_eq); lia.
Qed.

Lemma radio_port_written_back_check (o : bitfield_order) :
  forallb (fun b =>
             let p := RadioPort_of_byte o b in
             (radio_port_to_uint8_t o (mkRadioPort (encrypted p) (multiplex_index p)) =? b)
             && (0 <=? encrypted p) && (encrypted p <=? 1)
             && (0 <=? multiplex_index p) && (multiplex_index p <=? 127))
          (map Z.of_nat (seq 0 256)) = true.
Proof. destruct o; vm_compute; reflexivity. Qed.

(** With either allocation order, [radio_port_to_uint8_t] is one-to-one
    from the pairs of an encryption flag and a stream index in
    [STREAM_INDEX_MIN .. STREAM_INDEX_MAX] onto the byte values: the byte
    tells the receiver both, and no byte value is left over. *)
Theorem radio_port_byte_identifies_the_stream (o : bitfield_order) :
  (forall e s e' s',
      0 <= e <= 1 -> STREAM_INDEX_MIN <= s <= STREAM_INDEX_MAX ->
      0 <= e' <= 1 -> STREAM_INDEX_MIN <= s' <= STREAM_INDEX_MAX ->
      0 <= radio_port_to_uint8_t o (mkRadioPort e s) <= 255
      /\ (radio_port_to_uint8_t o (mkRadioPort e s)
          = radio_port_to_uint8_t o (mkRadioPort e' s') ->
          e = e' /\ s = s'))
  /\ (forall b,
         0 <= b <= 255 ->
         exists e s,
           0 <= e <= 1 /\ STREAM_INDEX_MIN <= s <= STREAM_INDEX_MAX
           /\ radio_port_to_uint8_t o (mkRadioPort e s) = b).
Proof.
  unfold STREAM_INDEX_MIN, STREAM_INDEX_MAX. split.
  - intros e s e' s' He Hs He' Hs'.
    destruct (radio_port_read_back o e s He Hs) as (Hb & He1 & Hs1).
    destruct (radio_port_read_back o e' s' He' Hs') as (_ & He2 & Hs2).
    split; [exact Hb|]. intros Heq. rewrite Heq in He1, Hs1. split; congruence.
  - intros b Hb.
    pose proof (radio_port_written_back_check o) as H.
    rewrite forallb_forall in H.
    assert (Hin : In b (map Z.of_nat (seq 0 256))).
    { apply in_map_iff. exists (Z.to_nat b). split; [lia|]. apply in_seq. lia. }
    specialize (H b Hin). cbv zeta in H.
    repeat rewrite andb_true_iff in H.
    destruct H as [[[[H1 H2] H3] H4] H5].
    exists (encrypted (RadioPort_of_byte o b)), (multiplex_index (RadioPort_of_byte o b)).
    apply Z.eqb_eq in H1. repeat split; try assumption; lia.
Qed.

Lemma radio_port_byte_identifies_the_stream_witness :
  0 <= 128 <= 255
  /\ exists e s,
       0 <= e <= 1 /\ STREAM_INDEX_MIN <= s <= STREAM_INDEX_MAX
       /\ radio_port_to_uint8_t LsbFirst (mkRadioPort e s) = 128.
Proof.
  split; [lia|].
  apply (proj2 (radio_port_byte_identifies_the_stream LsbFirst) 128). lia.
Defined.

End WBTxRxFacts.

(* ------------------------------------------------------------------ *)
(** ** SocketHelper.hpp *)

Module SocketHelperFacts.

Import SocketHelper.

Lemma find_if_le_length {A : Type} (p : A -> bool) (l : list A) :
  (find_if p l <= length l)%nat.
Proof. induction l as [|x l IH]; simpl; [lia|]. destruct (p x); lia. Qed.

Lemma find_if_absent {A : Type} (p : A -> bool) (l : list A) :
  find_if p l = length l <-> existsb p l = false.
Proof.
  induction l as [|x l IH]; simpl; [tauto|].
  destruct (p x); simpl.
  - split; discriminate.
  - rewrite <- IH. split; [now intros [= ->] | now intros ->].
Qed.

Lemma same_target_spec (addr : string) (port : Z) (f : UDPForwarder) :
  same_target addr port f = true <-> client_addr f = addr /\ client_udp_port f = port.
Proof.
  unfold same_target. rewrite andb_true_iff, String.eqb_eq, Z.eqb_eq. tauto.
Qed.

(** C10, on the code.  With no forwarder for the address and port,
    [find_if] returns [end()] and [erase(end())] is undefined behaviour: the
    call is not the no-op its comment promises. *)
Theorem removeForwarder_absent_is_undefined
        (udpForwarders : list UDPForwarder) (addr : string) (port : Z) :
  (forall f, In f udpForwarders ->
             ~ (client_addr f = addr /\ client_udp_port f = port)) ->
  removeForwarder udpForwarders addr port = UndefinedBehaviour.
Proof.
  intros Habsent. unfold removeForwarder, list_erase.
  assert (Hnone : existsb (same_target addr port) udpForwarders = false).
  { apply not_true_is_false. intros Hex. apply existsb_exists in Hex.
    destruct Hex as [f [Hin Hf]]. apply (Habsent f Hin). now apply same_target_spec. }
  apply find_if_absent in Hnone. rewrite Hnone.
  now rewrite Nat.ltb_irrefl.
Qed.

Lemma removeForwarder_absent_is_undefined_witness :
  removeForwarder Examples.forwarders_1 "10.0.0.1" 5600 = UndefinedBehaviour.
Proof.
  apply removeForwarder_absent_is_undefined.
  intros f [<- | []] [Haddr _]. discriminate Haddr.
Defined.

(** When a forwarder for the address and port is registered, the first such
    forwarder is removed. *)
Lemma removeForwarder_present
      (udpForwarders : list UDPForwarder) (addr : string) (port : Z) :
  existsb (same_target addr port) udpForwarders = true ->
  removeForwarder udpForwarders addr port
  = Returned (remove_at (find_if (same_target addr port) udpForwarders) udpForwarders).
Proof.
  intros Hex. unfold removeForwarder, list_erase.
  assert (Hlt : (find_if (same_target addr port) udpForwarders
                 < length udpForwarders)%nat).
  { pose proof (find_if_le_length (same_target addr port) udpForwarders) as Hle.
    destruct (Nat.eq_dec (find_if (same_target addr port) udpForwarders)
                         (length udpForwarders)) as [Heq|Hne]; [|lia].
    apply find_if_absent in Heq. congruence. }
  apply Nat.ltb_lt in Hlt. now rewrite Hlt.
Qed.

(** *** Registering and removing targets *)

Lemma same_target_iff (addr : string) (port : Z) (f : UDPForwarder) :
  same_target addr port f = true <-> target f = (addr, port).
Proof.
  rewrite same_target_spec. unfold target. split.
  - now intros [-> ->].
  - intros [= -> ->]. now split.
Qed.

Lemma registered_iff (addr : string) (port : Z) (l : list UDPForwarder) :
  existsb (same_target addr port) l = true <-> In (addr, port) (map target l).
Proof.
  rewrite existsb_exists, in_map_iff. split.
  - intros (f & Hin & Hf). exists f. split; [now apply same_target_iff | exact Hin].
  - intros (f & Hf & Hin). exists f. split; [exact Hin | now apply same_target_iff].
Qed.

Lemma not_registered_iff (addr : string) (port : Z) (l : list UDPForwarder) :
  existsb (same_target addr port) l = false <-> ~ In (addr, port) (map target l).
Proof.
  rewrite <- registered_iff. destruct (existsb _ l); split; congruence.
Qed.

(** The three ways [addForwarder] can go. *)
Lemma addForwarder_cases (sockfd : Z) (l : list UDPForwarder) (addr : string) (port : Z) :
  (In (addr, port) (map target l)
   /\ addForwarder sockfd l addr port
      = (Returned l, [Print "UDPMultiForwarder: already forwarding to:"]))
  \/ (~ In (addr, port) (map target l) /\ sockfd < 0
      /\ fst (addForwarder sockfd l addr port)
         = Threw (runtime_error "Error opening socket:"))
  \/ (~ In (addr, port) (map target l) /\ 0 <= sockfd
      /\ fst (addForwarder sockfd l addr port)
         = Returned (l ++ [{| client_addr := addr; client_udp_port := port |}])).
Proof.
  unfold addForwarder, UDPForwarder_new.
  destruct (existsb (same_target addr port) l) eqn:Hex.
  - left. split; [now apply registered_iff | reflexivity].
  - right. apply not_registered_iff in Hex.
    destruct (Z.ltb_spec sockfd 0) as [Hneg|Hpos]; [left | right]; repeat split; assumption.
Qed.

(** Once [addForwarder] has returned for a target, the target is
    registered, and a further [addForwarder] for it returns the list as it
    is without opening a socket, so also where [socket] would fail. *)
Theorem addForwarder_registers_once
        (sockfd1 sockfd2 : Z) (l l1 : list UDPForwarder) (addr : string) (port : Z)
        (ev1 : list effect) :
  addForwarder sockfd1 l addr port = (Returned l1, ev1) ->
  In (addr, port) (map target l1)
  /\ fst (addForwarder sockfd2 l1 addr port) = Returned l1
  /\ opens_socket (snd (addForwarder sockfd2 l1 addr port)) = false.
Proof.
  intros Hadd.
  assert (Hin : In (addr, port) (map target l1)).
  { destruct (addForwarder_cases sockfd1 l addr port)
      as [[Hin H]|[(_ & _ & H)|(_ & _ & H)]]; rewrite Hadd in H; cbn [fst] in H.
    - now injection H as <- _.
    - discriminate.
    - injection H as ->. rewrite map_app, in_app_iff. right. now left. }
  split; [exact Hin|].
  destruct (addForwarder_cases sockfd2 l1 addr port)
    as [[_ H]|[(Hout & _)|(Hout & _)]]; try contradiction.
  rewrite H. split; reflexivity.
Qed.

Lemma addForwarder_registers_once_witness :
  exists l1,
    fst (addForwarder 3 Examples.forwarders_1 "10.0.0.1" 5600) = Returned l1
    /\ fst (addForwarder (-1) l1 "10.0.0.1" 5600) = Returned l1.
Proof.
  eexists. split; [reflexivity|].
  refine (proj1 (proj2 (addForwarder_registers_once 3 (-1) Examples.forwarders_1 _
                          "10.0.0.1" 5600 _ _))).
  reflexivity.
Defined.

(** [addForwarder] keeps the targets of the forwarders pairwise distinct:
    from a list without two forwarders for the same address and port it
    makes such a list again, with the given target in it, the forwarders
    that were there unchanged at the front. *)
Theorem addForwarder_keeps_targets_distinct
        (sockfd : Z) (l l' : list UDPForwarder) (addr : string) (port : Z)
        (ev : list effect) :
  NoDup (map target l) ->
  addForwarder sockfd l addr port = (Returned l', ev) ->
  NoDup (map target l')
  /\ (forall tg, In tg (map target l') <-> tg = (addr, port) \/ In tg (map target l))
  /\ firstn (length l) l' = l.
Proof.
  intros Hnd Hadd.
  destruct (addForwarder_cases sockfd l addr port)
    as [[Hin H]|[(_ & _ & H)|(Hout & _ & H)]]; rewrite Hadd in H; cbn [fst] in H.
  - injection H as <- _. split; [exact Hnd|]. split.
    + intros tg. split; [tauto|]. intros [->|]; assumption.
    + apply firstn_all.
  - discriminate.
  - injection H as ->. split; [|split].
    + rewrite map_app. cbn [map target client_addr client_udp_port].
      apply NoDup_Add with (a := (addr, port)) (l := map target l).
      * rewrite <- (app_nil_r (map target l)) at 1. apply Add_app.
      * split; assumption.
    + intros tg. rewrite map_app, in_app_iff.
      cbn [map target client_addr client_udp_port In]. split.
      * intros [H|[<-|[]]]; [right; assumption | left; reflexivity].
      * intros [->|H]; [right; left; reflexivity | left; assumption].
    + apply firstn_length_app.
Qed.

Lemma addForwarder_keeps_targets_distinct_witness :
  NoDup (map target Examples.forwarders_1)
  /\ exists l',
       fst (addForwarder 3 Examples.forwarders_1 "10.0.0.1" 5600) = Returned l'
       /\ NoDup (map target l').
Proof.
  assert (Hnd : NoDup (map target Examples.forwarders_1)).
  { constructor; [intros [] | constructor]. }
  split; [exact Hnd|].
  eexists. split; [reflexivity|].
  refine (proj1 (addForwarder_keeps_targets_distinct 3 Examples.forwarders_1 _
                   "10.0.0.1" 5600 _ Hnd _)).
  reflexivity.
Defined.

Lemma find_if_app_absent {A : Type} (p : A -> bool) (l : list A) (x : A) :
  existsb p l = false -> p x = true -> find_if p (l ++ [x]) = length l.
Proof.
  induction l as [|y l IH]; simpl; intros Hex Hx.
  - now rewrite Hx.
  - apply orb_false_iff in Hex. destruct Hex as [Hy Hex].
    rewrite Hy. f_equal. now apply IH.
Qed.

Lemma remove_at_length_app {A : Type} (l : list A) (x : A) :
  remove_at (length l) (l ++ [x]) = l.
Proof. induction l as [|y l IH]; simpl; [reflexivity | now rewrite IH]. Qed.

(** [removeForwarder] undoes [addForwarder]: for a target that was not
    registered, adding it and removing it again gives the list back. *)
Theorem removeForwarder_undoes_addForwarder
        (sockfd : Z) (l l1 : list UDPForwarder) (addr : string) (port : Z)
        (ev : list effect) :
  ~ In (addr, port) (map target l) ->
  addForwarder sockfd l addr port = (Returned l1, ev) ->
  removeForwarder l1 addr port = Returned l.
Proof.
  intros Hout Hadd. apply not_registered_iff in Hout.
  unfold addForwarder in Hadd. rewrite Hout in Hadd.
  unfold UDPForwarder_new in Hadd.
  destruct (sockfd <? 0); [discriminate|].
  injection Hadd as <- _.
  unfold removeForwarder, list_erase.
  rewrite find_if_app_absent; [| assumption | apply same_target_iff; reflexivity ].
  rewrite length_app. cbn [length].
  rewrite (proj2 (Nat.ltb_lt _ _)) by lia.
  now rewrite remove_at_length_app.
Qed.

Lemma removeForwarder_undoes_addForwarder_witness :
  ~ In ("10.0.0.1"%string, 5600) (map target Examples.forwarders_1)
  /\ exists l1,
       fst (addForwarder 3 Examples.forwarders_1 "10.0.0.1" 5600) = Returned l1
       /\ removeForwarder l1 "10.0.0.1" 5600 = Returned Examples.forwarders_1.
Proof.
  assert (Hout : ~ In ("10.0.0.1"%string, 5600) (map target Examples.forwarders_1)).
  { intros [H|[]]. discriminate H. }
  split; [exact Hout|].
  eexists. split; [reflexivity|].
  refine (removeForwarder_undoes_addForwarder 3 Examples.forwarders_1 _
            "10.0.0.1" 5600 _ Hout _).
  reflexivity.
Defined.

Lemma remove_at_find_if_filter (p : UDPForwarder -> bool) (l : list UDPForwarder) :
  NoDup (map target l) ->
  (forall f g, p f = true -> p g = true -> target f = target g) ->
  existsb p l = true ->
  remove_at (find_if p l) l = filter (fun f => negb (p f)) l.
Proof.
  intros Hnd Hp. induction l as [|x l IH]; simpl; [discriminate|].
  inversion Hnd as [|tx tl Hnotin Hnd' Heq]; subst.
  destruct (p x) eqn:Hx; simpl.
  - intros _. symmetry. apply forallb_filter_id.
    apply forallb_forall. intros g Hg.
    destruct (p g) eqn:Hpg; [|reflexivity].
    exfalso. apply Hnotin. rewrite (Hp x g Hx Hpg). now apply in_map.
  - intros Hex. f_equal. now apply IH.
Qed.

(** With pairwise distinct targets, [removeForwarder] for a registered
    target returns the list without the forwarder of that target and with
    all the others, in their order; the target is then no longer
    registered, so that a second [removeForwarder] for it is undefined. *)
Theorem removeForwarder_removes_the_target
        (l : list UDPForwarder) (addr : string) (port : Z) :
  NoDup (map target l) ->
  In (addr, port) (map target l) ->
  exists l',
    removeForwarder l addr port = Returned l'
    /\ l' = filter (fun f => negb (same_target addr port f)) l
    /\ ~ In (addr, port) (map target l')
    /\ (forall f, In f l -> target f <> (addr, port) -> In f l')
    /\ removeForwarder l' addr port = UndefinedBehaviour.
Proof.
  intros Hnd Hin. apply registered_iff in Hin.
  exists (filter (fun f => negb (same_target addr port f)) l).
  assert (Hgone : ~ In (addr, port)
                      (map target (filter (fun f => negb (same_target addr port f)) l))).
  { intros H. apply in_map_iff in H. destruct H as (f & Hf & Hfin).
    apply filter_In in Hfin. destruct Hfin as [_ Hneg].
    apply same_target_iff in Hf. rewrite Hf in Hneg. discriminate. }
  split; [|split; [reflexivity|split; [exact Hgone|split]]].
  - rewrite removeForwarder_present by assumption. f_equal.
    apply remove_at_find_if_filter; try assumption.
    intros f g Hf Hg. apply same_target_iff in Hf, Hg. congruence.
  - intros f Hf Hne. apply filter_In. split; [exact Hf|].
    destruct (same_target addr port f) eqn:Hs; [|reflexivity].
    apply same_target_iff in Hs. contradiction.
  - unfold removeForwarder, list_erase.
    apply not_registered_iff in Hgone. apply find_if_absent in Hgone.
    rewrite Hgone. now rewrite Nat.ltb_irrefl.
Qed.

Lemma removeForwarder_removes_the_target_witness :
  NoDup (map target Examples.forwarders_1)
  /\ In ("192.168.0.2"%string, 5600) (map target Examples.forwarders_1)
  /\ removeForwarder Examples.forwarders_1 "192.168.0.2" 5600 = Returned [].
Proof.
  assert (Hnd : NoDup (map target Examples.forwarders_1)).
  { constructor; [intros [] | constructor]. }
  assert (Hin : In ("192.168.0.2"%string, 5600) (map target Examples.forwarders_1))
    by (left; reflexivity).
  split; [exact Hnd|]. split; [exact Hin|].
  destruct (removeForwarder_removes_the_target Examples.forwarders_1 "192.168.0.2" 5600
              Hnd Hin) as (l' & Hrun & -> & _).
  exact Hrun.
Defined.

(** *** Forwarding and receiving *)

(** [UDPMultiForwarder::forwardPacketViaUDP] sends the packet once through
    every forwarder, in the order of the list, whatever the earlier calls of
    [sendto] returned: a failed send is reported and the loop goes on.  It
    opens no socket and calls no callback. *)
Theorem forwardPacketViaUDP_reaches_every_forwarder
        (sendto : UDPForwarder -> list byte -> Z)
        (udpForwarders : list UDPForwarder) (packet : list byte) :
  datagrams (forwardPacketViaUDP sendto udpForwarders packet)
  = map (fun f => (f, packet)) udpForwarders
  /\ opens_socket (forwardPacketViaUDP sendto udpForwarders packet) = false
  /\ delivered (forwardPacketViaUDP sendto udpForwarders packet) = [].
Proof.
  unfold forwardPacketViaUDP.
  induction udpForwarders as [|f l IH]; [repeat split|].
  cbn [flat_map map]. destruct IH as (IH1 & IH2 & IH3).
  unfold UDPForwarder_forwardPacketViaUDP at 1 3 5. cbv zeta.
  destruct ((sendto f packet <? 0) || negb (sendto f packet =? size packet));
    cbn [app datagrams flat_map opens_socket existsb orb delivered];
    fold (datagrams (flat_map (fun g => UDPForwarder_forwardPacketViaUDP sendto g packet) l));
    fold (delivered (flat_map (fun g => UDPForwarder_forwardPacketViaUDP sendto g packet) l));
    fold (opens_socket (flat_map (fun g => UDPForwarder_forwardPacketViaUDP sendto g packet) l));
    rewrite IH1, IH2, IH3; repeat split.
Qed.

(** [UDPReceiver::loopUntilError] hands the callback the datagrams that
    arrive before the first call of [recv] that returns zero or less, each
    cut to the length [recv] returned, and then stops without another call
    of [recv]; an empty datagram, for which [recv] returns 0, stops it like
    an error.  While every [recv] returns a positive length the function
    does not return. *)
Theorem loopUntilError_stops_at_first_failure
        (good : list (Z * list byte)) (n : Z) (buff : list byte)
        (rest : list (Z * list byte)) :
  Forall (fun r => fst r > 0) good ->
  n <= 0 ->
  loopUntilError (good ++ (n, buff) :: rest) true
  = (Some false, rest,
     map (fun r => Callback (firstn (Z.to_nat (fst r)) (snd r))) good
       ++ [Print "ERROR got message length of:"; Print "UDP end"])
  /\ loopUntilError good true
     = (None, [], map (fun r => Callback (firstn (Z.to_nat (fst r)) (snd r))) good).
Proof.
  intros Hgood Hn. induction Hgood as [|[len b] good Hlen _ IH].
  - cbn [app loopUntilError map]. split; [|reflexivity].
    destruct (Z.gtb_spec n 0) as [Hgt|_]; [lia|].
    destruct rest; reflexivity.
  - cbn [fst] in Hlen. destruct IH as [IH1 IH2].
    cbn [app loopUntilError map fst snd].
    destruct (Z.gtb_spec len 0) as [_|Hle]; [|lia].
    rewrite IH1, IH2. split; reflexivity.
Qed.

Lemma loopUntilError_stops_at_first_failure_witness :
  Forall (fun r => fst r > 0) [(3, [10; 20; 30; 0])]
  /\ 0 <= 0
  /\ loopUntilError [(3, [10; 20; 30; 0]); (0, []); (2, [1; 2])] true
     = (Some false, [(2, [1; 2])],
        [Callback [10; 20; 30];
         Print "ERROR got message length of:"; Print "UDP end"]).
Proof.
  assert (Hgood : Forall (fun r : Z * list Z => fst r > 0) [(3, [10; 20; 30; 0])]).
  { constructor; [reflexivity | constructor]. }
  split; [exact Hgood|]. split; [lia|].
  exact (proj1 (loopUntilError_stops_at_first_failure
                  [(3, [10; 20; 30; 0])] 0 [] [(2, [1; 2])] Hgood ltac:(lia))).
Defined.

End SocketHelperFacts.

(* ------------------------------------------------------------------ *)
(** ** The AEAD model keeps the contract of libsodium *)

Module SodiumModelFacts.

Import Libsodium Encryption SodiumModel.

(** The test vector of the ChaCha20-Poly1305 draft that libsodium ships with
    its test suite. *)
Example aead_encrypt_test_vector :
  aead_encrypt
    [0x86; 0xd0; 0x99; 0x74; 0x84; 0x0b; 0xde; 0xd2; 0xa5; 0xca]
    [0x87; 0xe2; 0x29; 0xd4; 0x50; 0x08; 0x45; 0xa0; 0x79; 0xc0]
    [0xcd; 0x7c; 0xf6; 0x7b; 0xe3; 0x9c; 0x79; 0x4a]
    [0x42; 0x90; 0xbc; 0xb1; 0x54; 0x17; 0x35; 0x31; 0xf3; 0x14; 0xaf; 0x57;
     0xf3; 0xbe; 0x3b; 0x50; 0x06; 0xda; 0x37; 0x1e; 0xce; 0x27; 0x2a; 0xfa;
     0x1b; 0x5d; 0xbd; 0xd1; 0x10; 0x0a; 0x10; 0x07]
  = [0xe3; 0xe4; 0x46; 0xf7; 0xed; 0xe9; 0xa1; 0x9b; 0x62; 0xa4;
     0x67; 0x7d; 0xab; 0xf4; 0xe3; 0xd2; 0x4b; 0x87; 0x6b; 0xb2; 0x84; 0x75;
     0x38; 0x96; 0xe1; 0xd6].
Proof. vm_compute. reflexivity. Qed.

Lemma length_flat_map_const {A B : Type} (f : A -> list B) (n : nat) (l : list A) :
  (forall x, length (f x) = n) -> length (flat_map f l) = (n * length l)%nat.
Proof.
  intros Hf. induction l as [|x l IH]; simpl; [lia|].
  rewrite length_app, Hf, IH. lia.
Qed.

Lemma length_chacha20_block (k npub : list byte) (ic : Z) :
  length (chacha20_block k npub ic) = 64%nat.
Proof.
  unfold chacha20_block.
  rewrite (length_flat_map_const _ 4); [now rewrite length_seq|].
  intros i. apply length_le_bytes.
Qed.

Lemma chacha20_xor_ic_step (fuel : nat) (m k npub : list byte) (ic : Z) :
  m <> [] ->
  chacha20_xor_ic (S fuel) m k npub ic
  = map2 Z.lxor (firstn 64 m) (chacha20_block k npub ic)
      ++ chacha20_xor_ic fuel (skipn 64 m) k npub (ic + 1).
Proof. destruct m; [congruence | reflexivity]. Qed.

Lemma length_chacha20_xor_ic (fuel : nat) (m k npub : list byte) (ic : Z) :
  (length m <= fuel)%nat ->
  length (chacha20_xor_ic fuel m k npub ic) = length m.
Proof.
  revert m ic; induction fuel as [|fuel IH]; intros m ic Hfuel.
  - destruct m; simpl in *; [reflexivity | lia].
  - destruct m as [|x m]; [reflexivity|].
    rewrite chacha20_xor_ic_step by discriminate.
    rewrite length_app, length_map2, length_firstn, length_chacha20_block.
    rewrite IH; rewrite length_skipn; simpl length in *; lia.
Qed.

Lemma chacha20_xor_ic_involutive (fuel : nat) (m k npub : list byte) (ic : Z) :
  (length m <= fuel)%nat ->
  chacha20_xor_ic fuel (chacha20_xor_ic fuel m k npub ic) k npub ic = m.
Proof.
  revert m ic; induction fuel as [|fuel IH]; intros m ic Hfuel.
  - destruct m; simpl in *; [reflexivity | lia].
  - destruct m as [|x m]; [reflexivity|].
    remember (x :: m) as xm eqn:Hxm.
    assert (Hne : xm <> []) by (subst; discriminate).
    assert (Hlen : (1 <= length xm)%nat) by (subst; simpl; lia).
    rewrite (chacha20_xor_ic_step fuel xm) by assumption.
    set (a := map2 Z.lxor (firstn 64 xm) (chacha20_block k npub ic)).
    set (b := chacha20_xor_ic fuel (skipn 64 xm) k npub (ic + 1)).
    assert (Ha : length a = Nat.min 64 (length xm)).
    { unfold a. rewrite length_map2, length_firstn, length_chacha20_block. lia. }
    assert (Hb : length b = (length xm - 64)%nat).
    { unfold b. rewrite length_chacha20_xor_ic; rewrite length_skipn; lia. }
    assert (Hsplit : firstn 64 (a ++ b) = a /\ skipn 64 (a ++ b) = b).
    { destruct (Nat.le_gt_cases 64 (length xm)) as [Hge|Hlt].
      - assert (length a = 64%nat) by lia.
        split.
        + rewrite firstn_app, firstn_all2 by lia.
          replace (64 - length a)%nat with 0%nat by lia.
          simpl. now rewrite app_nil_r.
        + rewrite skipn_app, skipn_all2 by lia.
          replace (64 - length a)%nat with 0%nat by lia.
          reflexivity.
      - assert (Hbnil : b = []) by (apply length_zero_iff_nil; lia).
        rewrite Hbnil, app_nil_r. split.
        + apply firstn_all2. lia.
        + apply skipn_all2. lia. }
    destruct Hsplit as [Hfst Hsnd].
    rewrite chacha20_xor_ic_step.
    + rewrite Hfst, Hsnd. unfold a, b.
      rewrite map2_xor_cancel
        by (rewrite length_firstn, length_chacha20_block; lia).
      rewrite IH by (rewrite length_skipn; lia).
      apply firstn_skipn.
    + intros Hnil. apply (f_equal (@length Z)) in Hnil.
      rewrite length_app in Hnil. simpl in Hnil. lia.
Qed.

Lemma bytes_eqb_refl (a : list byte) : bytes_eqb a a = true.
Proof. induction a as [|x a IH]; simpl; [reflexivity|]. now rewrite Z.eqb_refl. Qed.

Lemma length_aead_tag (ad c npub k : list byte) : length (aead_tag ad c npub k) = 16%nat.
Proof. unfold aead_tag, poly1305. apply length_le_bytes. Qed.

Lemma length_aead_encrypt (m ad npub k : list byte) :
  length (aead_encrypt m ad npub k) = (length m + 16)%nat.
Proof.
  unfold aead_encrypt.
  rewrite length_app, length_aead_tag, length_chacha20_xor_ic; lia.
Qed.

Lemma aead_decrypt_encrypt_model (m ad npub k : list byte) :
  aead_decrypt (aead_encrypt m ad npub k) ad npub k = Some m.
Proof.
  unfold aead_decrypt.
  unfold size. rewrite length_aead_encrypt.
  unfold crypto_aead_chacha20poly1305_ABYTES.
  destruct (Z.ltb_spec (Z.of_nat (length m + 16)) 16) as [Hlt|_]; [lia|].
  replace (length m + 16 - Z.to_nat 16)%nat with (length m) by lia.
  unfold aead_encrypt.
  set (c := chacha20_xor_ic (length m) m k npub 1).
  assert (Hc : length c = length m)
    by (unfold c; apply length_chacha20_xor_ic; lia).
  cbv zeta.
  replace (firstn (length m) (c ++ aead_tag ad c npub k)) with c
    by (now rewrite <- Hc, firstn_length_app).
  replace (skipn (length m) (c ++ aead_tag ad c npub k)) with (aead_tag ad c npub k)
    by (now rewrite <- Hc, skipn_length_app).
  rewrite bytes_eqb_refl. unfold c.
  now rewrite chacha20_xor_ic_involutive.
Qed.

Lemma aead_decrypt_length_model (c ad npub k m : list byte) :
  aead_decrypt c ad npub k = Some m -> length c = (length m + 16)%nat.
Proof.
  unfold aead_decrypt, size, crypto_aead_chacha20poly1305_ABYTES.
  destruct (Z.ltb_spec (Z.of_nat (length c)) 16) as [|Hge]; [discriminate|].
  destruct (bytes_eqb _ _); [|discriminate].
  intros [= <-].
  rewrite length_chacha20_xor_ic; rewrite length_firstn; lia.
Qed.

(** The model satisfies what the code asks of libsodium. *)
Lemma sodium_model_laws : SodiumLaws sodium_model.
Proof.
  constructor; cbn [crypto_aead_chacha20poly1305_encrypt
                      crypto_aead_chacha20poly1305_decrypt sodium_model].
  - intros. unfold size. rewrite length_aead_encrypt.
    unfold crypto_aead_chacha20poly1305_ABYTES. lia.
  - apply aead_decrypt_encrypt_model.
  - intros c ad npub k m H. apply aead_decrypt_length_model in H.
    unfold size, crypto_aead_chacha20poly1305_ABYTES. lia.
Qed.

Lemma sodium_model_box_laws : BoxLaws sodium_model.
Proof.
  constructor; cbn [crypto_box_easy crypto_box_open_easy sodium_model];
    unfold box_easy, box_open_easy; intros m n pk sk c [= <-].
  - unfold size. rewrite length_aead_encrypt. unfold crypto_box_MACBYTES. lia.
  - apply aead_decrypt_encrypt_model.
Qed.

End SodiumModelFacts.

(* ------------------------------------------------------------------ *)
(** ** Encryption.hpp *)

Module EncryptionFacts.

Import Libsodium Encryption.

Lemma length_WBDataHeader_bytes (h : WBDataHeader) :
  length (WBDataHeader_bytes h) = Z.to_nat sizeof_WBDataHeader.
Proof.
  unfold WBDataHeader_bytes. now rewrite !length_app, !length_le_bytes.
Qed.

Lemma size_nonneg (buf : list byte) : 0 <= size buf.
Proof. unfold size. lia. Qed.

Lemma vector_resize_small (n : Z) :
  0 <= n <= vector_max_size ->
  exists v, vector_resize n = Returned v /\ size v = n.
Proof.
  intros Hn. unfold vector_resize.
  destruct (Z.gtb_spec n vector_max_size) as [Hgt|_]; [lia|].
  eexists; split; [reflexivity|].
  unfold size. rewrite repeat_length. lia.
Qed.

Lemma vector_resize_wrapped (n : Z) :
  0 <= n < crypto_aead_chacha20poly1305_ABYTES ->
  vector_resize (size_t_sub n crypto_aead_chacha20poly1305_ABYTES) = Threw length_error.
Proof.
  intros Hn. unfold vector_resize, size_t_sub, SIZE_MAX_plus_1, vector_max_size,
    crypto_aead_chacha20poly1305_ABYTES in *.
  replace ((n - 16) mod 2 ^ 64) with (n - 16 + 2 ^ 64).
  - destruct (Z.gtb_spec (n - 16 + 2 ^ 64) (2 ^ 63 - 1)) as [_|Hle]; [reflexivity|lia].
  - apply Z.mod_unique with (q := -1); lia.
Qed.

Lemma memcmp_zero_iff (n : nat) (a b : list byte) :
  length a = n -> length b = n -> (memcmp a b n = 0 <-> a = b).
Proof.
  revert a b; induction n as [|n IH]; intros [|x a] [|y b] Ha Hb;
    simpl in *; try discriminate; [tauto|].
  destruct (Z.eqb_spec x y) as [->|Hxy].
  - rewrite IH by lia. split; [now intros -> | now intros [= ->]].
  - split; [lia | intros [= ? _]; contradiction].
Qed.

(** *** The AEAD envelope *)

(** C1.  Under the contract of the AEAD pair, and with the same session
    key on both sides, what [makeEncryptedPacketIncludingHeader] appends to
    the 11 header bytes decrypts to the payload.  The bound on the payload
    says that the packet fits a [std::vector]. *)
Theorem aead_round_trip {S : Sodium} (L : SodiumLaws S)
        (e : Encryptor) (d : Decryptor) (H : WBDataHeader) (P : list byte) :
  session_key d = enc_session_key e ->
  sizeof_WBDataHeader + size P + crypto_aead_chacha20poly1305_ABYTES <= vector_max_size ->
  exists packet,
    makeEncryptedPacketIncludingHeader e H P = Returned packet
    /\ firstn (Z.to_nat sizeof_WBDataHeader) packet = WBDataHeader_bytes H
    /\ decryptPacket d H (skipn (Z.to_nat sizeof_WBDataHeader) packet)
       = Returned (Some P).
Proof.
  intros Hkey Hfit.
  pose proof (size_nonneg P) as HP.
  set (C := run_encrypt (encrypt_call e H P)).
  assert (HC : size C = size P + crypto_aead_chacha20poly1305_ABYTES)
    by apply aead_encrypt_length.
  exists (WBDataHeader_bytes H ++ C).
  pose proof (length_WBDataHeader_bytes H) as HlenH.
  unfold sizeof_WBDataHeader, crypto_aead_chacha20poly1305_ABYTES, vector_max_size in *.
  split; [|split].
  - unfold makeEncryptedPacketIncludingHeader.
    unfold size_t_add, SIZE_MAX_plus_1, sizeof_WBDataHeader,
      crypto_aead_chacha20poly1305_ABYTES.
    rewrite (Z.mod_small (11 + size P)) by lia.
    rewrite Z.mod_small by lia.
    destruct (vector_resize_small (11 + size P + 16)) as [ret [-> Hret]];
      [unfold vector_max_size; lia|].
    fold C. rewrite Hret, HC.
    now rewrite (proj2 (Z.eqb_eq _ _)) by lia.
  - rewrite <- HlenH. apply firstn_length_app.
  - rewrite <- HlenH, skipn_length_app.
    unfold decryptPacket, crypto_aead_chacha20poly1305_ABYTES.
    rewrite HC. unfold size_t_sub, SIZE_MAX_plus_1.
    replace (size P + 16 - 16) with (size P) by lia.
    rewrite Z.mod_small by lia.
    destruct (vector_resize_small (size P)) as [dec [-> Hdec]];
      [unfold vector_max_size; lia|].
    unfold run_decrypt, decrypt_call; cbn [call_text call_ad call_npub call_key].
    rewrite Hkey. unfold C, run_encrypt, encrypt_call;
      cbn [call_text call_ad call_npub call_key].
    rewrite aead_decrypt_encrypt.
    now rewrite Hdec, Z.eqb_refl.
Qed.

Lemma aead_round_trip_witness :
  session_key Examples.decryptor_A = enc_session_key Examples.encryptor_A
  /\ exists packet,
       makeEncryptedPacketIncludingHeader (S := SodiumModel.sodium_model)
         Examples.encryptor_A Examples.header_7 Examples.payload_123 = Returned packet
       /\ firstn (Z.to_nat sizeof_WBDataHeader) packet
          = WBDataHeader_bytes Examples.header_7
       /\ decryptPacket (S := SodiumModel.sodium_model) Examples.decryptor_A
            Examples.header_7 (skipn (Z.to_nat sizeof_WBDataHeader) packet)
          = Returned (Some Examples.payload_123).
Proof.
  split; [vm_compute; reflexivity|].
  apply (aead_round_trip SodiumModelFacts.sodium_model_laws).
  - vm_compute; reflexivity.
  - vm_compute; discriminate.
Defined.

(** For a candidate of at least 16 bytes [decryptPacket] returns, and what
    it returns is the verdict of the AEAD: nothing when the tag does not
    verify, the plaintext when it does. *)
Lemma decryptPacket_long_enough {S : Sodium} (L : SodiumLaws S)
      (d : Decryptor) (H : WBDataHeader) (c : list byte) :
  crypto_aead_chacha20poly1305_ABYTES <= size c <= vector_max_size ->
  decryptPacket d H c = Returned (run_decrypt (decrypt_call d H c)).
Proof.
  intros Hc. unfold decryptPacket.
  unfold size_t_sub, SIZE_MAX_plus_1, crypto_aead_chacha20poly1305_ABYTES,
    vector_max_size in *.
  rewrite Z.mod_small by lia.
  destruct (vector_resize_small (size c - 16)) as [dec [-> Hdec]];
    [unfold vector_max_size; lia|].
  destruct (run_decrypt (decrypt_call d H c)) as [plain|] eqn:Hrun; [|reflexivity].
  apply aead_decrypt_length in Hrun. cbn [call_text decrypt_call] in Hrun.
  unfold crypto_aead_chacha20poly1305_ABYTES in Hrun.
  now rewrite (proj2 (Z.eqb_eq _ _)) by lia.
Qed.

(** C3, on the code.  A candidate shorter than the 16-byte tag does not
    verify, yet [decryptPacket] does not return the empty option for it:
    [encryptedPayloadSize - crypto_aead_chacha20poly1305_ABYTES] wraps around
    and [resize] throws [std::length_error] before the AEAD is asked. *)
Theorem decryptPacket_short_candidate_throws {S : Sodium} (L : SodiumLaws S)
        (d : Decryptor) (H : WBDataHeader) (c : list byte) :
  size c < crypto_aead_chacha20poly1305_ABYTES ->
  run_decrypt (decrypt_call d H c) = None
  /\ decryptPacket d H c = Threw length_error.
Proof.
  intros Hc. pose proof (size_nonneg c) as Hc0. split.
  - destruct (run_decrypt (decrypt_call d H c)) as [plain|] eqn:Hrun; [|reflexivity].
    apply aead_decrypt_length in Hrun. cbn [call_text decrypt_call] in Hrun.
    pose proof (size_nonneg plain). lia.
  - unfold decryptPacket. rewrite vector_resize_wrapped; [reflexivity | lia].
Qed.

Lemma decryptPacket_short_candidate_throws_witness :
  size [0xde; 0xad; 0xbe] < crypto_aead_chacha20poly1305_ABYTES
  /\ run_decrypt (S := SodiumModel.sodium_model)
       (decrypt_call Examples.decryptor_A Examples.header_7 [0xde; 0xad; 0xbe]) = None
  /\ decryptPacket (S := SodiumModel.sodium_model)
       Examples.decryptor_A Examples.header_7 [0xde; 0xad; 0xbe] = Threw length_error.
Proof.
  split; [reflexivity|].
  apply (decryptPacket_short_candidate_throws SodiumModelFacts.sodium_model_laws).
  reflexivity.
Defined.

(** *** The nonce handed to the cipher *)

(** C4, as amended.  Encryption and decryption hand the cipher the 8 bytes
    of the header's nonce field, unpadded, and the same 8 bytes for the same
    header; the packet is the header followed by what the cipher returns
    for them. *)
Theorem aead_nonce_is_the_header_nonce {S : Sodium}
        (e : Encryptor) (d : Decryptor) (h : WBDataHeader) (p c : list byte) :
  call_npub (encrypt_call e h p) = le_bytes 8 (nonce h)
  /\ call_npub (decrypt_call d h c) = le_bytes 8 (nonce h)
  /\ size (call_npub (encrypt_call e h p)) = crypto_aead_chacha20poly1305_NPUBBYTES
  /\ size (call_npub (decrypt_call d h c)) = crypto_aead_chacha20poly1305_NPUBBYTES
  /\ (forall packet,
        makeEncryptedPacketIncludingHeader e h p = Returned packet ->
        packet = WBDataHeader_bytes h
                   ++ crypto_aead_chacha20poly1305_encrypt
                        p (WBDataHeader_bytes h) (le_bytes 8 (nonce h)) (enc_session_key e))
  /\ (forall plain,
        decryptPacket d h c = Returned (Some plain) ->
        crypto_aead_chacha20poly1305_decrypt
          c (WBDataHeader_bytes h) (le_bytes 8 (nonce h)) (session_key d) = Some plain).
Proof.
  repeat split; try reflexivity.
  - intros packet. unfold makeEncryptedPacketIncludingHeader.
    destruct (vector_resize _); try discriminate.
    destruct (_ =? _); [|discriminate].
    now intros [= <-].
  - intros plain. unfold decryptPacket.
    destruct (vector_resize _); try discriminate.
    unfold run_decrypt, decrypt_call; cbn [call_text call_ad call_npub call_key].
    unfold WBDataHeader_nonce_bytes.
    destruct (crypto_aead_chacha20poly1305_decrypt _ _ _ _) as [m|]; [|discriminate].
    destruct (_ =? _); [|discriminate].
    now intros [= <-].
Qed.

(** C4, as stated, fails: the nonce passed along with [header_7] is 8 bytes
    long, and is not the 12-byte zero-padded value. *)
Lemma aead_nonce_is_not_padded :
  call_npub (encrypt_call Examples.encryptor_A Examples.header_7 Examples.payload_123)
    = [8; 7; 6; 5; 4; 3; 2; 1]
  /\ call_npub (encrypt_call Examples.encryptor_A Examples.header_7 Examples.payload_123)
     <> spec_left_padded_nonce Examples.header_7
  /\ call_npub (decrypt_call Examples.decryptor_A Examples.header_7 [])
     <> spec_left_padded_nonce Examples.header_7.
Proof. repeat split; discriminate. Qed.

(** *** The session key *)

(** With 32-byte keys on both sides the comparison that [memcmp] makes is
    equality, and [onNewPacketWfbKey] goes one of two ways. *)
Lemma onNewPacketWfbKey_cases {S : Sodium} (d : Decryptor) (buf k : list byte) :
  unseal_session_key d buf = Some k ->
  length k = sizeof_session_key ->
  length (session_key d) = sizeof_session_key ->
  (k = session_key d /\ onNewPacketWfbKey d buf = (false, d))
  \/ (k <> session_key d
      /\ onNewPacketWfbKey d buf
         = (true, {| rx_secretkey := rx_secretkey d;
                     tx_publickey := tx_publickey d;
                     session_key := k |})).
Proof.
  intros Hopen Hk Hd.
  pose proof (memcmp_zero_iff sizeof_session_key (session_key d) k Hd Hk) as Hcmp.
  unfold onNewPacketWfbKey. rewrite Hopen.
  destruct (Z.eqb_spec (memcmp (session_key d) k sizeof_session_key) 0) as [Hz|Hnz];
    cbn [negb].
  - left. apply Hcmp in Hz. split; [now symmetry | reflexivity].
  - right. split; [|reflexivity].
    intros ->. apply Hnz. now apply Hcmp.
Qed.

(** C2.  A packet that opens to a 32-byte key [k]: when [k] is the
    installed key, [onNewPacketWfbKey] returns false and changes nothing;
    when it is not, the call returns true and installs [k]. *)
Theorem onNewPacketWfbKey_deduplicates {S : Sodium}
        (d : Decryptor) (buf k : list byte) :
  unseal_session_key d buf = Some k ->
  length k = sizeof_session_key ->
  length (session_key d) = sizeof_session_key ->
  (k = session_key d -> onNewPacketWfbKey d buf = (false, d))
  /\ (k <> session_key d ->
      onNewPacketWfbKey d buf
      = (true, {| rx_secretkey := rx_secretkey d;
                  tx_publickey := tx_publickey d;
                  session_key := k |}))
  /\ (fst (onNewPacketWfbKey d buf) = true <-> k <> session_key d).
Proof.
  intros Hopen Hk Hd.
  destruct (onNewPacketWfbKey_cases d buf k Hopen Hk Hd) as [[Heq Hrun]|[Hne Hrun]];
    rewrite Hrun; cbn [fst].
  - repeat split; intros; try congruence; exfalso; congruence.
  - repeat split; intros; congruence.
Qed.

Lemma onNewPacketWfbKey_deduplicates_witness :
  unseal_session_key (S := SodiumModel.sodium_model)
    Examples.decryptor_A Examples.announcement_A = Some Examples.session_key_A
  /\ Examples.session_key_A = session_key Examples.decryptor_A
  /\ onNewPacketWfbKey (S := SodiumModel.sodium_model)
       Examples.decryptor_A Examples.announcement_A = (false, Examples.decryptor_A).
Proof.
  assert (Hopen : unseal_session_key (S := SodiumModel.sodium_model)
            Examples.decryptor_A Examples.announcement_A = Some Examples.session_key_A)
    by (vm_compute; reflexivity).
  assert (Hsame : Examples.session_key_A = session_key Examples.decryptor_A)
    by (vm_compute; reflexivity).
  split; [exact Hopen|]. split; [exact Hsame|].
  refine (proj1 (onNewPacketWfbKey_deduplicates
                   Examples.decryptor_A Examples.announcement_A Examples.session_key_A
                   Hopen _ _) Hsame); vm_compute; reflexivity.
Defined.

(** C9.  A freshly constructed [Decryptor] holds 32 zero bytes as its
    session key.  Until an announcement has been processed, [decryptPacket]
    authenticates against that key: for a candidate of at least 16 bytes it
    returns the verdict of the cipher for the header, its nonce and the
    all-zero key, so that a packet sealed under the all-zero key is
    accepted.  And the first announcement that opens to another 32-byte key
    is reported as a new session. *)
Theorem fresh_decryptor_session_key_is_zero {S : Sodium} (L : SodiumLaws S)
        (fs : filesystem) (keypair : option string) (d : Decryptor) :
  Decryptor_ctor fs keypair = Returned d ->
  session_key d = repeat 0 32%nat
  /\ (forall H c,
        crypto_aead_chacha20poly1305_ABYTES <= size c <= vector_max_size ->
        decryptPacket d H c
        = Returned (crypto_aead_chacha20poly1305_decrypt
                      c (WBDataHeader_bytes H) (WBDataHeader_nonce_bytes H)
                      (repeat 0 32%nat)))
  /\ (forall H P,
        size P + crypto_aead_chacha20poly1305_ABYTES <= vector_max_size ->
        decryptPacket d H
          (crypto_aead_chacha20poly1305_encrypt
             P (WBDataHeader_bytes H) (WBDataHeader_nonce_bytes H) (repeat 0 32%nat))
        = Returned (Some P))
  /\ (forall buf k,
        unseal_session_key d buf = Some k ->
        length k = 32%nat ->
        k <> repeat 0 32%nat ->
        onNewPacketWfbKey d buf
        = (true, {| rx_secretkey := rx_secretkey d;
                    tx_publickey := tx_publickey d;
                    session_key := k |})).
Proof.
  intros Hctor.
  assert (Hzero : session_key d = repeat 0 32%nat).
  { unfold Decryptor_ctor in Hctor.
    destruct keypair as [path|].
    - destruct (fs path) as [fp|]; [|discriminate].
      destruct (fread _ fp) as [[sk fp']|]; [|discriminate].
      destruct (fread _ fp') as [[pk rest]|]; [|discriminate].
      now injection Hctor as <-.
    - destruct (crypto_box_seed_keypair _) as [pk sk].
      now injection Hctor as <-. }
  assert (Hverdict : forall H c,
             crypto_aead_chacha20poly1305_ABYTES <= size c <= vector_max_size ->
             decryptPacket d H c
             = Returned (crypto_aead_chacha20poly1305_decrypt
                           c (WBDataHeader_bytes H) (WBDataHeader_nonce_bytes H)
                           (repeat 0 32%nat))).
  { intros H c Hc. rewrite (decryptPacket_long_enough L d H c Hc).
    unfold run_decrypt, decrypt_call; cbn [call_text call_ad call_npub call_key].
    now rewrite Hzero. }
  split; [exact Hzero|]. split; [exact Hverdict|]. split.
  - intros H P HP. rewrite Hverdict.
    + now rewrite aead_decrypt_encrypt.
    + rewrite aead_encrypt_length. pose proof (size_nonneg P).
      unfold crypto_aead_chacha20poly1305_ABYTES in *. lia.
  - intros buf k Hopen Hk Hne.
    destruct (onNewPacketWfbKey_cases d buf k Hopen Hk) as [[Heq _]|[_ Hrun]].
    + now rewrite Hzero.
    + exfalso. apply Hne. now rewrite Heq, Hzero.
    + exact Hrun.
Qed.

Lemma fresh_decryptor_session_key_is_zero_witness :
  Decryptor_ctor (S := SodiumModel.sodium_model) Examples.no_files None
    = Returned Examples.fresh_decryptor
  /\ session_key Examples.fresh_decryptor = repeat 0 32%nat
  /\ decryptPacket (S := SodiumModel.sodium_model) Examples.fresh_decryptor
       Examples.header_7
       (crypto_aead_chacha20poly1305_encrypt (Sodium := SodiumModel.sodium_model)
          Examples.payload_123 (WBDataHeader_bytes Examples.header_7)
          (WBDataHeader_nonce_bytes Examples.header_7) (repeat 0 32%nat))
     = Returned (Some Examples.payload_123)
  /\ fst (onNewPacketWfbKey (S := SodiumModel.sodium_model)
            Examples.fresh_decryptor Examples.announcement_A) = true.
Proof.
  assert (Hctor : Decryptor_ctor (S := SodiumModel.sodium_model) Examples.no_files None
                  = Returned Examples.fresh_decryptor) by reflexivity.
  pose proof (fresh_decryptor_session_key_is_zero
                SodiumModelFacts.sodium_model_laws
                Examples.no_files None Examples.fresh_decryptor Hctor)
    as [Hz [_ [Hsealed Hnew]]].
  split; [exact Hctor|]. split; [exact Hz|]. split.
  - apply Hsealed. vm_compute. discriminate.
  - rewrite (Hnew Examples.announcement_A Examples.session_key_A);
      [reflexivity | vm_compute; reflexivity | reflexivity | discriminate].
Defined.

Lemma memcmp_refl (a : list byte) (n : nat) : memcmp a a n = 0.
Proof.
  revert a; induction n as [|n IH]; intros [|x a]; simpl; try reflexivity.
  now rewrite Z.eqb_refl.
Qed.

(** *** Announcements that arrive again *)

(** Handing [onNewPacketWfbKey] the packet it has just been given once
    more reports no new session and changes nothing: the announcement can
    be sent any number of times.  The key pair is never touched. *)
Theorem onNewPacketWfbKey_replay_is_silent {S : Sodium} (d : Decryptor) (buf : list byte) :
  let d1 := snd (onNewPacketWfbKey d buf) in
  onNewPacketWfbKey d1 buf = (false, d1)
  /\ rx_secretkey d1 = rx_secretkey d
  /\ tx_publickey d1 = tx_publickey d.
Proof.
  cbv zeta.
  assert (Hfst : exists d1, snd (onNewPacketWfbKey d buf) = d1
                   /\ rx_secretkey d1 = rx_secretkey d
                   /\ tx_publickey d1 = tx_publickey d
                   /\ (d1 = d /\ fst (onNewPacketWfbKey d buf) = false
                       \/ unseal_session_key d buf = Some (session_key d1))).
  { unfold onNewPacketWfbKey.
    destruct (unseal_session_key d buf) as [k|] eqn:Hopen.
    - destruct (negb (memcmp (session_key d) k sizeof_session_key =? 0)) eqn:Hcmp;
        cbn [snd fst]; eexists; repeat split; auto.
    - cbn [snd fst]; eexists; repeat split; auto. }
  destruct Hfst as (d1 & -> & Hsk & Hpk & Hcase).
  split; [|split; assumption].
  assert (Hopen1 : unseal_session_key d1 buf = unseal_session_key d buf).
  { unfold unseal_session_key. now rewrite Hsk, Hpk. }
  destruct Hcase as [[-> Hfalse]|Hopen].
  - destruct (onNewPacketWfbKey d buf) as [b d'] eqn:Hrun. cbn [fst] in Hfalse. subst b.
    f_equal. unfold onNewPacketWfbKey in Hrun.
    destruct (unseal_session_key d buf) as [k|]; [|now injection Hrun].
    destruct (negb _); [discriminate | now injection Hrun].
  - unfold onNewPacketWfbKey. rewrite Hopen1, Hopen.
    now rewrite memcmp_refl.
Qed.

(** *** Key files *)

(** With a path, both constructors read the file the same way: the first
    32 bytes are the secret key, the next 32 the public key of the other
    side, and what follows is not looked at.  A file that is not there, or
    holds fewer than 32 or fewer than 64 bytes, makes them throw. *)
Theorem key_file_layout {S : Sodium} (fs : filesystem) (path : string) :
  match fs path with
  | None =>
      Encryptor_ctor fs (Some path) = Threw (runtime_error "Unable to open")
      /\ Decryptor_ctor fs (Some path) = Threw (runtime_error "Unable to open")
  | Some fp =>
      if size fp <? crypto_box_SECRETKEYBYTES then
        Encryptor_ctor fs (Some path)
        = Threw (runtime_error "Unable to read tx secret key")
        /\ Decryptor_ctor fs (Some path)
           = Threw (runtime_error "Unable to read rx secret key")
      else if size fp <? crypto_box_SECRETKEYBYTES + crypto_box_PUBLICKEYBYTES then
        Encryptor_ctor fs (Some path)
        = Threw (runtime_error "Unable to read rx public key")
        /\ Decryptor_ctor fs (Some path)
           = Threw (runtime_error "Unable to read tx public key")
      else
        exists e d,
          Encryptor_ctor fs (Some path) = Returned e
          /\ Decryptor_ctor fs (Some path) = Returned d
          /\ tx_secretkey e = firstn 32 fp
          /\ rx_publickey e = firstn 32 (skipn 32 fp)
          /\ rx_secretkey d = firstn 32 fp
          /\ tx_publickey d = firstn 32 (skipn 32 fp)
          /\ size (tx_secretkey e) = crypto_box_SECRETKEYBYTES
          /\ size (rx_publickey e) = crypto_box_PUBLICKEYBYTES
  end.
Proof.
  unfold Encryptor_ctor, Decryptor_ctor.
  destruct (fs path) as [fp|]; [|split; reflexivity].
  unfold fread, crypto_box_SECRETKEYBYTES, crypto_box_PUBLICKEYBYTES.
  assert (Hrest : size (skipn (Z.to_nat 32) fp) = size fp - 32 \/ size fp < 32).
  { unfold size. rewrite length_skipn. lia. }
  destruct (Z.ltb_spec (size fp) 32) as [Hshort|Hlong]; [split; reflexivity|].
  cbv beta iota. destruct Hrest as [Hrest|]; [|lia]. rewrite Hrest.
  destruct (Z.ltb_spec (size fp) (32 + 32)) as [Hshort2|Hlong2].
  - rewrite (proj2 (Z.ltb_lt _ _)) by lia. split; reflexivity.
  - rewrite (proj2 (Z.ltb_ge _ _)) by lia.
    eexists; eexists. repeat split; unfold size in *; cbn [tx_secretkey rx_publickey].
    + rewrite length_firstn. lia.
    + rewrite length_firstn, length_skipn. lia.
Qed.

Lemma as_WBSessionKeyPacket_bytes (p : WBSessionKeyPacket) :
  length (session_key_nonce p) = sizeof_session_key_nonce ->
  length (session_key_data p) = sizeof_session_key_data ->
  session_key_nonce (as_WBSessionKeyPacket (WBSessionKeyPacket_bytes p)) = session_key_nonce p
  /\ session_key_data (as_WBSessionKeyPacket (WBSessionKeyPacket_bytes p)) = session_key_data p.
Proof.
  intros Hn Hd. unfold as_WBSessionKeyPacket, WBSessionKeyPacket_bytes.
  cbn [session_key_nonce session_key_data].
  rewrite <- Hn at 1 2. rewrite firstn_length_app, skipn_length_app.
  split; [reflexivity|]. rewrite <- Hd. apply firstn_length_app.
Qed.

(** *** The default keys *)

(** Without key files both sides derive their keys from
    [DEFAULT_ENCRYPTION_SEED].  The announcement the transmitter makes of a
    fresh session key then opens on the receiver: after
    [onNewPacketWfbKey] both hold the same session key, and the call
    reports a new session unless that key is the all-zero key the receiver
    started with. *)
Theorem default_keys_agree_on_the_session_key {S : Sodium} (B : BoxLaws S)
        (fs : filesystem) (e e' : Encryptor) (d : Decryptor)
        (random_key random_nonce : list byte) :
  Encryptor_ctor fs None = Returned e ->
  Decryptor_ctor fs None = Returned d ->
  size random_key = crypto_aead_chacha20poly1305_KEYBYTES ->
  size random_nonce = crypto_box_NONCEBYTES ->
  makeSessionKey e random_key random_nonce = Returned e' ->
  let announcement := WBSessionKeyPacket_bytes (sessionKeyPacket e') in
  enc_session_key e' = random_key
  /\ session_key (snd (onNewPacketWfbKey d announcement)) = enc_session_key e'
  /\ (fst (onNewPacketWfbKey d announcement) = true
      <-> random_key <> repeat 0 32%nat).
Proof.
  intros He Hd Hkey Hnonce Hmake. cbv zeta.
  unfold Encryptor_ctor in He. unfold Decryptor_ctor in Hd.
  destruct (crypto_box_seed_keypair DEFAULT_ENCRYPTION_SEED) as [pk sk].
  assert (He' : rx_publickey e = pk /\ tx_secretkey e = sk)
    by (injection He as <-; split; reflexivity).
  assert (Hd' : tx_publickey d = pk /\ rx_secretkey d = sk
                /\ session_key d = repeat 0 sizeof_session_key)
    by (injection Hd as <-; repeat split; reflexivity).
  clear He Hd. destruct He' as [Hepk Hesk]. destruct Hd' as (Hdpk & Hdsk & Hdkey).
  unfold makeSessionKey in Hmake. rewrite Hepk, Hesk in Hmake.
  destruct (crypto_box_easy random_key random_nonce pk sk) as [sealed|] eqn:Hbox;
    [|discriminate].
  pose proof (box_easy_length _ _ _ _ _ Hbox) as Hlen.
  pose proof (box_open_easy_box_easy _ _ _ _ _ Hbox) as Hopen.
  unfold size, crypto_aead_chacha20poly1305_KEYBYTES, crypto_box_NONCEBYTES,
    crypto_box_MACBYTES in *.
  assert (He' : enc_session_key e' = random_key
                /\ session_key_nonce (sessionKeyPacket e') = random_nonce
                /\ session_key_data (sessionKeyPacket e') = sealed)
    by (injection Hmake as <-; repeat split; reflexivity).
  clear Hmake. destruct He' as (Hek & Hen & Hed).
  split; [exact Hek|]. rewrite Hek.
  destruct (as_WBSessionKeyPacket_bytes (sessionKeyPacket e')) as [Hpn Hpd];
    [rewrite Hen; unfold sizeof_session_key_nonce; lia
    |rewrite Hed; unfold sizeof_session_key_data; lia|].
  assert (Hunseal : unseal_session_key d (WBSessionKeyPacket_bytes (sessionKeyPacket e'))
                    = Some random_key).
  { unfold unseal_session_key. rewrite Hpn, Hpd, Hen, Hed, Hdpk, Hdsk. exact Hopen. }
  assert (Hk32 : length random_key = sizeof_session_key)
    by (unfold sizeof_session_key, crypto_aead_chacha20poly1305_KEYBYTES; lia).
  assert (Hd32 : length (session_key d) = sizeof_session_key)
    by (rewrite Hdkey; apply repeat_length).
  destruct (onNewPacketWfbKey_cases d _ random_key Hunseal Hk32 Hd32)
    as [[Heq Hrun]|[Hne Hrun]]; rewrite Hrun; cbn [snd fst session_key].
  - split; [now symmetry|].
    split; [discriminate|]. intros Hnz. exfalso. apply Hnz.
    rewrite Heq, Hdkey. reflexivity.
  - split; [reflexivity|].
    split; [|reflexivity]. intros _ Hz. apply Hne. rewrite Hz, Hdkey. reflexivity.
Qed.

Lemma default_keys_agree_on_the_session_key_witness :
  session_key
    (snd (onNewPacketWfbKey (S := SodiumModel.sodium_model)
            Examples.fresh_decryptor Examples.announcement_A))
  = enc_session_key Examples.encryptor_A.
Proof.
  refine (proj1 (proj2 (default_keys_agree_on_the_session_key
            SodiumModelFacts.sodium_model_box_laws Examples.no_files
            _ Examples.encryptor_A Examples.fresh_decryptor
            Examples.session_key_A Examples.box_nonce_A _ _ _ _ _)));
    reflexivity.
Defined.

(** *** Lengths *)

(** A packet that [makeEncryptedPacketIncludingHeader] returns is the
    11 header bytes, in clear, and 16 bytes more than the payload behind
    them: were the cipher to report another length, the assertion fails and
    no packet is returned.  A payload of at most [MAX_PACKET_PAYLOAD_SIZE]
    bytes so fills at most [RAW_WIFI_FRAME_MAX_PAYLOAD_SIZE] bytes behind
    the header. *)
Theorem encrypted_packet_length {S : Sodium}
        (e : Encryptor) (H : WBDataHeader) (P packet : list byte) :
  sizeof_WBDataHeader + size P + crypto_aead_chacha20poly1305_ABYTES < SIZE_MAX_plus_1 ->
  makeEncryptedPacketIncludingHeader e H P = Returned packet ->
  size packet = sizeof_WBDataHeader + size P + crypto_aead_chacha20poly1305_ABYTES
  /\ firstn (Z.to_nat sizeof_WBDataHeader) packet = WBDataHeader_bytes H
  /\ (size P <= WBTxRx.MAX_PACKET_PAYLOAD_SIZE ->
      size packet - sizeof_WBDataHeader <= WBTxRx.RAW_WIFI_FRAME_MAX_PAYLOAD_SIZE).
Proof.
  intros Hfit Hrun. pose proof (size_nonneg P) as HP.
  unfold makeEncryptedPacketIncludingHeader in Hrun.
  unfold size_t_add, SIZE_MAX_plus_1, sizeof_WBDataHeader,
    crypto_aead_chacha20poly1305_ABYTES in *.
  rewrite (Z.mod_small (11 + size P)) in Hrun by lia.
  rewrite Z.mod_small in Hrun by lia.
  unfold vector_resize in Hrun.
  destruct (11 + size P + 16 >? vector_max_size); [discriminate|].
  destruct (Z.eqb_spec (size (repeat 0 (Z.to_nat (11 + size P + 16))))
                       (11 + size (run_encrypt (encrypt_call e H P)))) as [Hsz|];
    [|discriminate].
  assert (Hp : packet = WBDataHeader_bytes H ++ run_encrypt (encrypt_call e H P))
    by congruence.
  clear Hrun. subst packet.
  unfold size in Hsz at 1. rewrite repeat_length in Hsz.
  pose proof (length_WBDataHeader_bytes H) as HlenH.
  unfold sizeof_WBDataHeader in HlenH.
  assert (Hlen : size (WBDataHeader_bytes H ++ run_encrypt (encrypt_call e H P))
                 = 11 + size P + 16).
  { unfold size in *. rewrite length_app, HlenH. lia. }
  split; [exact Hlen|]. split.
  - rewrite <- HlenH. apply firstn_length_app.
  - unfold WBTxRx.MAX_PACKET_PAYLOAD_SIZE, WBTxRx.RAW_WIFI_FRAME_MAX_PAYLOAD_SIZE,
      crypto_aead_chacha20poly1305_ABYTES. lia.
Qed.

Lemma encrypted_packet_length_witness :
  exists packet,
    makeEncryptedPacketIncludingHeader (S := SodiumModel.sodium_model)
      Examples.encryptor_A Examples.header_7 Examples.payload_123 = Returned packet
    /\ size packet = 30.
Proof.
  eexists. split; [vm_compute; reflexivity|].
  refine (proj1 (encrypted_packet_length (S := SodiumModel.sodium_model)
                   Examples.encryptor_A Examples.header_7 Examples.payload_123 _ _ _));
    [vm_compute; reflexivity | vm_compute; reflexivity].
Defined.

(** Whatever [decryptPacket] returns as plaintext is 16 bytes shorter than
    the candidate it was given, which had at least 16 bytes, and is what the
    cipher returned for the header, its nonce and the session key. *)
Theorem decrypted_payload_length {S : Sodium}
        (d : Decryptor) (H : WBDataHeader) (c plain : list byte) :
  size c < SIZE_MAX_plus_1 ->
  decryptPacket d H c = Returned (Some plain) ->
  crypto_aead_chacha20poly1305_ABYTES <= size c
  /\ size plain = size c - crypto_aead_chacha20poly1305_ABYTES
  /\ run_decrypt (decrypt_call d H c) = Some plain.
Proof.
  intros Hfit Hrun. pose proof (size_nonneg c) as Hc.
  unfold decryptPacket in Hrun.
  unfold size_t_sub, SIZE_MAX_plus_1, crypto_aead_chacha20poly1305_ABYTES in *.
  destruct (Z.lt_ge_cases (size c) 16) as [Hshort|Hlong].
  - exfalso. pose proof (vector_resize_wrapped (size c)) as Hw.
    unfold size_t_sub, SIZE_MAX_plus_1, crypto_aead_chacha20poly1305_ABYTES in Hw.
    rewrite Hw in Hrun by lia. discriminate.
  - rewrite Z.mod_small in Hrun by lia.
    unfold vector_resize in Hrun.
    destruct (size c - 16 >? vector_max_size); [discriminate|].
    destruct (run_decrypt (decrypt_call d H c)) as [m|]; [|discriminate].
    destruct (Z.eqb_spec (size (repeat 0 (Z.to_nat (size c - 16)))) (size m)) as [Hsz|];
      [|discriminate].
    assert (Hp : plain = m) by congruence.
    clear Hrun. subst m.
    unfold size in Hsz at 1. rewrite repeat_length in Hsz.
    repeat split; lia.
Qed.

Lemma decrypted_payload_length_witness :
  exists c,
    decryptPacket (S := SodiumModel.sodium_model) Examples.decryptor_A Examples.header_7 c
    = Returned (Some Examples.payload_123)
    /\ size Examples.payload_123 = size c - crypto_aead_chacha20poly1305_ABYTES.
Proof.
  exists (run_encrypt (S := SodiumModel.sodium_model)
            (encrypt_call Examples.encryptor_A Examples.header_7 Examples.payload_123)).
  assert (Hrun : decryptPacket (S := SodiumModel.sodium_model)
                   Examples.decryptor_A Examples.header_7
                   (run_encrypt (S := SodiumModel.sodium_model)
                      (encrypt_call Examples.encryptor_A Examples.header_7
                                    Examples.payload_123))
                 = Returned (Some Examples.payload_123))
    by (vm_compute; reflexivity).
  split; [exact Hrun|].
  refine (proj1 (proj2 (decrypted_payload_length (S := SodiumModel.sodium_model)
                          Examples.decryptor_A Examples.header_7 _ _ _ Hrun))).
  vm_compute; reflexivity.
Defined.

End EncryptionFacts.

(* ------------------------------------------------------------------ *)
(** ** WBTransmitter.cpp *)

Module WBTransmitterFacts.

Import WBTransmitter.

Section Facts.

Context {C : Collaborators}.

Local Open Scope tx_scope.

(** *** Rules for running the methods *)

Lemma returns_ret {A : Type} (a : A) (t : WBTransmitter) Q :
  Q a t [] -> returns (ret a) t Q.
Proof. intros HQ. exists a, t, []. split; [reflexivity | exact HQ]. Qed.

Lemma returns_get (t : WBTransmitter) Q : Q t t [] -> returns get t Q.
Proof. intros HQ. exists t, t, []. split; [reflexivity | exact HQ]. Qed.

Lemma returns_modify (f : WBTransmitter -> WBTransmitter) (t : WBTransmitter) Q :
  Q tt (f t) [] -> returns (modify f) t Q.
Proof. intros HQ. exists tt, (f t), []. split; [reflexivity | exact HQ]. Qed.

Lemma returns_emit (e : event) (t : WBTransmitter) Q :
  Q tt t [e] -> returns (emit e) t Q.
Proof. intros HQ. exists tt, t, [e]. split; [reflexivity | exact HQ]. Qed.

Lemma returns_bind {A B : Type} (m : Tx A) (k : A -> Tx B) (t : WBTransmitter) Q :
  returns m t (fun a t1 ev1 =>
                 returns (k a) t1 (fun b t2 ev2 => Q b t2 (ev1 ++ ev2))) ->
  returns (bind m k) t Q.
Proof.
  intros (a & t1 & ev1 & Hm & b & t2 & ev2 & Hk & HQ).
  exists b, t2, (ev1 ++ ev2). split; [|exact HQ].
  unfold bind. now rewrite Hm, Hk.
Qed.

Lemma returns_when (b : bool) (m : Tx unit) (t : WBTransmitter) Q :
  (b = true -> returns m t Q) -> (b = false -> Q tt t []) -> returns (when b m) t Q.
Proof.
  intros Ht Hf. destruct b; simpl.
  - now apply Ht.
  - apply returns_ret. now apply Hf.
Qed.

Lemma returns_weaken {A : Type} (m : Tx A) (t : WBTransmitter)
      (P Q : A -> WBTransmitter -> list event -> Prop) :
  returns m t P -> (forall a t' ev, P a t' ev -> Q a t' ev) -> returns m t Q.
Proof.
  intros (a & t' & ev & Hm & HP) HPQ. exists a, t', ev. split; auto.
Qed.

Lemma returns_unique {A : Type} (m : Tx A) (t : WBTransmitter) Q a t' ev :
  returns m t Q -> m t = Returned (a, t', ev) -> Q a t' ev.
Proof. intros (a0 & t0 & ev0 & Hm & HQ) Hrun. congruence. Qed.

Ltac step :=
  first [ apply returns_bind
        | apply returns_modify
        | apply returns_get
        | apply returns_emit
        | apply returns_ret
        | apply returns_when; intros ].

Lemma timeline_app (ev1 ev2 : list event) :
  timeline (ev1 ++ ev2) = timeline ev1 ++ timeline ev2.
Proof. apply flat_map_app. Qed.

Lemma timeline_logged (message : string) (ev : list event) :
  timeline (Logged message :: ev) = timeline ev.
Proof. reflexivity. Qed.

(** *** The methods, one by one *)

Lemma sendPacket_spec (p : AbstractWBPacket) (t : WBTransmitter) :
  returns (sendPacket p) t
          (fun _ t' ev =>
             timeline ev = [Frame p]
             /\ untouched_by_sending t' = untouched_by_sending t
             /\ nInjectedSessionKeypackets t' = nInjectedSessionKeypackets t
             /\ nInjectedPackets t' = nInjectedPackets t + 1).
Proof.
  unfold sendPacket. cbv zeta.
  repeat step; cbn; repeat split; reflexivity.
Qed.

Lemma sendFecPrimaryOrSecondaryFragment_spec (n : Z) (payload : list byte)
      (t : WBTransmitter) :
  returns (sendFecPrimaryOrSecondaryFragment n payload) t
          (fun _ t' ev =>
             Forall is_data_frame (timeline ev)
             /\ untouched_by_sending t' = untouched_by_sending t
             /\ nInjectedSessionKeypackets t' = nInjectedSessionKeypackets t).
Proof.
  unfold sendFecPrimaryOrSecondaryFragment. cbv zeta.
  step. step. step. step.
  eapply returns_weaken; [apply sendPacket_spec|].
  cbn [app]. intros _ t' ev (Htl & Hsame & Hsk & _).
  rewrite Htl. repeat split; try assumption.
  constructor; [|constructor]. eexists; eexists; reflexivity.
Qed.

Lemma send_fragments_spec (fragments : list (Z * list byte)) (t : WBTransmitter) :
  returns (for_each fragments
                    (fun f => sendFecPrimaryOrSecondaryFragment (fst f) (snd f))) t
          (fun _ t' ev =>
             Forall is_data_frame (timeline ev)
             /\ untouched_by_sending t' = untouched_by_sending t
             /\ nInjectedSessionKeypackets t' = nInjectedSessionKeypackets t).
Proof.
  revert t; induction fragments as [|f fragments IH]; intros t; cbn [for_each].
  - step. repeat split. constructor.
  - step.
    eapply returns_weaken; [apply sendFecPrimaryOrSecondaryFragment_spec|].
    cbn beta. intros _ t1 ev1 (Hd1 & Hsame1 & Hsk1).
    eapply returns_weaken; [apply IH|].
    cbn beta. intros _ t2 ev2 (Hd2 & Hsame2 & Hsk2).
    rewrite timeline_app. repeat split; try congruence.
    apply Forall_app. now split.
Qed.

Lemma sendSessionKey_spec (t : WBTransmitter) :
  returns sendSessionKey t
          (fun _ t' ev =>
             timeline ev = [session_key_frame t]
             /\ untouched_by_sending t' = untouched_by_sending t
             /\ nInjectedSessionKeypackets t' = nInjectedSessionKeypackets t + 1
             /\ nInjectedPackets t' = nInjectedPackets t + 1).
Proof.
  unfold sendSessionKey. step. step. step.
  eapply returns_weaken; [apply sendPacket_spec|].
  cbn beta. intros _ t1 ev1 (Htl & Hsame & Hsk & Hn).
  step. cbn [app]. rewrite app_nil_r. repeat split; try assumption.
  cbn. now rewrite Hsk.
Qed.

Lemma untouched_parts (t t' : WBTransmitter) :
  untouched_by_sending t' = untouched_by_sending t ->
  settings t' = settings t
  /\ encoders t' = encoders t
  /\ session_key_announce_ts t' = session_key_announce_ts t
  /\ sessionKeyPacket t' = sessionKeyPacket t.
Proof.
  unfold untouched_by_sending. intros H.
  repeat split.
  - exact (f_equal (fun x => fst (fst (fst (fst x)))) H).
  - exact (f_equal (fun x => snd (fst (fst (fst x)))) H).
  - exact (f_equal (fun x => snd (fst (fst x))) H).
  - exact (f_equal snd H).
Qed.

Lemma encoder_ready_same (t t' : WBTransmitter) :
  settings t' = settings t -> encoders t' = encoders t ->
  encoder_ready t' = encoder_ready t.
Proof.
  unfold settings, encoders, encoder_ready. intros Hs He.
  injection Hs; injection He; intros.
  repeat match goal with H : _ t' = _ t |- _ => rewrite H; clear H end.
  reflexivity.
Qed.

Lemma nonce_overflow_same (buf : list byte) (t t' : WBTransmitter) :
  settings t' = settings t -> encoders t' = encoders t ->
  nonce_overflow buf t' = nonce_overflow buf t.
Proof.
  unfold settings, encoders, nonce_overflow, end_block_hint. intros Hs He.
  injection Hs; injection He; intros.
  repeat match goal with H : _ t' = _ t |- _ => rewrite H; clear H end.
  reflexivity.
Qed.

Lemma settings_counters (t t' : WBTransmitter) :
  settings t' = settings t ->
  IS_FEC_DISABLED t' = IS_FEC_DISABLED t
  /\ nInputPackets t' = nInputPackets t
  /\ count_bytes_data_provided t' = count_bytes_data_provided t.
Proof. unfold settings. intros Hs. injection Hs; intros. repeat split; assumption. Qed.

Lemma renew_session_key_spec (t : WBTransmitter) :
  returns renew_session_key t
          (fun _ t' ev =>
             ev = []
             /\ settings t' = settings t
             /\ encoders t' = encoders t
             /\ session_key_announce_ts t' = session_key_announce_ts t
             /\ nInjectedSessionKeypackets t' = nInjectedSessionKeypackets t
             /\ nInjectedPackets t' = nInjectedPackets t).
Proof.
  unfold renew_session_key. step.
  destruct (makeNewSessionKey (mEncryptor t)) as [enc [n d]].
  repeat split.
Qed.

Lemma announce_session_key_if_due_spec (cur_ts : Z) (t : WBTransmitter) :
  returns (announce_session_key_if_due cur_ts) t
          (fun _ t' ev =>
             let due := cur_ts >=? session_key_announce_ts t in
             timeline ev = (if due then [session_key_frame t] else [])
             /\ session_key_announce_ts t'
                = (if due then cur_ts + SESSION_KEY_ANNOUNCE_DELTA
                   else session_key_announce_ts t)
             /\ nInjectedSessionKeypackets t'
                = nInjectedSessionKeypackets t + Z.b2z due
             /\ settings t' = settings t
             /\ encoders t' = encoders t).
Proof.
  unfold announce_session_key_if_due. step. step. step.
  - step.
    eapply returns_weaken; [apply sendSessionKey_spec|].
    cbn beta. intros _ t1 ev1 (Htl & Hsame & Hsk & _).
    apply untouched_parts in Hsame. destruct Hsame as (Hset & Henc & _ & _).
    step. cbn [app]. rewrite app_nil_r.
    match goal with H : (_ >=? _) = true |- _ => rewrite H end.
    cbn [Z.b2z]. repeat split; assumption.
  - match goal with H : (_ >=? _) = false |- _ => rewrite H end.
    cbn [Z.b2z app timeline flat_map]. repeat split. lia.
Qed.

Lemma encode_and_send_spec (buf : list byte) (t : WBTransmitter) :
  encoder_ready t = true ->
  returns (encode_and_send buf) t
          (fun _ t' ev =>
             exists data,
               timeline ev
               = data ++ (if nonce_overflow buf t then [session_key_frame t'] else [])
               /\ Forall is_data_frame data
               /\ nInjectedSessionKeypackets t'
                  = nInjectedSessionKeypackets t + Z.b2z (nonce_overflow buf t)
               /\ session_key_announce_ts t' = session_key_announce_ts t
               /\ settings t' = settings t
               /\ encoder_ready t' = true).
Proof.
  intros Hready. unfold encode_and_send.
  step. step.
  pose proof Hready as Hready0.
  unfold encoder_ready in Hready0. unfold nonce_overflow.
  destruct (IS_FEC_DISABLED t) eqn:Hdis.
  - destruct (mFecDisabledEncoder t) as [enc|] eqn:Hdenc; [|discriminate].
    destruct (FECDisabledEncoder_encodePacket enc buf) as [enc' fragments].
    step. step.
    set (t0 := set_mFecDisabledEncoder (Some enc') t).
    eapply returns_weaken; [apply send_fragments_spec|].
    cbn beta. intros _ t1 ev1 (Hd & Hsame & Hsk).
    apply untouched_parts in Hsame. destruct Hsame as (Hset & Henc & Hts & _).
    exists (timeline ev1). cbn [app Z.b2z].
    rewrite app_nil_r, Z.add_0_r.
    repeat split; try assumption.
    rewrite (encoder_ready_same t0 t1 Hset Henc).
    unfold encoder_ready, t0. cbn. now rewrite Hdis.
  - destruct (mFecEncoder t) as [enc|] eqn:Hfenc; [|discriminate].
    cbv zeta.
    destruct (FECEncoder_encodePacket enc buf (end_block_hint buf t))
      as [enc1 fragments]. cbn [fst].
    step. step. step.
    set (t0 := set_mFecEncoder (Some enc1) t).
    eapply returns_weaken; [apply send_fragments_spec|].
    cbn beta. intros _ t1 ev1 (Hd & Hsame & Hsk).
    apply untouched_parts in Hsame. destruct Hsame as (Hset & Henc & Hts & _).
    destruct (FECEncoder_resetOnOverflow enc1) as [overflow enc2]. cbn [fst].
    step. step.
    set (t2 := set_mFecEncoder (Some enc2) t1).
    assert (Hset2 : settings t2 = settings t) by exact Hset.
    assert (Hready2 : encoder_ready t2 = true).
    { apply settings_counters in Hset2. destruct Hset2 as (Hd2 & _ & _).
      unfold encoder_ready. rewrite Hd2, Hdis. reflexivity. }
    step.
    + subst overflow. step.
      eapply returns_weaken; [apply renew_session_key_spec|].
      cbn beta. intros _ t3 ev3 (-> & Hset3 & Henc3 & Hts3 & Hsk3 & _).
      eapply returns_weaken; [apply sendSessionKey_spec|].
      cbn beta. intros _ t4 ev4 (Htl4 & Hsame4 & Hsk4 & _).
      apply untouched_parts in Hsame4.
      destruct Hsame4 as (Hset4 & Henc4 & Hts4 & Hpkt4).
      exists (timeline ev1). cbn [app Z.b2z].
      rewrite !timeline_app, Htl4. cbn [timeline flat_map app].
      unfold session_key_frame. rewrite Hpkt4.
      repeat split; try assumption.
      * rewrite Hsk4, Hsk3. change (nInjectedSessionKeypackets t2)
          with (nInjectedSessionKeypackets t1). now rewrite Hsk.
      * rewrite Hts4, Hts3. exact Hts.
      * congruence.
      * rewrite (encoder_ready_same t3 t4 Hset4 Henc4).
        now rewrite (encoder_ready_same t2 t3 Hset3 Henc3).
    + subst overflow.
      exists (timeline ev1). cbn [app Z.b2z].
      rewrite !app_nil_r, Z.add_0_r.
      repeat split; assumption.
Qed.

(** A packet of incompatible size: [feedPacket] logs and returns. *)
Lemma feedPacket_rejected (cur_ts : Z) (buf : list byte) (t : WBTransmitter) :
  incompatible_size (size buf) = true ->
  feedPacket cur_ts buf t
  = Returned (tt, t, [Logged "Fed packet with incompatible size:"]).
Proof. intros Hsize. unfold feedPacket. now rewrite Hsize. Qed.

(** A packet of compatible size: what [feedPacket] sends and how it leaves
    the schedule. *)
Lemma feedPacket_accepted (cur_ts : Z) (buf : list byte) (t : WBTransmitter) :
  incompatible_size (size buf) = false ->
  encoder_ready t = true ->
  returns (feedPacket cur_ts buf) t
          (fun _ t' ev =>
             let due := cur_ts >=? session_key_announce_ts t in
             let rekey := nonce_overflow buf t in
             exists data,
               timeline ev
               = (if due then [session_key_frame t] else [])
                   ++ data
                   ++ (if rekey then [session_key_frame t'] else [])
               /\ Forall is_data_frame data
               /\ session_key_announce_ts t'
                  = (if due then cur_ts + SESSION_KEY_ANNOUNCE_DELTA
                     else session_key_announce_ts t)
               /\ nInjectedSessionKeypackets t'
                  = nInjectedSessionKeypackets t + Z.b2z due + Z.b2z rekey
               /\ nInputPackets t' = nInputPackets t + 1
               /\ count_bytes_data_provided t' = count_bytes_data_provided t + size buf
               /\ encoder_ready t' = true).
Proof.
  intros Hsize Hready. unfold feedPacket. rewrite Hsize.
  step. step. step.
  set (t0 := set_count_bytes_data_provided _ t).
  eapply returns_weaken; [apply announce_session_key_if_due_spec|].
  cbn beta zeta. intros _ t1 ev1 (Htl1 & Hts1 & Hsk1 & Hset1 & Henc1).
  assert (Hready1 : encoder_ready t1 = true).
  { rewrite (encoder_ready_same t0 t1 Hset1 Henc1). exact Hready. }
  assert (Hover : nonce_overflow buf t1 = nonce_overflow buf t).
  { rewrite (nonce_overflow_same buf t0 t1 Hset1 Henc1). reflexivity. }
  step.
  eapply returns_weaken; [apply (encode_and_send_spec buf t1 Hready1)|].
  cbn beta. intros _ t2 ev2 (data & Htl2 & Hdata & Hsk2 & Hts2 & Hset2 & Hready2).
  step. exists data. cbn [app]. rewrite app_nil_r, timeline_app, Htl1, Htl2, Hover.
  apply settings_counters in Hset1. destruct Hset1 as (_ & Hn1 & Hc1).
  apply settings_counters in Hset2. destruct Hset2 as (_ & Hn2 & Hc2).
  change (session_key_announce_ts t0) with (session_key_announce_ts t) in *.
  change (nInjectedSessionKeypackets t0) with (nInjectedSessionKeypackets t) in *.
  change (session_key_frame t0) with (session_key_frame t).
  change (nInputPackets t0) with (nInputPackets t) in *.
  change (count_bytes_data_provided t0)
    with (count_bytes_data_provided t + size buf) in *.
  repeat split.
  - exact Hdata.
  - cbn. congruence.
  - cbn. rewrite Hsk2, Hsk1, Hover. reflexivity.
  - cbn. congruence.
  - cbn. congruence.
  - exact Hready2.
Qed.

Lemma update_mcs_index_spec (mcs_index : Z) (t : WBTransmitter) :
  returns (update_mcs_index mcs_index) t
          (fun _ t' ev =>
             ev = []
             /\ untouched_by_sending t' = untouched_by_sending t
             /\ nInjectedSessionKeypackets t' = nInjectedSessionKeypackets t
             /\ nInjectedPackets t' = nInjectedPackets t).
Proof. unfold update_mcs_index. repeat step. repeat split. Qed.

Lemma startup_announcements_spec (n : nat) (t : WBTransmitter) :
  returns (for_loop n (sendSessionKey ;; emit (SleptFor 10))) t
          (fun _ t' ev =>
             timeline ev = concat (repeat [session_key_frame t; Pause 10] n)
             /\ untouched_by_sending t' = untouched_by_sending t
             /\ nInjectedSessionKeypackets t'
                = nInjectedSessionKeypackets t + Z.of_nat n
             /\ nInjectedPackets t' = nInjectedPackets t + Z.of_nat n).
Proof.
  revert t; induction n as [|n IH]; intros t; cbn [for_loop].
  - step. cbn. repeat split; lia.
  - step. step.
    eapply returns_weaken; [apply sendSessionKey_spec|].
    cbn beta. intros _ t1 ev1 (Htl1 & Hsame1 & Hsk1 & Hn1).
    step.
    eapply returns_weaken; [apply IH|].
    cbn beta. intros _ t2 ev2 (Htl2 & Hsame2 & Hsk2 & Hn2).
    rewrite !timeline_app, Htl1, Htl2.
    assert (Hframe : session_key_frame t1 = session_key_frame t).
    { apply untouched_parts in Hsame1. destruct Hsame1 as (_ & _ & _ & Hpkt).
      unfold session_key_frame. now rewrite Hpkt. }
    rewrite Hframe. repeat split.
    + congruence.
    + lia.
    + lia.
Qed.

Lemma constructor_body_spec (now : Z) (radioTapHeaderParams : UserSelectableParams)
      (options1 : TOptions) (encryptor0 : encryptor)
      (input_type : FEC_VARIABLE_INPUT_TYPE) :
  returns (constructor_body now)
          (initial radioTapHeaderParams options1 encryptor0 input_type)
          (fun _ t ev =>
             timeline ev = concat (repeat [session_key_frame t; Pause 10] 5)
             /\ nInjectedSessionKeypackets t = 5
             /\ nInjectedPackets t = 5
             /\ session_key_announce_ts t = now + SESSION_KEY_ANNOUNCE_DELTA
             /\ encoder_ready t = true).
Proof.
  unfold constructor_body.
  set (t0 := initial radioTapHeaderParams options1 encryptor0 input_type).
  step.
  eapply returns_weaken; [apply renew_session_key_spec|].
  cbn beta. intros _ t1 ev1 (-> & Hset1 & Henc1 & _ & Hsk1 & Hn1).
  step. step. step.
  eapply (returns_weaken _ _
            (fun _ t2 ev2 =>
               ev2 = [] /\ encoder_ready t2 = true
               /\ nInjectedSessionKeypackets t2 = 0 /\ nInjectedPackets t2 = 0)).
  { destruct (IS_FEC_DISABLED t1) eqn:Hdis.
    - step. unfold encoder_ready. cbn. rewrite Hdis. repeat split; assumption.
    - step. step. step. unfold encoder_ready. cbn. rewrite Hdis.
      repeat split; assumption. }
  cbn beta. intros _ t2 ev2 (-> & Hready2 & Hsk2 & Hn2).
  step. step. step. step. step. step. step.
  set (t3 := set_sessionKeyPacket _ t2).
  eapply returns_weaken; [apply startup_announcements_spec|].
  cbn beta. intros _ t4 ev4 (Htl4 & Hsame4 & Hsk4 & Hn4).
  step. cbn [app]. rewrite app_nil_r.
  apply untouched_parts in Hsame4. destruct Hsame4 as (Hset4 & Henc4 & _ & Hpkt4).
  repeat split.
  - rewrite !timeline_logged, Htl4.
    change (session_key_frame (set_session_key_announce_ts _ t4))
      with (session_key_frame t4).
    unfold session_key_frame. now rewrite Hpkt4.
  - change (nInjectedSessionKeypackets t4 = 5). rewrite Hsk4.
    change (nInjectedSessionKeypackets t3) with (nInjectedSessionKeypackets t2).
    now rewrite Hsk2.
  - change (nInjectedPackets t4 = 5). rewrite Hn4.
    change (nInjectedPackets t3) with (nInjectedPackets t2).
    now rewrite Hn2.
  - change (encoder_ready t4 = true).
    rewrite (encoder_ready_same t3 t4 Hset4 Henc4). exact Hready2.
Qed.

(** After an announcement the next one is at least
    [SESSION_KEY_ANNOUNCE_DELTA] later. *)
Lemma announcements_are_spaced (cur_ts1 cur_ts2 : Z) (buf1 : list byte)
      (t t1 : WBTransmitter) (ev1 : list event) :
  incompatible_size (size buf1) = false ->
  encoder_ready t = true ->
  feedPacket cur_ts1 buf1 t = Returned (tt, t1, ev1) ->
  (cur_ts1 >=? session_key_announce_ts t) = true ->
  cur_ts2 < cur_ts1 + SESSION_KEY_ANNOUNCE_DELTA ->
  (cur_ts2 >=? session_key_announce_ts t1) = false.
Proof.
  intros Hsize Hready Hrun Hdue Hsoon.
  pose proof (returns_unique _ _ _ _ _ _
                (feedPacket_accepted cur_ts1 buf1 t Hsize Hready) Hrun) as Hspec.
  cbv zeta in Hspec. destruct Hspec as (data & _ & _ & Hts & _).
  rewrite Hdue in Hts. rewrite Hts.
  destruct (Z.geb_spec cur_ts2 (cur_ts1 + SESSION_KEY_ANNOUNCE_DELTA)); [lia|reflexivity].
Qed.

(** However the caller feeds packets, every call returns, and the session
    key goes out at most twice per call: no call, no session key. *)
Lemma session_keys_only_while_fed (calls : list (Z * list byte)) (t : WBTransmitter) :
  encoder_ready t = true ->
  returns (feed_all calls) t
          (fun _ t' ev =>
             encoder_ready t' = true
             /\ nInjectedSessionKeypackets t <= nInjectedSessionKeypackets t'
                <= nInjectedSessionKeypackets t + 2 * Z.of_nat (length calls)).
Proof.
  unfold feed_all. revert t; induction calls as [|[cur_ts buf] calls IH];
    intros t Hready; cbn [for_each fst snd].
  - step. cbn. split; [assumption | lia].
  - step. destruct (incompatible_size (size buf)) eqn:Hsize.
    + exists tt, t, [Logged "Fed packet with incompatible size:"].
      split; [now apply feedPacket_rejected|].
      eapply returns_weaken; [apply (IH t Hready)|].
      cbn beta. intros _ t' ev (Hready' & Hsk).
      split; [assumption|]. cbn [length]. lia.
    + eapply returns_weaken; [apply (feedPacket_accepted cur_ts buf t Hsize Hready)|].
      cbn beta zeta. intros _ t1 ev1 (data & _ & _ & _ & Hsk1 & _ & _ & Hready1).
      eapply returns_weaken; [apply (IH t1 Hready1)|].
      cbn beta. intros _ t' ev (Hready' & Hsk).
      split; [assumption|]. cbn [length].
      destruct (cur_ts >=? session_key_announce_ts t);
        destruct (nonce_overflow buf t); cbn [Z.b2z] in Hsk1; lia.
Qed.

(** *** The session key schedule *)

(** C6, as amended.  The constructor sends the session key five times, a
    10 ms pause after each.  A call of [feedPacket] that passes the size
    check starts with one announcement exactly when [cur_ts] has reached
    [session_key_announce_ts], which then becomes
    [cur_ts + SESSION_KEY_ANNOUNCE_DELTA]; it sends one more session key
    frame, at its end, exactly when the encoder reports a nonce overflow;
    all its other frames carry data.  A call that fails the size check sends
    nothing, whatever the clock says, and [update_mcs_index] sends nothing. *)
Theorem session_key_announcement_schedule :
  (forall radioTapHeaderParams options1 now encryptor0 input_type,
      Encryptor_new (keypair options1) = Returned encryptor0 ->
      convert options1 = Returned input_type ->
      exists t ev,
        WBTransmitter_new radioTapHeaderParams options1 now = Returned (t, ev)
        /\ timeline ev = concat (repeat [session_key_frame t; Pause 10] 5)
        /\ nInjectedSessionKeypackets t = 5
        /\ session_key_announce_ts t = now + SESSION_KEY_ANNOUNCE_DELTA
        /\ encoder_ready t = true)
  /\ (forall cur_ts buf t,
         encoder_ready t = true ->
         exists t' ev,
           feedPacket cur_ts buf t = Returned (tt, t', ev)
           /\ if incompatible_size (size buf) then
                t' = t /\ timeline ev = []
              else
                let due := cur_ts >=? session_key_announce_ts t in
                let rekey := nonce_overflow buf t in
                exists data,
                  timeline ev
                  = (if due then [session_key_frame t] else [])
                      ++ data
                      ++ (if rekey then [session_key_frame t'] else [])
                  /\ Forall is_data_frame data
                  /\ session_key_announce_ts t'
                     = (if due then cur_ts + SESSION_KEY_ANNOUNCE_DELTA
                        else session_key_announce_ts t)
                  /\ nInjectedSessionKeypackets t'
                     = nInjectedSessionKeypackets t + Z.b2z due + Z.b2z rekey
                  /\ encoder_ready t' = true)
  /\ (forall mcs_index t,
         exists t',
           update_mcs_index mcs_index t = Returned (tt, t', [])
           /\ nInjectedSessionKeypackets t' = nInjectedSessionKeypackets t
           /\ session_key_announce_ts t' = session_key_announce_ts t).
Proof.
  split; [|split].
  - intros params options1 now encryptor0 input_type Henc Hconv.
    destruct (constructor_body_spec now params options1 encryptor0 input_type)
      as ([] & t & ev & Hrun & Htl & Hsk & _ & Hts & Hready).
    exists t, ev. unfold WBTransmitter_new. rewrite Henc, Hconv, Hrun.
    repeat split; assumption.
  - intros cur_ts buf t Hready.
    destruct (incompatible_size (size buf)) eqn:Hsize.
    + exists t, [Logged "Fed packet with incompatible size:"].
      split; [now apply feedPacket_rejected|]. split; reflexivity.
    + destruct (feedPacket_accepted cur_ts buf t Hsize Hready)
        as ([] & t' & ev & Hrun & data & Htl & Hdata & Hts & Hsk & _ & _ & Hready').
      exists t', ev. split; [exact Hrun|].
      exists data. repeat split; assumption.
  - intros mcs_index t.
    destruct (update_mcs_index_spec mcs_index t)
      as ([] & t' & ev & Hrun & -> & Hsame & Hsk & _).
    exists t'. split; [exact Hrun|]. split; [exact Hsk|].
    apply untouched_parts in Hsame. tauto.
Qed.

(** *** Packets of incompatible size *)

(** C7.  A packet that is empty or longer than [FEC_MAX_PAYLOAD_SIZE] is
    rejected: [feedPacket] returns the transmitter as it was, every field
    and counter included, and nothing is sent; the one effect is the line in
    the log. *)
Theorem feedPacket_rejection_is_atomic
        (cur_ts : Z) (buf : list byte) (t : WBTransmitter) :
  size buf <= 0 \/ size buf > FEC_MAX_PAYLOAD_SIZE ->
  exists ev,
    feedPacket cur_ts buf t = Returned (tt, t, ev)
    /\ injected_packets ev = []
    /\ timeline ev = []
    /\ (forall e, In e ev -> exists message, e = Logged message).
Proof.
  intros Hsize.
  assert (Hrej : incompatible_size (size buf) = true).
  { unfold incompatible_size. apply orb_true_iff.
    destruct Hsize; [left; now apply Z.leb_le | right; apply Z.gtb_lt; lia]. }
  exists [Logged "Fed packet with incompatible size:"].
  split; [now apply feedPacket_rejected|].
  repeat split.
  intros e [<- | []]. now eexists.
Qed.

End Facts.

Lemma session_key_announcement_schedule_witness :
  encoder_ready (C := Examples.loopback) Examples.transmitter_A = true
  /\ exists t' ev,
       feedPacket (C := Examples.loopback) 1200 [1; 2; 3] Examples.transmitter_A
       = Returned (tt, t', ev)
       /\ session_key_announce_ts t' = 2200
       /\ nInjectedSessionKeypackets t' = 6.
Proof.
  assert (Hready : encoder_ready (C := Examples.loopback) Examples.transmitter_A = true)
    by (vm_compute; reflexivity).
  split; [exact Hready|].
  destruct (proj1 (proj2 (session_key_announcement_schedule (C := Examples.loopback)))
              1200 [1; 2; 3] Examples.transmitter_A Hready)
    as (t' & ev & Hrun & Hrest).
  exists t', ev. split; [exact Hrun|].
  change (incompatible_size (C := Examples.loopback) (size [1; 2; 3])) with false in Hrest.
  cbv zeta in Hrest.
  destruct Hrest as (data & _ & _ & Hts & Hsk & _).
  split.
  - rewrite Hts. vm_compute. reflexivity.
  - rewrite Hsk. vm_compute. reflexivity.
Defined.

(** C6, as stated, fails: the clock has passed [session_key_announce_ts],
    yet a call of [feedPacket] with an empty packet announces nothing and
    leaves the time stamp where it was. *)
Lemma no_announcement_for_rejected_packet :
  (5000 >=? session_key_announce_ts (C := Examples.loopback) Examples.transmitter_A) = true
  /\ exists ev,
       feedPacket (C := Examples.loopback) 5000 [] Examples.transmitter_A
       = Returned (tt, Examples.transmitter_A, ev)
       /\ timeline ev = [].
Proof.
  split; [vm_compute; reflexivity|].
  exists [Logged "Fed packet with incompatible size:"].
  split; reflexivity.
Qed.

Lemma feedPacket_rejection_is_atomic_witness :
  size (repeat 0 1458%nat) > FEC_MAX_PAYLOAD_SIZE (Collaborators := Examples.loopback)
  /\ exists ev,
       feedPacket (C := Examples.loopback) 5000 (repeat 0 1458%nat) Examples.transmitter_A
       = Returned (tt, Examples.transmitter_A, ev)
       /\ injected_packets ev = [].
Proof.
  assert (Hbig : size (repeat 0 1458%nat)
                 > FEC_MAX_PAYLOAD_SIZE (Collaborators := Examples.loopback))
    by (vm_compute; reflexivity).
  split; [exact Hbig|].
  destruct (feedPacket_rejection_is_atomic (C := Examples.loopback)
              5000 (repeat 0 1458%nat) Examples.transmitter_A (or_intror Hbig))
    as (ev & Hrun & Hinj & _).
  exists ev. split; assumption.
Defined.

(** *** Relations that every method keeps *)

Section Respects.

Context {C : Collaborators}.

Local Open Scope tx_scope.

Variable R : WBTransmitter -> WBTransmitter -> list event -> Prop.

Hypothesis R_trans :
  forall t t1 t2 ev1 ev2, R t t1 ev1 -> R t1 t2 ev2 -> R t t2 (ev1 ++ ev2).
Hypothesis R_quiet :
  forall t t', sending_state t' = sending_state t -> R t t' [].
Hypothesis R_log : forall t message, R t t [Logged message].
Hypothesis R_sendPacket : forall p, respects R (sendPacket p).
Hypothesis R_sendSessionKey : respects R sendSessionKey.
Hypothesis R_renew : respects R renew_session_key.

Lemma respects_ret {A : Type} (a : A) : respects R (ret a).
Proof. intros t a' t' ev [= _ <- <-]. now apply R_quiet. Qed.

Lemma respects_get : respects R get.
Proof. intros t a' t' ev [= _ <- <-]. now apply R_quiet. Qed.

Lemma respects_null_dereference {A : Type} : respects R (@null_dereference C A).
Proof. intros t a t' ev H. discriminate H. Qed.

Lemma respects_modify (f : WBTransmitter -> WBTransmitter) :
  (forall t, sending_state (f t) = sending_state t) -> respects R (modify f).
Proof. intros Hf t a t' ev [= _ <- <-]. apply R_quiet, Hf. Qed.

Lemma respects_log (message : string) : respects R (emit (Logged message)).
Proof. intros t a t' ev [= _ <- <-]. apply R_log. Qed.

Lemma respects_bind {A B : Type} (m : Tx A) (k : A -> Tx B) :
  respects R m -> (forall a, respects R (k a)) -> respects R (bind m k).
Proof.
  intros Hm Hk t b t2 ev Hrun. unfold bind in Hrun.
  destruct (m t) as [[[a t1] ev1]| | |] eqn:Hmt; try discriminate.
  destruct (k a t1) as [[[b' t2'] ev2]| | |] eqn:Hkt; try discriminate.
  injection Hrun as _ <- <-.
  eapply R_trans; [eapply Hm | eapply Hk]; eassumption.
Qed.

Lemma respects_when (b : bool) (m : Tx unit) : respects R m -> respects R (when b m).
Proof. intros Hm. destruct b; [exact Hm | apply respects_ret]. Qed.

Lemma respects_for_each {A : Type} (xs : list A) (f : A -> Tx unit) :
  (forall x, respects R (f x)) -> respects R (for_each xs f).
Proof.
  intros Hf. induction xs as [|x xs IH]; cbn [for_each].
  - apply respects_ret.
  - apply respects_bind; [apply Hf | intros _; exact IH].
Qed.

Lemma sendFecPrimaryOrSecondaryFragment_respects (n : Z) (payload : list byte) :
  respects R (sendFecPrimaryOrSecondaryFragment n payload).
Proof.
  unfold sendFecPrimaryOrSecondaryFragment.
  apply respects_bind; [apply respects_get | intros t0].
  apply respects_bind; [apply respects_modify; reflexivity | intros _].
  apply R_sendPacket.
Qed.

Lemma announce_session_key_if_due_respects (cur_ts : Z) :
  respects R (announce_session_key_if_due cur_ts).
Proof.
  unfold announce_session_key_if_due.
  apply respects_bind; [apply respects_get | intros t0].
  apply respects_when.
  apply respects_bind; [apply R_sendSessionKey | intros _].
  apply respects_modify; reflexivity.
Qed.

Lemma encode_and_send_respects (buf : list byte) : respects R (encode_and_send buf).
Proof.
  unfold encode_and_send.
  apply respects_bind; [apply respects_get | intros t0].
  destruct (IS_FEC_DISABLED t0).
  - destruct (mFecDisabledEncoder t0) as [enc|]; [|apply respects_null_dereference].
    destruct (FECDisabledEncoder_encodePacket enc buf) as [enc' fragments].
    apply respects_bind; [apply respects_modify; reflexivity | intros _].
    apply respects_for_each. intros f. apply sendFecPrimaryOrSecondaryFragment_respects.
  - destruct (mFecEncoder t0) as [enc|]; [|apply respects_null_dereference].
    cbv zeta.
    destruct (FECEncoder_encodePacket enc buf (end_block_hint buf t0)) as [enc1 fragments].
    apply respects_bind; [apply respects_modify; reflexivity | intros _].
    apply respects_bind;
      [apply respects_for_each; intros f; apply sendFecPrimaryOrSecondaryFragment_respects
      | intros _].
    destruct (FECEncoder_resetOnOverflow enc1) as [overflow enc2].
    apply respects_bind; [apply respects_modify; reflexivity | intros _].
    apply respects_when.
    apply respects_bind; [apply R_renew | intros _; apply R_sendSessionKey].
Qed.

Lemma feedPacket_respects (cur_ts : Z) (buf : list byte) :
  respects R (feedPacket cur_ts buf).
Proof.
  unfold feedPacket. destruct (incompatible_size (size buf)).
  - apply respects_log.
  - apply respects_bind; [apply respects_modify; reflexivity | intros _].
    apply respects_bind; [apply announce_session_key_if_due_respects | intros _].
    apply respects_bind; [apply encode_and_send_respects | intros _].
    apply respects_modify; reflexivity.
Qed.

Lemma feed_all_respects (calls : list (Z * list byte)) : respects R (feed_all calls).
Proof.
  unfold feed_all. apply respects_for_each. intros c. apply feedPacket_respects.
Qed.

End Respects.

Section Invariants.

Context {C : Collaborators}.

Local Open Scope tx_scope.

Ltac run :=
  first [ apply returns_bind
        | apply returns_modify
        | apply returns_get
        | apply returns_emit
        | apply returns_ret
        | apply returns_when; intros ].

(** What [sendPacket] does, member by member. *)
Lemma sendPacket_returns (p : AbstractWBPacket) (t : WBTransmitter) :
  returns (sendPacket p) t
    (fun _ t' ev =>
       injected_packets ev = [p]
       /\ injected_headers ev
          = [(mRadiotapHeader t,
              writeParams (mIeee80211Header t) (radio_port (options t)) (ieee80211_seq t))]
       /\ (options t' = options t /\ mEncryptor t' = mEncryptor t
           /\ sessionKeyPacket t' = sessionKeyPacket t)
       /\ (_radioTapHeaderParams t' = _radioTapHeaderParams t
           /\ mRadiotapHeader t' = mRadiotapHeader t)
       /\ (mIeee80211Header t'
           = writeParams (mIeee80211Header t) (radio_port (options t)) (ieee80211_seq t)
           /\ ieee80211_seq t' = (ieee80211_seq t + 16) mod 2 ^ 16)
       /\ (count_bytes_data_injected t' = count_bytes_data_injected t + payloadSize p
           /\ nInjectedPackets t' = nInjectedPackets t + 1
           /\ nInjectedSessionKeypackets t' = nInjectedSessionKeypackets t)).
Proof.
  unfold sendPacket. cbv zeta.
  repeat run; cbn; repeat split; reflexivity.
Qed.

Lemma sendPacket_effect (p : AbstractWBPacket) (t t' : WBTransmitter)
      (a : unit) (ev : list event) :
  sendPacket p t = Returned (a, t', ev) ->
  injected_packets ev = [p]
  /\ injected_headers ev
     = [(mRadiotapHeader t,
         writeParams (mIeee80211Header t) (radio_port (options t)) (ieee80211_seq t))]
  /\ (options t' = options t /\ mEncryptor t' = mEncryptor t
      /\ sessionKeyPacket t' = sessionKeyPacket t)
  /\ (_radioTapHeaderParams t' = _radioTapHeaderParams t
      /\ mRadiotapHeader t' = mRadiotapHeader t)
  /\ (mIeee80211Header t'
      = writeParams (mIeee80211Header t) (radio_port (options t)) (ieee80211_seq t)
      /\ ieee80211_seq t' = (ieee80211_seq t + 16) mod 2 ^ 16)
  /\ (count_bytes_data_injected t' = count_bytes_data_injected t + payloadSize p
      /\ nInjectedPackets t' = nInjectedPackets t + 1
      /\ nInjectedSessionKeypackets t' = nInjectedSessionKeypackets t).
Proof.
  intros Hrun.
  exact (returns_unique _ _ _ _ _ _ (sendPacket_returns p t) Hrun).
Qed.

Lemma sendSessionKey_effect (t t' : WBTransmitter) (a : unit) (ev : list event) :
  sendSessionKey t = Returned (a, t', ev) ->
  exists t1,
    sendPacket (packet_of_session_key (sessionKeyPacket t)) t = Returned (tt, t1, ev)
    /\ t' = set_nInjectedSessionKeypackets (nInjectedSessionKeypackets t1 + 1) t1.
Proof.
  unfold sendSessionKey, bind, get, modify. 
  destruct (sendPacket (packet_of_session_key (sessionKeyPacket t)) t)
    as [[[[] t1] ev1]| | |]; try discriminate.
  intros [= _ <- <-]. exists t1. cbn [app]. rewrite !app_nil_r. split; reflexivity.
Qed.

Lemma renew_session_key_effect (t t' : WBTransmitter) (a : unit) (ev : list event) :
  renew_session_key t = Returned (a, t', ev) ->
  ev = []
  /\ makeNewSessionKey (mEncryptor t) = (mEncryptor t', announced_key t')
  /\ IS_FEC_ENABLED (sessionKeyPacket t') = IS_FEC_ENABLED (sessionKeyPacket t)
  /\ MAX_N_FRAGMENTS_PER_BLOCK (sessionKeyPacket t')
     = MAX_N_FRAGMENTS_PER_BLOCK (sessionKeyPacket t)
  /\ options t' = options t
  /\ (_radioTapHeaderParams t', mRadiotapHeader t', mIeee80211Header t', ieee80211_seq t')
     = (_radioTapHeaderParams t, mRadiotapHeader t, mIeee80211Header t, ieee80211_seq t)
  /\ (count_bytes_data_injected t', nInjectedPackets t', nInjectedSessionKeypackets t')
     = (count_bytes_data_injected t, nInjectedPackets t, nInjectedSessionKeypackets t).
Proof.
  unfold renew_session_key, modify. intros [= _ <- <-].
  destruct (makeNewSessionKey (mEncryptor t)) as [enc [n d]].
  repeat split.
Qed.

(** *** The counters follow the frames *)

Lemma injected_packets_app (ev1 ev2 : list event) :
  injected_packets (ev1 ++ ev2) = injected_packets ev1 ++ injected_packets ev2.
Proof. apply flat_map_app. Qed.

Lemma injected_headers_app (ev1 ev2 : list event) :
  injected_headers (ev1 ++ ev2) = injected_headers ev1 ++ injected_headers ev2.
Proof. apply flat_map_app. Qed.

Lemma payload_bytes_app (ps1 ps2 : list AbstractWBPacket) :
  payload_bytes (ps1 ++ ps2) = payload_bytes ps1 + payload_bytes ps2.
Proof.
  unfold payload_bytes.
  induction ps1 as [|p ps1 IH]; cbn [app fold_right]; [lia | rewrite IH; lia].
Qed.

Lemma sending_state_parts (t t' : WBTransmitter) :
  sending_state t' = sending_state t ->
  (options t' = options t /\ mEncryptor t' = mEncryptor t
   /\ sessionKeyPacket t' = sessionKeyPacket t)
  /\ (_radioTapHeaderParams t' = _radioTapHeaderParams t
      /\ mRadiotapHeader t' = mRadiotapHeader t)
  /\ (mIeee80211Header t' = mIeee80211Header t /\ ieee80211_seq t' = ieee80211_seq t)
  /\ (count_bytes_data_injected t' = count_bytes_data_injected t
      /\ nInjectedPackets t' = nInjectedPackets t
      /\ nInjectedSessionKeypackets t' = nInjectedSessionKeypackets t).
Proof.
  unfold sending_state. intros H. injection H; intros. repeat split; assumption.
Qed.

Lemma accounted_trans (t t1 t2 : WBTransmitter) (ev1 ev2 : list event) :
  accounted t t1 ev1 -> accounted t1 t2 ev2 -> accounted t t2 (ev1 ++ ev2).
Proof.
  unfold accounted. intros (Hn1 & Hb1 & Hk1) (Hn2 & Hb2 & Hk2).
  rewrite injected_packets_app, length_app, payload_bytes_app. lia.
Qed.

Lemma accounted_quiet (t t' : WBTransmitter) :
  sending_state t' = sending_state t -> accounted t t' [].
Proof.
  intros H. apply sending_state_parts in H.
  destruct H as (_ & _ & _ & Hb & Hn & Hk).
  unfold accounted. cbn. lia.
Qed.

Lemma accounted_log (t : WBTransmitter) (message : string) :
  accounted t t [Logged message].
Proof. unfold accounted. cbn. lia. Qed.

Lemma accounted_sendPacket (p : AbstractWBPacket) : respects accounted (sendPacket p).
Proof.
  intros t a t' ev Hrun. apply sendPacket_effect in Hrun.
  destruct Hrun as (Hp & _ & _ & _ & _ & Hb & Hn & Hk).
  unfold accounted. rewrite Hp. cbn. lia.
Qed.

Lemma accounted_sendSessionKey : respects accounted sendSessionKey.
Proof.
  intros t a t' ev Hrun. apply sendSessionKey_effect in Hrun.
  destruct Hrun as (t1 & Hrun & ->). apply sendPacket_effect in Hrun.
  destruct Hrun as (Hp & _ & _ & _ & _ & Hb & Hn & Hk).
  unfold accounted. rewrite Hp. cbn. lia.
Qed.

Lemma accounted_renew : respects accounted renew_session_key.
Proof.
  intros t a t' ev Hrun. apply renew_session_key_effect in Hrun.
  destruct Hrun as (-> & _ & _ & _ & _ & _ & Hc).
  injection Hc as Hb Hn Hk. unfold accounted. cbn. lia.
Qed.

Lemma feed_all_accounted (calls : list (Z * list byte)) : respects accounted (feed_all calls).
Proof.
  apply feed_all_respects.
  - exact accounted_trans.
  - exact accounted_quiet.
  - exact accounted_log.
  - exact accounted_sendPacket.
  - exact accounted_sendSessionKey.
  - exact accounted_renew.
Qed.

(** *** The headers of the frames *)

Lemma last_cons_default {A : Type} (x d : A) (l : list A) :
  last (x :: l) d = last l x.
Proof.
  revert x d; induction l as [|y l IH]; intros x d; [reflexivity|].
  change (last (x :: y :: l) d) with (last (y :: l) d).
  now rewrite (IH y d), (IH y x).
Qed.

Lemma last_app_default {A : Type} (l1 l2 : list A) (d : A) :
  last (l1 ++ l2) d = last l2 (last l1 d).
Proof.
  revert d; induction l1 as [|x l1 IH]; intros d; [reflexivity|].
  cbn [app]. now rewrite !last_cons_default, IH.
Qed.

Lemma headers_from_app (hdr : Ieee80211Header) (port seq : Z) (n1 n2 : nat) :
  headers_from hdr port seq (n1 + n2)
  = headers_from hdr port seq n1
      ++ headers_from (last (headers_from hdr port seq n1) hdr) port
                      (Nat.iter n1 (fun s => (s + 16) mod 2 ^ 16) seq) n2.
Proof.
  revert hdr seq; induction n1 as [|n1 IH]; intros hdr seq; [reflexivity|].
  cbn [Nat.add headers_from]. cbv zeta. rewrite IH. cbn [app].
  now rewrite last_cons_default, Nat.iter_succ_r.
Qed.

Lemma length_headers_from (hdr : Ieee80211Header) (port seq : Z) (n : nat) :
  length (headers_from hdr port seq n) = n.
Proof.
  revert hdr seq; induction n as [|n IH]; intros hdr seq; cbn; [reflexivity|].
  now rewrite IH.
Qed.

Lemma framed_trans (t t1 t2 : WBTransmitter) (ev1 ev2 : list event) :
  framed t t1 ev1 -> framed t1 t2 ev2 -> framed t t2 (ev1 ++ ev2).
Proof.
  unfold framed. cbv zeta.
  intros (Ho1 & Hp1 & Hr1 & Hf1 & Hs1 & Hh1 & Hq1)
         (Ho2 & Hp2 & Hr2 & Hf2 & Hs2 & Hh2 & Hq2).
  rewrite injected_headers_app, length_app, !map_app.
  repeat split; try congruence.
  - rewrite Hf1, Hf2, Hr1. symmetry. apply repeat_app.
  - rewrite headers_from_app. rewrite <- Hs1, <- Hh1, <- Hq1.
    rewrite Hs2, Ho1. reflexivity.
  - rewrite Hh2, Hh1. symmetry. apply last_app_default.
  - rewrite Hq2, Hq1. symmetry. rewrite Nat.add_comm. apply Nat.iter_add.
Qed.

Lemma framed_quiet (t t' : WBTransmitter) :
  sending_state t' = sending_state t -> framed t t' [].
Proof.
  intros H. apply sending_state_parts in H.
  destruct H as ((Ho & _ & _) & (Hp & Hr) & (Hh & Hq) & _).
  unfold framed. cbn. repeat split; assumption.
Qed.

Lemma framed_log (t : WBTransmitter) (message : string) : framed t t [Logged message].
Proof. unfold framed. cbn. repeat split. Qed.

Lemma framed_sendPacket (p : AbstractWBPacket) : respects framed (sendPacket p).
Proof.
  intros t a t' ev Hrun. apply sendPacket_effect in Hrun.
  destruct Hrun as (_ & Hh & (Ho & _ & _) & (Hp & Hr) & (Hi & Hq) & _).
  unfold framed. rewrite Hh. cbn. repeat split; assumption.
Qed.

Lemma framed_sendSessionKey : respects framed sendSessionKey.
Proof.
  intros t a t' ev Hrun. apply sendSessionKey_effect in Hrun.
  destruct Hrun as (t1 & Hrun & ->). apply framed_sendPacket in Hrun.
  exact Hrun.
Qed.

Lemma framed_renew : respects framed renew_session_key.
Proof.
  intros t a t' ev Hrun. apply renew_session_key_effect in Hrun.
  destruct Hrun as (-> & _ & _ & _ & Ho & Hc & _).
  injection Hc as Hp Hr Hh Hq. unfold framed. cbn. repeat split; assumption.
Qed.

Lemma feed_all_framed (calls : list (Z * list byte)) : respects framed (feed_all calls).
Proof.
  apply feed_all_respects.
  - exact framed_trans.
  - exact framed_quiet.
  - exact framed_log.
  - exact framed_sendPacket.
  - exact framed_sendSessionKey.
  - exact framed_renew.
Qed.

(** *** The constructor, member by member *)

Lemma configured_same (options1 : TOptions) (input_type : FEC_VARIABLE_INPUT_TYPE)
      (t t' : WBTransmitter) :
  settings t' = settings t -> encoders t' = encoders t ->
  MAX_N_FRAGMENTS_PER_BLOCK (sessionKeyPacket t')
  = MAX_N_FRAGMENTS_PER_BLOCK (sessionKeyPacket t) ->
  configured options1 input_type t -> configured options1 input_type t'.
Proof.
  unfold settings, encoders, configured. intros Hs He Hp.
  injection Hs; injection He; intros.
  repeat match goal with H : _ t' = _ t |- _ => rewrite H; clear H end.
  rewrite Hp. assumption.
Qed.

Lemma renew_session_key_returns (t : WBTransmitter) :
  returns renew_session_key t
    (fun _ t' ev =>
       ev = []
       /\ makeNewSessionKey (mEncryptor t) = (mEncryptor t', announced_key t')
       /\ IS_FEC_ENABLED (sessionKeyPacket t') = IS_FEC_ENABLED (sessionKeyPacket t)
       /\ MAX_N_FRAGMENTS_PER_BLOCK (sessionKeyPacket t')
          = MAX_N_FRAGMENTS_PER_BLOCK (sessionKeyPacket t)
       /\ m_curr_seq_nr t' = m_curr_seq_nr t
       /\ settings t' = settings t
       /\ encoders t' = encoders t
       /\ session_key_announce_ts t' = session_key_announce_ts t).
Proof.
  unfold renew_session_key. run.
  destruct (makeNewSessionKey (mEncryptor t)) as [enc [n d]].
  repeat split.
Qed.

Lemma constructor_body_configures (now : Z) (radioTapHeaderParams : UserSelectableParams)
      (options1 : TOptions) (encryptor0 : encryptor)
      (input_type : FEC_VARIABLE_INPUT_TYPE) :
  returns (constructor_body now)
          (initial radioTapHeaderParams options1 encryptor0 input_type)
          (fun _ t ev =>
             configured options1 input_type t
             /\ IS_FEC_ENABLED (sessionKeyPacket t) = negb (IS_FEC_DISABLED t)
             /\ makeNewSessionKey encryptor0 = (mEncryptor t, announced_key t)).
Proof.
  unfold constructor_body.
  set (t0 := initial radioTapHeaderParams options1 encryptor0 input_type).
  run.
  eapply returns_weaken; [apply renew_session_key_returns|].
  cbn beta. intros _ t1 ev1 (-> & Hkey1 & _ & _ & _ & Hset1 & Henc1 & _).
  change (mEncryptor t0) with encryptor0 in Hkey1.
  assert (H1 : options t1 = options1
               /\ IS_FEC_DISABLED t1 = IS_FEC_DISABLED t0
               /\ IS_FEC_VARIABLE t1 = IS_FEC_VARIABLE t0
               /\ fecVariableInputType t1 = input_type
               /\ mFecEncoder t1 = None /\ mFecDisabledEncoder t1 = None).
  { unfold settings in Hset1. unfold encoders in Henc1.
    injection Hset1; injection Henc1; intros. repeat split; assumption. }
  destruct H1 as (Ho1 & Hd1 & Hv1 & Hty1 & Hfe1 & Hde1).
  assert (Hd1' : IS_FEC_DISABLED t1 = match fec_k options1 with
                                      | fec_k_int k => k =? 0
                                      | fec_k_string _ => false
                                      end) by exact Hd1.
  assert (Hv1' : IS_FEC_VARIABLE t1 = match fec_k options1 with
                                      | fec_k_int _ => false
                                      | fec_k_string _ => true
                                      end)
    by (rewrite Hv1; unfold t0; cbn; destruct (fec_k options1); reflexivity).
  clear Hd1 Hv1.
  run. run. run.
  eapply (returns_weaken _ _
            (fun _ t2 ev2 =>
               ev2 = [] /\ configured options1 input_type t2
               /\ (mEncryptor t2, announced_key t2) = (mEncryptor t1, announced_key t1))).
  { unfold configured.
    destruct (IS_FEC_DISABLED t1) eqn:Hdis.
    - run. cbn. rewrite Hdis, Ho1. repeat split; assumption.
    - run. run. run. cbn. rewrite Hdis, Ho1. repeat split; assumption. }
  cbn beta. intros _ t2 ev2 (-> & Hconf2 & Hkey2).
  run. run. run. run.
  set (t3 := set_sessionKeyPacket _ t2).
  run. run. run.
  eapply returns_weaken; [apply startup_announcements_spec|].
  cbn beta. intros _ t4 ev4 (_ & Hsame4 & _ & _).
  run.
  pose proof Hsame4 as Hsame.
  apply untouched_parts in Hsame4. destruct Hsame4 as (Hset4 & Henc4 & _ & Hpkt4).
  set (t5 := set_session_key_announce_ts _ t4).
  assert (Hset5 : settings t5 = settings t2) by exact Hset4.
  assert (Henc5 : encoders t5 = encoders t2) by exact Henc4.
  assert (Hpkt5 : sessionKeyPacket t5 = sessionKeyPacket t3) by exact Hpkt4.
  assert (Hmenc : mEncryptor t5 = mEncryptor t2)
    by exact (f_equal (fun x => snd (fst x)) Hsame).
  assert (Hme2 : mEncryptor t2 = mEncryptor t1) by exact (f_equal fst Hkey2).
  assert (Hak2 : announced_key t2 = announced_key t1) by exact (f_equal snd Hkey2).
  split; [|split].
  - apply (configured_same _ _ t2 t5 Hset5 Henc5); [|exact Hconf2].
    now rewrite Hpkt5.
  - rewrite Hpkt5. apply settings_counters in Hset5.
    destruct Hset5 as (Hdis5 & _ & _). now rewrite Hdis5.
  - rewrite Hkey1, Hmenc, Hme2. f_equal.
    rewrite <- Hak2. unfold announced_key. now rewrite Hpkt5.
Qed.

(** *** The announced key *)

Lemma key_in_sync_same (t t' : WBTransmitter) :
  mEncryptor t' = mEncryptor t -> sessionKeyPacket t' = sessionKeyPacket t ->
  key_in_sync t -> key_in_sync t'.
Proof.
  unfold key_in_sync, announced_key. intros -> ->. exact (fun H => H).
Qed.

Lemma feed_all_keeps_key_in_sync (calls : list (Z * list byte)) :
  respects key_stays_in_sync (feed_all calls).
Proof.
  apply feed_all_respects; unfold key_stays_in_sync.
  - intros t t1 t2 ev1 ev2 H1 H2 H. auto.
  - intros t t' H. apply sending_state_parts in H.
    destruct H as ((_ & He & Hp) & _). now apply key_in_sync_same.
  - intros t message H. exact H.
  - intros p t a t' ev Hrun. apply sendPacket_effect in Hrun.
    destruct Hrun as (_ & _ & (_ & He & Hp) & _). now apply key_in_sync_same.
  - intros t a t' ev Hrun. apply sendSessionKey_effect in Hrun.
    destruct Hrun as (t1 & Hrun & ->). apply sendPacket_effect in Hrun.
    destruct Hrun as (_ & _ & (_ & He & Hp) & _). now apply key_in_sync_same.
  - intros t a t' ev Hrun _. apply renew_session_key_effect in Hrun.
    destruct Hrun as (_ & Hkey & _). now exists (mEncryptor t).
Qed.

(** *** The packets that were fed *)

Lemma feed_all_counts_inputs (calls : list (Z * list byte)) (t : WBTransmitter) :
  encoder_ready t = true ->
  returns (feed_all calls) t
          (fun _ t' ev =>
             nInputPackets t' = nInputPackets t + Z.of_nat (length (accepted calls))
             /\ count_bytes_data_provided t'
                = count_bytes_data_provided t + total_size (accepted calls)).
Proof.
  unfold feed_all, accepted. revert t; induction calls as [|[cur_ts buf] calls IH];
    intros t Hready; cbn [for_each fst snd map filter].
  - apply returns_ret. cbn. lia.
  - apply returns_bind. destruct (incompatible_size (size buf)) eqn:Hsize; cbn [negb].
    + exists tt, t, [Logged "Fed packet with incompatible size:"].
      split; [now apply feedPacket_rejected|].
      eapply returns_weaken; [apply (IH t Hready)|].
      cbn beta. intros _ t' ev H. exact H.
    + eapply returns_weaken; [apply (feedPacket_accepted cur_ts buf t Hsize Hready)|].
      cbn beta zeta. intros _ t1 ev1 (data & _ & _ & _ & _ & Hn1 & Hb1 & Hready1).
      eapply returns_weaken; [apply (IH t1 Hready1)|].
      cbn beta. intros _ t' ev (Hn & Hb).
      cbn [length total_size fold_right].
      fold (total_size (filter (fun b => negb (incompatible_size (size b))) (map snd calls))).
      lia.
Qed.

Lemma feed_all_returns (calls : list (Z * list byte)) (t : WBTransmitter) :
  encoder_ready t = true ->
  exists t' ev, feed_all calls t = Returned (tt, t', ev) /\ encoder_ready t' = true.
Proof.
  intros Hready.
  destruct (session_keys_only_while_fed calls t Hready) as ([] & t' & ev & Hrun & Hr & _).
  now exists t', ev.
Qed.

(** *** The frames, one by one *)

Lemma sendPacket_frame (p : AbstractWBPacket) (t : WBTransmitter) :
  returns (sendPacket p) t
    (fun _ t' ev =>
       injected_packets ev = [p]
       /\ m_curr_seq_nr t' = m_curr_seq_nr t
       /\ untouched_by_sending t' = untouched_by_sending t).
Proof.
  unfold sendPacket. cbv zeta.
  repeat run; cbn; repeat split; reflexivity.
Qed.

Lemma sendFecPrimaryOrSecondaryFragment_frame (n : Z) (payload : list byte)
      (t : WBTransmitter) :
  returns (sendFecPrimaryOrSecondaryFragment n payload) t
    (fun _ t' ev =>
       injected_packets ev = data_frames (mEncryptor t) (m_curr_seq_nr t) [(n, payload)]
       /\ m_curr_seq_nr t' = m_curr_seq_nr t + 1
       /\ untouched_by_sending t' = untouched_by_sending t).
Proof.
  unfold sendFecPrimaryOrSecondaryFragment. cbv zeta.
  run. run. run. run.
  eapply returns_weaken; [apply sendPacket_frame|].
  cbn beta. intros _ t' ev (Hp & Hs & Hu).
  cbn [app]. repeat split; assumption.
Qed.

Lemma untouched_encryptor (t t' : WBTransmitter) :
  untouched_by_sending t' = untouched_by_sending t -> mEncryptor t' = mEncryptor t.
Proof. intros H. exact (f_equal (fun x => snd (fst x)) H). Qed.

Lemma send_fragments_frames (fragments : list (Z * list byte)) (t : WBTransmitter) :
  returns (for_each fragments
                    (fun f => sendFecPrimaryOrSecondaryFragment (fst f) (snd f))) t
    (fun _ t' ev =>
       injected_packets ev = data_frames (mEncryptor t) (m_curr_seq_nr t) fragments
       /\ m_curr_seq_nr t' = m_curr_seq_nr t + Z.of_nat (length fragments)
       /\ untouched_by_sending t' = untouched_by_sending t).
Proof.
  revert t; induction fragments as [|[n payload] fragments IH]; intros t;
    cbn [for_each fst snd].
  - run. cbn. repeat split. lia.
  - run.
    eapply returns_weaken; [apply sendFecPrimaryOrSecondaryFragment_frame|].
    cbn beta. intros _ t1 ev1 (Hp1 & Hs1 & Hu1).
    eapply returns_weaken; [apply IH|].
    cbn beta. intros _ t2 ev2 (Hp2 & Hs2 & Hu2).
    rewrite injected_packets_app, Hp1, Hp2, Hs1, (untouched_encryptor _ _ Hu1).
    repeat split.
    + rewrite Hs2, Hs1. cbn [length]. lia.
    + congruence.
Qed.

Lemma sendSessionKey_frame (t : WBTransmitter) :
  returns sendSessionKey t
    (fun _ t' ev =>
       injected_packets ev = [packet_of_session_key (sessionKeyPacket t)]
       /\ m_curr_seq_nr t' = m_curr_seq_nr t
       /\ untouched_by_sending t' = untouched_by_sending t).
Proof.
  unfold sendSessionKey. run. run. run.
  eapply returns_weaken; [apply sendPacket_frame|].
  cbn beta. intros _ t1 ev1 (Hp & Hs & Hu).
  run. cbn [app]. rewrite app_nil_r. repeat split; assumption.
Qed.

Lemma fragments_of_same (buf : list byte) (t t' : WBTransmitter) :
  settings t' = settings t -> encoders t' = encoders t ->
  fragments_of buf t' = fragments_of buf t.
Proof.
  unfold settings, encoders, fragments_of, end_block_hint. intros Hs He.
  injection Hs; injection He; intros.
  repeat match goal with H : _ t' = _ t |- _ => rewrite H; clear H end.
  reflexivity.
Qed.

Lemma untouched_key (t t' : WBTransmitter) :
  untouched_by_sending t' = untouched_by_sending t ->
  mEncryptor t' = mEncryptor t /\ sessionKeyPacket t' = sessionKeyPacket t.
Proof.
  intros H. split; [now apply untouched_encryptor | exact (f_equal snd H)].
Qed.

Lemma announce_session_key_if_due_frame (cur_ts : Z) (t : WBTransmitter) :
  returns (announce_session_key_if_due cur_ts) t
    (fun _ t' ev =>
       injected_packets ev
       = (if cur_ts >=? session_key_announce_ts t
          then [packet_of_session_key (sessionKeyPacket t)] else [])
       /\ m_curr_seq_nr t' = m_curr_seq_nr t
       /\ settings t' = settings t
       /\ encoders t' = encoders t
       /\ mEncryptor t' = mEncryptor t
       /\ sessionKeyPacket t' = sessionKeyPacket t).
Proof.
  unfold announce_session_key_if_due. run. run. run.
  - run.
    eapply returns_weaken; [apply sendSessionKey_frame|].
    cbn beta. intros _ t1 ev1 (Hp & Hs & Hu).
    destruct (untouched_key _ _ Hu) as [He Hk].
    apply untouched_parts in Hu. destruct Hu as (Hset & Henc & _ & _).
    run. cbn [app]. rewrite app_nil_r.
    match goal with H : (_ >=? _) = true |- _ => rewrite H end.
    repeat split; assumption.
  - match goal with H : (_ >=? _) = false |- _ => rewrite H end.
    repeat split.
Qed.

Lemma encode_and_send_frames (buf : list byte) (t : WBTransmitter) :
  encoder_ready t = true ->
  returns (encode_and_send buf) t
    (fun _ t' ev =>
       injected_packets ev
       = data_frames (mEncryptor t) (m_curr_seq_nr t) (fragments_of buf t)
           ++ (if nonce_overflow buf t
               then [packet_of_session_key (sessionKeyPacket t')] else [])
       /\ m_curr_seq_nr t' = m_curr_seq_nr t + Z.of_nat (length (fragments_of buf t))
       /\ (if nonce_overflow buf t
           then makeNewSessionKey (mEncryptor t) = (mEncryptor t', announced_key t')
           else mEncryptor t' = mEncryptor t
                /\ sessionKeyPacket t' = sessionKeyPacket t)).
Proof.
  intros Hready. unfold encode_and_send.
  run. run.
  unfold encoder_ready in Hready. unfold nonce_overflow, fragments_of.
  destruct (IS_FEC_DISABLED t) eqn:Hdis.
  - destruct (mFecDisabledEncoder t) as [enc|] eqn:Hdenc; [|discriminate].
    destruct (FECDisabledEncoder_encodePacket enc buf) as [enc' fragments]. cbn [snd].
    run. run.
    eapply returns_weaken; [apply send_fragments_frames|].
    cbn beta. intros _ t1 ev1 (Hp & Hs & Hu).
    destruct (untouched_key _ _ Hu) as [He Hk].
    cbn [app]. rewrite app_nil_r. repeat split; assumption.
  - destruct (mFecEncoder t) as [enc|] eqn:Hfenc; [|discriminate].
    cbv zeta.
    destruct (FECEncoder_encodePacket enc buf (end_block_hint buf t))
      as [enc1 fragments]. cbn [fst snd].
    run. run. run.
    eapply returns_weaken; [apply send_fragments_frames|].
    cbn beta. intros _ t1 ev1 (Hp & Hs & Hu).
    destruct (untouched_key _ _ Hu) as [He Hk].
    destruct (FECEncoder_resetOnOverflow enc1) as [overflow enc2]. cbn [fst].
    run. run. run.
    + subst overflow. run.
      eapply returns_weaken; [apply renew_session_key_returns|].
      cbn beta. intros _ t3 ev3 (-> & Hkey3 & _ & _ & Hs3 & _).
      eapply returns_weaken; [apply sendSessionKey_frame|].
      cbn beta. intros _ t4 ev4 (Hp4 & Hs4 & Hu4).
      destruct (untouched_key _ _ Hu4) as [He4 Hk4].
      cbn [app]. rewrite injected_packets_app, Hp, Hp4, Hk4.
      repeat split.
      * rewrite Hs4, Hs3. exact Hs.
      * rewrite He4. unfold announced_key. rewrite Hk4.
        cbn [mEncryptor set_mFecEncoder] in Hkey3. rewrite He in Hkey3. exact Hkey3.
    + subst overflow. cbn [app]. rewrite !app_nil_r.
      repeat split; assumption.
Qed.

Lemma nonce_overflow_fragments_same (buf : list byte) (t t' : WBTransmitter) :
  settings t' = settings t -> encoders t' = encoders t ->
  nonce_overflow buf t' = nonce_overflow buf t
  /\ fragments_of buf t' = fragments_of buf t
  /\ encoder_ready t' = encoder_ready t.
Proof.
  intros Hs He. split; [|split].
  - now apply nonce_overflow_same.
  - now apply fragments_of_same.
  - now apply encoder_ready_same.
Qed.


(** *** What holds of every run of calls *)

(** However [feedPacket] is called, on a transmitter whose encoder is
    there every call returns, and the counters follow the frames:
    [nInjectedPackets] grows by the number of frames injected,
    [count_bytes_data_injected] by their payload sizes, and
    [nInjectedSessionKeypackets] by no more than [nInjectedPackets], so that
    the count of data packets that [createDebugState] prints as their
    difference does not turn negative. *)
Theorem feedPacket_counters_follow_the_frames
        (calls : list (Z * list byte)) (t : WBTransmitter) :
  encoder_ready t = true ->
  exists t' ev,
    feed_all calls t = Returned (tt, t', ev)
    /\ nInjectedPackets t' = nInjectedPackets t + Z.of_nat (length (injected_packets ev))
    /\ count_bytes_data_injected t'
       = count_bytes_data_injected t + payload_bytes (injected_packets ev)
    /\ 0 <= nInjectedSessionKeypackets t' - nInjectedSessionKeypackets t
         <= Z.of_nat (length (injected_packets ev))
    /\ (nInjectedSessionKeypackets t <= nInjectedPackets t ->
        nInjectedSessionKeypackets t' <= nInjectedPackets t').
Proof.
  intros Hready.
  destruct (feed_all_returns calls t Hready) as (t' & ev & Hrun & _).
  exists t', ev. split; [exact Hrun|].
  destruct (feed_all_accounted calls t tt t' ev Hrun) as (Hn & Hb & Hk).
  repeat split; try assumption; lia.
Qed.

(** [nInputPackets] counts the packets that passed the size check and
    [count_bytes_data_provided] adds up their sizes; a rejected packet is
    counted in neither. *)
Theorem feedPacket_counts_the_accepted_packets
        (calls : list (Z * list byte)) (t : WBTransmitter) :
  encoder_ready t = true ->
  exists t' ev,
    feed_all calls t = Returned (tt, t', ev)
    /\ nInputPackets t' = nInputPackets t + Z.of_nat (length (accepted calls))
    /\ count_bytes_data_provided t'
       = count_bytes_data_provided t + total_size (accepted calls)
    /\ Forall (fun buf => 0 < size buf <= FEC_MAX_PAYLOAD_SIZE) (accepted calls).
Proof.
  intros Hready.
  destruct (feed_all_counts_inputs calls t Hready) as ([] & t' & ev & Hrun & Hn & Hb).
  exists t', ev. repeat split; try assumption.
  unfold accepted. apply Forall_forall. intros buf Hin.
  apply filter_In in Hin. destruct Hin as [_ Hok].
  unfold incompatible_size in Hok. apply negb_true_iff, orb_false_iff in Hok.
  destruct Hok as [H1 H2]. apply Z.leb_gt in H1.
  destruct (Z.gtb_spec (size buf) FEC_MAX_PAYLOAD_SIZE); [discriminate | lia].
Qed.

Lemma headers_from_written (hdr : Ieee80211Header) (port seq : Z) (n : nat) :
  Forall (fun h => exists hdr0 seq0, h = writeParams hdr0 port seq0)
         (headers_from hdr port seq n).
Proof.
  revert hdr seq; induction n as [|n IH]; intros hdr seq; cbn; constructor.
  - now exists hdr, seq.
  - apply IH.
Qed.

(** [update_mcs_index] sends nothing itself; every frame of the calls of
    [feedPacket] that follow goes out under the radiotap header made from
    the parameters with the new MCS index, and with the radio port of the
    options written into its 802.11 header. *)
Theorem update_mcs_index_applies_to_later_frames
        (mcs_index : Z) (calls : list (Z * list byte)) (t : WBTransmitter) :
  encoder_ready t = true ->
  exists t1 t' ev,
    update_mcs_index mcs_index t = Returned (tt, t1, [])
    /\ feed_all calls t1 = Returned (tt, t', ev)
    /\ Forall (fun h =>
                 fst h = RadiotapHeader_new
                           (set_mcs_index mcs_index (_radioTapHeaderParams t))
                 /\ exists hdr0 seq0,
                      snd h = writeParams hdr0 (radio_port (options t)) seq0)
              (injected_headers ev)
    /\ mRadiotapHeader t'
       = RadiotapHeader_new (set_mcs_index mcs_index (_radioTapHeaderParams t)).
Proof.
  intros Hready.
  destruct (update_mcs_index_spec mcs_index t)
    as ([] & t1 & ev1 & Hrun1 & -> & Hsame & _).
  assert (Hheader : mRadiotapHeader t1
                    = RadiotapHeader_new (set_mcs_index mcs_index (_radioTapHeaderParams t))
                    /\ options t1 = options t).
  { unfold update_mcs_index, bind, modify in Hrun1.
    injection Hrun1 as <-. split; reflexivity. }
  destruct Hheader as [Hheader Hopt].
  apply untouched_parts in Hsame. destruct Hsame as (Hset & Henc & _ & _).
  assert (Hready1 : encoder_ready t1 = true)
    by (rewrite (encoder_ready_same t t1 Hset Henc); exact Hready).
  destruct (feed_all_returns calls t1 Hready1) as (t' & ev & Hrun & _).
  exists t1, t', ev. split; [exact Hrun1|]. split; [exact Hrun|].
  destruct (feed_all_framed calls t1 tt t' ev Hrun)
    as (_ & _ & Hr & Hfst & Hsnd & _).
  rewrite Hheader in Hr, Hfst. rewrite Hopt in Hsnd.
  split; [|exact Hr].
  pose proof (headers_from_written (mIeee80211Header t1) (radio_port (options t))
                (ieee80211_seq t1) (length (injected_headers ev))) as Hw.
  rewrite <- Hsnd in Hw.
  pose proof (repeat_spec (length (injected_headers ev))
                (RadiotapHeader_new (set_mcs_index mcs_index (_radioTapHeaderParams t))))
    as Hrep.
  rewrite <- Hfst in Hrep.
  apply Forall_forall. intros h Hin. split.
  - apply Hrep. now apply in_map.
  - rewrite Forall_forall in Hw. apply Hw. now apply in_map.
Qed.

Lemma convert_returns_iff (options1 : TOptions) :
  (exists input_type, convert options1 = Returned input_type)
  <-> match fec_k options1 with
      | fec_k_int _ => True
      | fec_k_string s => s = "h264"%string \/ s = "h265"%string
      end.
Proof.
  unfold convert. destruct (fec_k options1) as [k|s].
  - split; [trivial | intros _; now exists none].
  - destruct (String.eqb_spec s "h264") as [->|H4].
    + split; [now left | intros _; now exists h264].
    + destruct (String.eqb_spec s "h265") as [->|H5].
      * split; [now right | intros _; now exists h265].
      * split; [intros [ty H]; discriminate | intros [?|?]; contradiction].
Qed.

(** *** The constructor *)

Lemma WBTransmitter_new_returns
      (radioTapHeaderParams : UserSelectableParams) (options1 : TOptions) (now : Z)
      (encryptor0 : encryptor) (input_type : FEC_VARIABLE_INPUT_TYPE) :
  Encryptor_new (keypair options1) = Returned encryptor0 ->
  convert options1 = Returned input_type ->
  exists t ev, WBTransmitter_new radioTapHeaderParams options1 now = Returned (t, ev).
Proof.
  intros He Hty. unfold WBTransmitter_new. rewrite He, Hty.
  destruct (constructor_body_spec now radioTapHeaderParams options1
              encryptor0 input_type) as ([] & t & ev & Hrun & _).
  rewrite Hrun. now exists t, ev.
Qed.

(** The constructor returns a transmitter only if the encryptor could be
    made from [options.keypair] and [options.fec_k] is an integer or one of
    the strings h264 and h265: where the constructor of the encryptor does
    not return, or [convert] stops at [assert(false)] on another string, no
    transmitter is made.  The transmitter it returns has the input type
    [convert] gives: none for an integer, h264 or h265 for the string. *)
Theorem WBTransmitter_new_returns_only_if
        (radioTapHeaderParams : UserSelectableParams) (options1 : TOptions) (now : Z)
        (t : WBTransmitter) (ev : list event) :
  WBTransmitter_new radioTapHeaderParams options1 now = Returned (t, ev) ->
  (exists encryptor0, Encryptor_new (keypair options1) = Returned encryptor0)
  /\ match fec_k options1 with
     | fec_k_int _ => True
     | fec_k_string s => s = "h264"%string \/ s = "h265"%string
     end
  /\ fecVariableInputType t
     = match fec_k options1 with
       | fec_k_int _ => none
       | fec_k_string s => if String.eqb s "h264" then h264 else h265
       end.
Proof.
  unfold WBTransmitter_new. intros Hrun.
  destruct (Encryptor_new (keypair options1)) as [e| | |]; try discriminate.
  destruct (convert options1) as [ty| | |] eqn:Hconv; try discriminate.
  destruct (constructor_body now (initial radioTapHeaderParams options1 e ty))
    as [[[[] t0] ev0]| | |] eqn:Hbody; try discriminate.
  injection Hrun as <- <-.
  pose proof (returns_unique _ _ _ _ _ _
                (constructor_body_configures now radioTapHeaderParams options1 e ty)
                Hbody) as ((_ & Hty & _) & _).
  split; [now exists e|]. split.
  - apply convert_returns_iff. now exists ty.
  - rewrite Hty. unfold convert in Hconv.
    destruct (fec_k options1) as [k|s]; [now injection Hconv|].
    destruct (String.eqb s "h264"); [now injection Hconv|].
    destruct (String.eqb s "h265"); [now injection Hconv | discriminate].
Qed.

(** What the constructor sets up: the flags and the one encoder that
    [options.fec_k] asks for, FEC being off exactly when it is the integer
    0; and the session key packet, sent five times at start-up, tells the
    receiver whether FEC is on and, when it is, the fragment count
    [FECEncoder::calculateN(kMax, fec_percentage)]. *)
Theorem constructor_configures_the_transmitter
        (radioTapHeaderParams : UserSelectableParams) (options1 : TOptions) (now : Z)
        (t : WBTransmitter) (ev : list event) :
  WBTransmitter_new radioTapHeaderParams options1 now = Returned (t, ev) ->
  (exists input_type,
      convert options1 = Returned input_type /\ configured options1 input_type t)
  /\ IS_FEC_ENABLED (sessionKeyPacket t) = negb (IS_FEC_DISABLED t)
  /\ (IS_FEC_DISABLED t = true <-> fec_k options1 = fec_k_int 0)
  /\ timeline ev = concat (repeat [session_key_frame t; Pause 10] 5).
Proof.
  unfold WBTransmitter_new. intros Hrun.
  destruct (Encryptor_new (keypair options1)) as [e| | |]; try discriminate.
  destruct (convert options1) as [ty| | |] eqn:Hconv; try discriminate.
  destruct (constructor_body now (initial radioTapHeaderParams options1 e ty))
    as [[[[] t0] ev0]| | |] eqn:Hbody; try discriminate.
  injection Hrun as <- <-.
  pose proof (returns_unique _ _ _ _ _ _
                (constructor_body_configures now radioTapHeaderParams options1 e ty)
                Hbody) as (Hconf & Hflag & _).
  pose proof (returns_unique _ _ _ _ _ _
                (constructor_body_spec now radioTapHeaderParams options1 e ty)
                Hbody) as (Htl & _).
  split; [exists ty; split; [reflexivity | exact Hconf]|].
  split; [exact Hflag|]. split; [|exact Htl].
  destruct Hconf as (_ & _ & Hdis & _). rewrite Hdis.
  destruct (fec_k options1) as [k|s].
  - rewrite Z.eqb_eq. split; [now intros -> | now intros [= ->]].
  - split; discriminate.
Qed.

(** *** The session key that is announced *)

(** The session key packet always announces the key the encryptor holds:
    the constructor takes both from one call of [makeNewSessionKey], and no
    run of [feedPacket] calls and no [update_mcs_index] lets them drift
    apart. *)
Theorem announced_key_is_the_encryptors_key :
  (forall radioTapHeaderParams options1 now t ev,
      WBTransmitter_new radioTapHeaderParams options1 now = Returned (t, ev) ->
      key_in_sync t)
  /\ (forall calls t t' ev,
         key_in_sync t ->
         feed_all calls t = Returned (tt, t', ev) ->
         key_in_sync t')
  /\ (forall mcs_index t t' ev,
         key_in_sync t ->
         update_mcs_index mcs_index t = Returned (tt, t', ev) ->
         key_in_sync t').
Proof.
  split; [|split].
  - intros params options1 now t ev. unfold WBTransmitter_new. intros Hrun.
    destruct (Encryptor_new (keypair options1)) as [e| | |]; try discriminate.
    destruct (convert options1) as [ty| | |]; try discriminate.
    destruct (constructor_body now (initial params options1 e ty))
      as [[[[] t0] ev0]| | |] eqn:Hbody; try discriminate.
    injection Hrun as <- <-.
    pose proof (returns_unique _ _ _ _ _ _
                  (constructor_body_configures now params options1 e ty)
                  Hbody) as (_ & _ & Hkey).
    now exists e.
  - intros calls t t' ev Hsync Hrun.
    exact (feed_all_keeps_key_in_sync calls t tt t' ev Hrun Hsync).
  - intros mcs_index t t' ev Hsync Hrun.
    unfold update_mcs_index, bind, modify in Hrun. injection Hrun as <- _.
    revert Hsync. now apply key_in_sync_same.
Qed.

(** *** The frames of one call *)

(** A call of [feedPacket] that passes the size check sends, after the
    announcement if one is due, one frame for every fragment the encoder
    puts out for the packet, in the encoder's order, each encrypted by the
    encryptor as it was before the call and under the next sequence number.
    Only when the encoder reports a nonce overflow is the session key
    renewed, after these frames, and the packet sent at the end of the call
    announces the new key; otherwise encryptor and session key packet are
    left as they were. *)
Theorem feedPacket_sends_the_fragments_of_the_encoder
        (cur_ts : Z) (buf : list byte) (t : WBTransmitter) :
  incompatible_size (size buf) = false ->
  encoder_ready t = true ->
  exists t' ev,
    feedPacket cur_ts buf t = Returned (tt, t', ev)
    /\ injected_packets ev
       = (if cur_ts >=? session_key_announce_ts t
          then [packet_of_session_key (sessionKeyPacket t)] else [])
           ++ data_frames (mEncryptor t) (m_curr_seq_nr t) (fragments_of buf t)
           ++ (if nonce_overflow buf t
               then [packet_of_session_key (sessionKeyPacket t')] else [])
    /\ m_curr_seq_nr t' = m_curr_seq_nr t + Z.of_nat (length (fragments_of buf t))
    /\ (if nonce_overflow buf t
        then makeNewSessionKey (mEncryptor t) = (mEncryptor t', announced_key t')
        else mEncryptor t' = mEncryptor t /\ sessionKeyPacket t' = sessionKeyPacket t).
Proof.
  intros Hsize Hready.
  cut (returns (feedPacket cur_ts buf) t
         (fun _ t' ev =>
            injected_packets ev
            = (if cur_ts >=? session_key_announce_ts t
               then [packet_of_session_key (sessionKeyPacket t)] else [])
                ++ data_frames (mEncryptor t) (m_curr_seq_nr t) (fragments_of buf t)
                ++ (if nonce_overflow buf t
                    then [packet_of_session_key (sessionKeyPacket t')] else [])
            /\ m_curr_seq_nr t' = m_curr_seq_nr t + Z.of_nat (length (fragments_of buf t))
            /\ (if nonce_overflow buf t
                then makeNewSessionKey (mEncryptor t) = (mEncryptor t', announced_key t')
                else mEncryptor t' = mEncryptor t
                     /\ sessionKeyPacket t' = sessionKeyPacket t))).
  { intros ([] & t' & ev & Hrun & H). now exists t', ev. }
  unfold feedPacket. rewrite Hsize.
  run. run. run.
  set (t0 := set_count_bytes_data_provided _ t).
  eapply returns_weaken; [apply announce_session_key_if_due_frame|].
  cbn beta. intros _ t1 ev1 (Hp1 & Hs1 & Hset1 & Henc1 & He1 & Hk1).
  destruct (nonce_overflow_fragments_same buf t0 t1 Hset1 Henc1) as (Hov & Hfr & Hrd).
  change (nonce_overflow buf t0) with (nonce_overflow buf t) in Hov.
  change (fragments_of buf t0) with (fragments_of buf t) in Hfr.
  change (encoder_ready t0) with (encoder_ready t) in Hrd.
  rewrite Hready in Hrd.
  run.
  eapply returns_weaken; [apply (encode_and_send_frames buf t1 Hrd)|].
  cbn beta. intros _ t2 ev2 (Hp2 & Hs2 & Hkey2).
  run. cbn [app]. rewrite app_nil_r, injected_packets_app, Hp1, Hp2.
  rewrite Hov, Hfr, He1, Hs1 in *.
  change (session_key_announce_ts t0) with (session_key_announce_ts t).
  change (sessionKeyPacket t0) with (sessionKeyPacket t) in *.
  change (mEncryptor t0) with (mEncryptor t) in *.
  change (m_curr_seq_nr t0) with (m_curr_seq_nr t) in *.
  split; [reflexivity|]. split; [exact Hs2|].
  destruct (nonce_overflow buf t); [exact Hkey2|].
  destruct Hkey2 as [Ha Hb]. split; [exact Ha | rewrite <- Hk1; exact Hb].
Qed.

End Invariants.

Lemma feedPacket_counters_follow_the_frames_witness :
  encoder_ready (C := Examples.loopback) Examples.transmitter_A = true
  /\ exists t' ev,
       feed_all (C := Examples.loopback) [(1200, [1; 2; 3]); (1300, [])]
                Examples.transmitter_A
       = Returned (tt, t', ev)
       /\ nInjectedPackets t'
          = nInjectedPackets Examples.transmitter_A
            + Z.of_nat (length (injected_packets ev)).
Proof.
  assert (Hready : encoder_ready (C := Examples.loopback) Examples.transmitter_A = true)
    by (vm_compute; reflexivity).
  split; [exact Hready|].
  destruct (feedPacket_counters_follow_the_frames (C := Examples.loopback)
              [(1200, [1; 2; 3]); (1300, [])] Examples.transmitter_A Hready)
    as (t' & ev & Hrun & Hn & _).
  exists t', ev. split; assumption.
Defined.

Lemma feedPacket_counts_the_accepted_packets_witness :
  encoder_ready (C := Examples.loopback) Examples.transmitter_A = true
  /\ exists t' ev,
       feed_all (C := Examples.loopback) [(1200, [1; 2; 3]); (1300, [])]
                Examples.transmitter_A
       = Returned (tt, t', ev)
       /\ nInputPackets t' = nInputPackets Examples.transmitter_A + 1.
Proof.
  assert (Hready : encoder_ready (C := Examples.loopback) Examples.transmitter_A = true)
    by (vm_compute; reflexivity).
  split; [exact Hready|].
  destruct (feedPacket_counts_the_accepted_packets (C := Examples.loopback)
              [(1200, [1; 2; 3]); (1300, [])] Examples.transmitter_A Hready)
    as (t' & ev & Hrun & Hn & _).
  exists t', ev. split; [exact Hrun | exact Hn].
Defined.

Lemma update_mcs_index_applies_to_later_frames_witness :
  encoder_ready (C := Examples.loopback) Examples.transmitter_A = true
  /\ exists t1 t' ev,
       update_mcs_index (C := Examples.loopback) 5 Examples.transmitter_A
       = Returned (tt, t1, [])
       /\ feed_all (C := Examples.loopback) [(1200, [1; 2; 3])] t1 = Returned (tt, t', ev)
       /\ Forall (fun h => fst h = 5) (injected_headers ev).
Proof.
  assert (Hready : encoder_ready (C := Examples.loopback) Examples.transmitter_A = true)
    by (vm_compute; reflexivity).
  split; [exact Hready|].
  destruct (update_mcs_index_applies_to_later_frames (C := Examples.loopback)
              5 [(1200, [1; 2; 3])] Examples.transmitter_A Hready)
    as (t1 & t' & ev & Hrun1 & Hrun & Hframes & _).
  exists t1, t', ev. split; [exact Hrun1|]. split; [exact Hrun|].
  revert Hframes. apply Forall_impl. intros h [Hh _]. exact Hh.
Defined.

Lemma WBTransmitter_new_returns_only_if_witness :
  exists t ev,
    WBTransmitter_new (C := Examples.loopback) 3 Examples.options_fec_8_50 100
    = Returned (t, ev)
    /\ fecVariableInputType t = none.
Proof.
  edestruct (WBTransmitter_new_returns (C := Examples.loopback)
               3 Examples.options_fec_8_50 100)
    as (t & ev & Hnew); [reflexivity | reflexivity |].
  exists t, ev. split; [exact Hnew|].
  exact (proj2 (proj2 (WBTransmitter_new_returns_only_if (C := Examples.loopback)
                         3 Examples.options_fec_8_50 100 t ev Hnew))).
Defined.

Lemma constructor_configures_the_transmitter_witness :
  exists t ev,
    WBTransmitter_new (C := Examples.loopback) 3 Examples.options_fec_8_50 100
    = Returned (t, ev)
    /\ IS_FEC_DISABLED t = false
    /\ IS_FEC_ENABLED (sessionKeyPacket t) = true.
Proof.
  edestruct (WBTransmitter_new_returns (C := Examples.loopback)
               3 Examples.options_fec_8_50 100)
    as (t & ev & Hnew); [reflexivity | reflexivity |].
  exists t, ev. split; [exact Hnew|].
  destruct (constructor_configures_the_transmitter (C := Examples.loopback)
              3 Examples.options_fec_8_50 100 t ev Hnew)
    as (_ & Hflag & Hdis & _).
  assert (Hoff : IS_FEC_DISABLED t = false).
  { destruct (IS_FEC_DISABLED t); [|reflexivity].
    discriminate (proj1 Hdis eq_refl). }
  split; [exact Hoff|]. now rewrite Hflag, Hoff.
Defined.

Lemma announced_key_is_the_encryptors_key_witness :
  exists t ev,
    WBTransmitter_new (C := Examples.loopback) 3 Examples.options_fec_8_50 100
    = Returned (t, ev)
    /\ key_in_sync t.
Proof.
  edestruct (WBTransmitter_new_returns (C := Examples.loopback)
               3 Examples.options_fec_8_50 100)
    as (t & ev & Hnew); [reflexivity | reflexivity |].
  exists t, ev. split; [exact Hnew|].
  exact (proj1 (announced_key_is_the_encryptors_key (C := Examples.loopback))
               3 Examples.options_fec_8_50 100 t ev Hnew).
Defined.

Lemma feedPacket_sends_the_fragments_of_the_encoder_witness :
  incompatible_size (C := Examples.loopback) (size [1; 2; 3]) = false
  /\ encoder_ready (C := Examples.loopback) Examples.transmitter_A = true
  /\ exists t' ev,
       feedPacket (C := Examples.loopback) 1200 [1; 2; 3] Examples.transmitter_A
       = Returned (tt, t', ev)
       /\ m_curr_seq_nr t' = m_curr_seq_nr Examples.transmitter_A + 1.
Proof.
  assert (Hsize : incompatible_size (C := Examples.loopback) (size [1; 2; 3]) = false)
    by (vm_compute; reflexivity).
  assert (Hready : encoder_ready (C := Examples.loopback) Examples.transmitter_A = true)
    by (vm_compute; reflexivity).
  split; [exact Hsize|]. split; [exact Hready|].
  destruct (feedPacket_sends_the_fragments_of_the_encoder (C := Examples.loopback)
              1200 [1; 2; 3] Examples.transmitter_A Hsize Hready)
    as (t' & ev & Hrun & _ & Hseq & _).
  exists t', ev. split; [exact Hrun|].
  rewrite Hseq. vm_compute. reflexivity.
Defined.

End WBTransmitterFacts.

(* ------------------------------------------------------------------ *)
(** ** gf256_ssse3.h *)

Module GF256Facts.

Import GF256.

Lemma in_all_bytes (b : byte) : is_byte b -> In b all_bytes.
Proof.
  intros Hb. unfold all_bytes, is_byte in *.
  apply in_map_iff. exists (Z.to_nat b). split; [lia|].
  apply in_seq. lia.
Qed.

(** A check that ran over all byte values holds of every byte. *)
Lemma for_all_bytes (P : byte -> bool) :
  forallb P all_bytes = true -> forall b, is_byte b -> P b = true.
Proof.
  intros H b Hb. rewrite forallb_forall in H. apply H. now apply in_all_bytes.
Qed.

(** *** The field *)

Lemma gf_mul_bits_zero (n : nat) (b : Z) : gf_mul_bits n 0 b 0 = 0.
Proof.
  revert b; induction n as [|n IH]; intros b; simpl; [reflexivity|].
  change (gf_double 0) with 0. destruct (Z.odd b); apply IH.
Qed.

Lemma gf_mul_0_l (s : Z) : gf_mul 0 s = 0.
Proof. apply gf_mul_bits_zero. Qed.

Lemma gf_mul_1_l_check : forallb (fun s => gf_mul 1 s =? s) all_bytes = true.
Proof. vm_compute. reflexivity. Qed.

Lemma gf_mul_1_l (s : byte) : is_byte s -> gf_mul 1 s = s.
Proof.
  intros Hs. apply Z.eqb_eq.
  exact (for_all_bytes (fun s => gf_mul 1 s =? s) gf_mul_1_l_check s Hs).
Qed.

(** The two look-ups of a round give the product: [c * s] is the sum of
    [c * (s & 0x0f)] and [c * (s & 0xf0)].  Checked on all 65536 pairs. *)
Lemma split_nibble_product_check :
  forallb (fun c =>
             let lo := tl c in
             let hi := th c in
             forallb (fun s =>
                        Z.lxor (shuffle_byte hi (Z.shiftr (Z.land s 0xf0) 4))
                               (shuffle_byte lo (Z.land s 0x0f))
                        =? gf_mul c s) all_bytes)
          all_bytes = true.
Proof. vm_compute. reflexivity. Qed.

Lemma split_nibble_product_correct (c s : byte) :
  is_byte c -> is_byte s -> split_nibble_product c s = gf_mul c s.
Proof.
  intros Hc Hs. apply Z.eqb_eq.
  pose proof (for_all_bytes _ split_nibble_product_check c Hc) as H.
  cbv beta zeta in H.
  exact (for_all_bytes _ H s Hs).
Qed.

(** *** The intrinsics on 16 bytes *)

Lemma high_nibble_check :
  forallb (fun s => (Z.land s 0xf0 =? 16 * Z.shiftr (Z.land s 0xf0) 4)
                    && is_byteb (Z.shiftr (Z.land s 0xf0) 4)) all_bytes = true.
Proof. vm_compute. reflexivity. Qed.

Lemma high_nibble (s : byte) :
  is_byte s ->
  Z.land s 0xf0 = 16 * Z.shiftr (Z.land s 0xf0) 4
  /\ is_byte (Z.shiftr (Z.land s 0xf0) 4).
Proof.
  intros Hs. pose proof (for_all_bytes _ high_nibble_check s Hs) as H.
  cbv beta in H. apply andb_true_iff in H. destruct H as [H1 H2].
  apply Z.eqb_eq in H1. unfold is_byteb in H2. apply andb_true_iff in H2.
  unfold is_byte. lia.
Qed.

Lemma le_value_high_nibbles (lane : list byte) :
  Forall is_byte lane ->
  le_value (map (fun s => Z.land s 0xf0) lane)
  = 16 * le_value (map (fun s => Z.shiftr (Z.land s 0xf0) 4) lane).
Proof.
  induction 1 as [|s lane Hs _ IH]; [reflexivity|].
  cbn [map le_value]. rewrite IH.
  destruct (high_nibble s Hs) as [Hn _]. lia.
Qed.

Lemma srli_lane (lane : list byte) :
  Forall is_byte lane -> length lane = 8%nat ->
  le_bytes 8 (Z.shiftr (le_value (map (fun s => Z.land s 0xf0) lane)) 4)
  = map (fun s => Z.shiftr (Z.land s 0xf0) 4) lane.
Proof.
  intros Hb Hlen.
  rewrite le_value_high_nibbles by assumption.
  rewrite Z.shiftr_div_pow2 by lia.
  change (2 ^ 4) with 16. rewrite Z.mul_comm, Z.div_mul by lia.
  replace 8%nat with (length (map (fun s => Z.shiftr (Z.land s 0xf0) 4) lane))
    by (now rewrite length_map).
  apply le_bytes_le_value.
  apply Forall_map. revert Hb. apply Forall_impl.
  intros s Hs. now apply high_nibble.
Qed.

Lemma srli_high_nibbles (v : m128i) :
  Forall is_byte v -> length v = 16%nat ->
  _mm_srli_epi64 (map (fun s => Z.land s 0xf0) v) 4
  = map (fun s => Z.shiftr (Z.land s 0xf0) 4) v.
Proof.
  intros Hb Hlen. unfold _mm_srli_epi64.
  rewrite firstn_map, skipn_map.
  rewrite srli_lane;
    [| now apply Forall_firstn | rewrite length_firstn; lia].
  rewrite srli_lane;
    [| now apply Forall_skipn | rewrite length_skipn; lia].
  rewrite <- map_app. now rewrite firstn_skipn.
Qed.

(** One round of the loop on 16 bytes of each region. *)
Lemma round_correct (c : byte) (in1 in2 : m128i) :
  is_byte c -> Forall is_byte in2 -> length in2 = 16%nat ->
  _mm_xor_si128
    (_mm_xor_si128
       (_mm_shuffle_epi8 (_mm_loadu_si128 (th c))
          (_mm_srli_epi64 (_mm_and_si128 in2 (_mm_set1_epi8 0xf0)) 4))
       (_mm_shuffle_epi8 (_mm_loadu_si128 (tl c))
          (_mm_and_si128 in2 (_mm_set1_epi8 0x0f))))
    in1
  = map2 (fun d s => Z.lxor d (gf_mul c s)) in1 in2.
Proof.
  intros Hc Hb Hlen.
  unfold _mm_and_si128, _mm_set1_epi8, _mm_shuffle_epi8, _mm_xor_si128, _mm_loadu_si128.
  change (0xf0 mod 256) with 0xf0. change (0x0f mod 256) with 0x0f.
  rewrite !map2_repeat_r by lia.
  rewrite srli_high_nibbles by assumption.
  replace (firstn 16 (th c)) with (th c) by reflexivity.
  replace (firstn 16 (tl c)) with (tl c) by reflexivity.
  rewrite !map_map, map2_map_same, map2_map_l, map2_flip.
  apply map2_ext_r with (P := is_byte); [|assumption].
  intros d s Hs.
  fold (split_nibble_product c s).
  rewrite split_nibble_product_correct by assumption.
  apply Z.lxor_comm.
Qed.

(** The two look-ups of a round on 16 bytes: the products. *)
Lemma product_round_correct (c : byte) (v : m128i) :
  is_byte c -> Forall is_byte v -> length v = 16%nat ->
  _mm_xor_si128
    (_mm_shuffle_epi8 (_mm_loadu_si128 (th c))
       (_mm_srli_epi64 (_mm_and_si128 v (_mm_set1_epi8 0xf0)) 4))
    (_mm_shuffle_epi8 (_mm_loadu_si128 (tl c))
       (_mm_and_si128 v (_mm_set1_epi8 0x0f)))
  = map (gf_mul c) v.
Proof.
  intros Hc Hb Hlen.
  unfold _mm_and_si128, _mm_set1_epi8, _mm_shuffle_epi8, _mm_xor_si128, _mm_loadu_si128.
  change (0xf0 mod 256) with 0xf0. change (0x0f mod 256) with 0x0f.
  rewrite !map2_repeat_r by lia.
  rewrite srli_high_nibbles by assumption.
  replace (firstn 16 (th c)) with (th c) by reflexivity.
  replace (firstn 16 (tl c)) with (tl c) by reflexivity.
  rewrite !map_map, map2_map_same.
  apply map_ext_in. intros s Hs.
  fold (split_nibble_product c s).
  apply split_nibble_product_correct; [assumption|].
  rewrite Forall_forall in Hb. now apply Hb.
Qed.

Lemma map2_keep_left (xs ys : list byte) :
  (length xs <= length ys)%nat ->
  map2 (fun d s => Z.lxor d (gf_mul 0 s)) xs ys = xs.
Proof.
  revert ys; induction xs as [|x xs IH]; intros [|y ys] H; simpl in *;
    try reflexivity; try lia.
  rewrite gf_mul_0_l, Z.lxor_0_r. f_equal. apply IH. lia.
Qed.

(** *** The field, continued *)





(** *** The field on regions *)

Lemma map_gf_mul_0 (r : list byte) : map (gf_mul 0) r = repeat 0 (length r).
Proof.
  induction r as [|x r IH]; [reflexivity|].
  cbn [map length repeat]. now rewrite gf_mul_0_l, IH.
Qed.

Lemma map_gf_mul_1 (r : list byte) : Forall is_byte r -> map (gf_mul 1) r = r.
Proof.
  induction 1 as [|x r Hx _ IH]; [reflexivity|].
  cbn [map]. now rewrite gf_mul_1_l, IH.
Qed.

Lemma madd_twice (c : Z) (dst src : list byte) :
  (length dst <= length src)%nat ->
  map2 (fun d s => Z.lxor d (gf_mul c s))
       (map2 (fun d s => Z.lxor d (gf_mul c s)) dst src) src = dst.
Proof.
  revert src; induction dst as [|d dst IH]; intros [|s src] H; simpl in *;
    try reflexivity; try lia.
  f_equal.
  - now rewrite Z.lxor_assoc, Z.lxor_nilpotent, Z.lxor_0_r.
  - apply IH. lia.
Qed.



(** *** Blocks of 16 bytes *)

Lemma blocks_bound (len : Z) :
  0 <= len ->
  0 <= (len + 15) / 16 <= len
  /\ 16 * ((len + 15) / 16) - 16 < len <= 16 * ((len + 15) / 16).
Proof.
  intros Hlen.
  pose proof (Z.div_mod (len + 15) 16 ltac:(lia)) as Hdiv.
  pose proof (Z.mod_pos_bound (len + 15) 16 ltac:(lia)) as Hmod.
  lia.
Qed.

Lemma whole_blocks (len : Z) :
  0 <= len -> len mod 16 = 0 -> 16 * ((len + 15) / 16) = len.
Proof.
  intros Hlen Hmod.
  pose proof (Z.div_mod len 16 ltac:(lia)) as Hdiv. rewrite Hmod in Hdiv.
  replace (len + 15) with (len / 16 * 16 + 15) by lia.
  rewrite Z.div_add_l by lia. change (15 / 16) with 0. lia.
Qed.

Lemma partial_block (len : Z) :
  0 <= len -> len mod 16 <> 0 ->
  16 * (len / 16) < len < 16 * (len / 16) + 16
  /\ 16 * ((len + 15) / 16) = 16 * (len / 16) + 16.
Proof.
  intros Hlen Hmod.
  pose proof (Z.div_mod len 16 ltac:(lia)) as Hdiv.
  pose proof (Z.mod_pos_bound len 16 ltac:(lia)) as Hbound.
  destruct (blocks_bound len Hlen) as [_ Hend].
  lia.
Qed.

Lemma to_nat_blocks (k : Z) : 0 <= k -> Z.to_nat (16 * k) = (16 * Z.to_nat k)%nat.
Proof. intros Hk. lia. Qed.

(** *** Memory *)

Lemma read_bytes_length (mem : memory) (n : nat) :
  forall p v, read_bytes mem p n = Some v -> length v = n.
Proof.
  induction n as [|n IH]; intros p v H; cbn [read_bytes] in H.
  - now injection H as <-.
  - destruct (mem p) as [b|]; [|discriminate].
    destruct (read_bytes mem (p + 1) n) as [bs|] eqn:Hbs; [|discriminate].
    injection H as <-. cbn [length]. f_equal. now apply (IH (p + 1)).
Qed.

Lemma read_bytes_nth (mem : memory) (n : nat) :
  forall p v, read_bytes mem p n = Some v ->
  forall a, p <= a < p + Z.of_nat n -> mem a = Some (nth (Z.to_nat (a - p)) v 0).
Proof.
  induction n as [|n IH]; intros p v H a Ha; [lia|].
  cbn [read_bytes] in H.
  destruct (mem p) as [b|] eqn:Hb; [|discriminate].
  destruct (read_bytes mem (p + 1) n) as [bs|] eqn:Hbs; [|discriminate].
  injection H as <-.
  destruct (Z.eq_dec a p) as [->|Hne].
  - now rewrite Z.sub_diag.
  - replace (Z.to_nat (a - p)) with (S (Z.to_nat (a - (p + 1)))) by lia.
    cbn [nth]. apply (IH (p + 1)); [assumption | lia].
Qed.

Lemma read_bytes_intro (mem : memory) (n : nat) :
  forall p v,
    length v = n ->
    (forall a, p <= a < p + Z.of_nat n -> mem a = Some (nth (Z.to_nat (a - p)) v 0)) ->
    read_bytes mem p n = Some v.
Proof.
  induction n as [|n IH]; intros p v Hlen H.
  - apply length_zero_iff_nil in Hlen. now subst v.
  - destruct v as [|b v]; [discriminate|]. cbn [read_bytes].
    rewrite (H p) by lia. rewrite Z.sub_diag. cbn [Z.to_nat nth].
    rewrite (IH (p + 1) v); [reflexivity | now injection Hlen |].
    intros a Ha. rewrite (H a) by lia.
    replace (Z.to_nat (a - p)) with (S (Z.to_nat (a - (p + 1)))) by lia.
    reflexivity.
Qed.

Lemma read_bytes_ext (mem mem' : memory) (n : nat) :
  forall p,
    (forall a, p <= a < p + Z.of_nat n -> mem a = mem' a) ->
    read_bytes mem p n = read_bytes mem' p n.
Proof.
  induction n as [|n IH]; intros p H; [reflexivity|].
  cbn [read_bytes]. rewrite (H p) by lia.
  rewrite (IH (p + 1)); [reflexivity|]. intros a Ha. apply H. lia.
Qed.

Lemma read_bytes_part (mem : memory) (p : Z) (n : nat) (v : list byte) (i k : nat) :
  read_bytes mem p n = Some v ->
  (i + k <= n)%nat ->
  read_bytes mem (p + Z.of_nat i) k = Some (firstn k (skipn i v)).
Proof.
  intros H Hik. pose proof (read_bytes_length _ _ _ _ H) as Hlen.
  apply read_bytes_intro.
  - rewrite length_firstn, length_skipn. lia.
  - intros a Ha.
    rewrite (read_bytes_nth _ _ _ _ H a) by lia. f_equal.
    rewrite nth_firstn.
    replace (Z.to_nat (a - (p + Z.of_nat i)) <? k)%nat with true
      by (symmetry; apply Nat.ltb_lt; lia).
    rewrite nth_skipn. f_equal. lia.
Qed.

Lemma write_bytes_in (mem : memory) (p : Z) (v : list byte) (a : Z) :
  p <= a < p + size v ->
  write_bytes mem p v a = Some (nth (Z.to_nat (a - p)) v 0).
Proof.
  intros Ha. unfold write_bytes.
  now rewrite (proj2 (Z.leb_le _ _)), (proj2 (Z.ltb_lt _ _)) by lia.
Qed.

Lemma write_bytes_out (mem : memory) (p : Z) (v : list byte) (a : Z) :
  ~ (p <= a < p + size v) -> write_bytes mem p v a = mem a.
Proof.
  intros Ha. unfold write_bytes.
  destruct (Z.leb_spec p a); [|reflexivity].
  destruct (Z.ltb_spec a (p + size v)); [lia | reflexivity].
Qed.

Lemma read_bytes_written (mem : memory) (p : Z) (v : list byte) :
  read_bytes (write_bytes mem p v) p (length v) = Some v.
Proof.
  apply read_bytes_intro; [reflexivity|].
  intros a Ha. now apply write_bytes_in.
Qed.

(** Writing back what is there changes nothing. *)
Lemma write_bytes_same (mem : memory) (p : Z) (v : list byte) :
  read_bytes mem p (length v) = Some v ->
  forall a, write_bytes mem p v a = mem a.
Proof.
  intros H a. destruct (Z.le_gt_cases p a) as [Hle|Hgt].
  - destruct (Z.lt_ge_cases a (p + size v)) as [Hlt|Hge].
    + rewrite write_bytes_in by lia. symmetry.
      apply (read_bytes_nth _ _ _ _ H). unfold size in Hlt. lia.
    + apply write_bytes_out. lia.
  - apply write_bytes_out. lia.
Qed.

Lemma write_bytes_app (mem : memory) (p : Z) (v1 v2 : list byte) (a : Z) :
  write_bytes (write_bytes mem p v1) (p + size v1) v2 a
  = write_bytes mem p (v1 ++ v2) a.
Proof.
  assert (H1 : 0 <= size v1) by (unfold size; lia).
  assert (H2 : 0 <= size v2) by (unfold size; lia).
  assert (Happ : size (v1 ++ v2) = size v1 + size v2)
    by (unfold size; rewrite length_app; lia).
  destruct (Z.lt_ge_cases a p) as [Hlt|Hge].
  - rewrite !write_bytes_out by lia. reflexivity.
  - destruct (Z.lt_ge_cases a (p + size v1)) as [Hin1|Hout1].
    + rewrite write_bytes_out by lia.
      rewrite !write_bytes_in by lia.
      rewrite app_nth1; [reflexivity | unfold size in *; lia].
    + destruct (Z.lt_ge_cases a (p + size v1 + size v2)) as [Hin2|Hout2].
      * rewrite !write_bytes_in by lia.
        rewrite app_nth2 by (unfold size in *; lia).
        f_equal. f_equal. unfold size in *. lia.
      * rewrite !write_bytes_out by lia. reflexivity.
Qed.

Lemma write_bytes_ext (mem mem' : memory) (p : Z) (v : list byte) :
  (forall a, mem a = mem' a) ->
  forall a, write_bytes mem p v a = write_bytes mem' p v a.
Proof.
  intros H a. unfold write_bytes. destruct (_ && _); [reflexivity | apply H].
Qed.

Lemma write_bytes_over (mem : memory) (p : Z) (v w : list byte) :
  length v = length w ->
  forall a, write_bytes (write_bytes mem p v) p w a = write_bytes mem p w a.
Proof.
  intros Hlen a. unfold write_bytes, size. rewrite Hlen.
  destruct (_ && _); reflexivity.
Qed.

Lemma aligned_next (p : Z) : p mod 16 = 0 -> (p + 16) mod 16 = 0.
Proof.
  intros H. replace (p + 16) with (p + 1 * 16) by lia.
  now rewrite Z.mod_add by lia.
Qed.

(** *** Loads and stores *)

Lemma load_block (mem : memory) (p : Z) (n : nat) (v : list byte) :
  p mod 16 = 0 ->
  read_bytes mem p n = Some v ->
  (16 <= n)%nat ->
  _mm_load_si128 mem p = Returned (firstn 16 v).
Proof.
  intros Hal Hread Hn. unfold _mm_load_si128.
  rewrite Hal. cbn [Z.eqb].
  pose proof (read_bytes_part mem p n v 0 16 Hread ltac:(lia)) as H.
  cbn [Z.of_nat skipn] in H. rewrite Z.add_0_r in H. now rewrite H.
Qed.

Lemma store_block (mem : memory) (p : Z) (n : nat) (v out : list byte) :
  p mod 16 = 0 ->
  read_bytes mem p n = Some v ->
  (16 <= n)%nat ->
  _mm_store_si128 mem p out = Returned (write_bytes mem p out).
Proof.
  intros Hal Hread Hn. unfold _mm_store_si128.
  rewrite Hal. cbn [Z.eqb].
  pose proof (read_bytes_part mem p n v 0 16 Hread ltac:(lia)) as H.
  cbn [Z.of_nat skipn] in H. rewrite Z.add_0_r in H. now rewrite H.
Qed.

Lemma read_bytes_none (mem : memory) (p : Z) (n : nat) (a : Z) :
  p <= a < p + Z.of_nat n -> mem a = None -> read_bytes mem p n = None.
Proof.
  intros Ha Hnone. destruct (read_bytes mem p n) as [v|] eqn:H; [|reflexivity].
  rewrite (read_bytes_nth _ _ _ _ H a Ha) in Hnone. discriminate.
Qed.

Lemma load_cases (mem : memory) (p : Z) :
  (exists v, _mm_load_si128 mem p = Returned v /\ length v = 16%nat)
  \/ _mm_load_si128 mem p = UndefinedBehaviour.
Proof.
  unfold _mm_load_si128. destruct (p mod 16 =? 0); [|now right].
  destruct (read_bytes mem p 16) as [v|] eqn:H; [|now right].
  left. exists v. split; [reflexivity|]. now apply read_bytes_length in H.
Qed.

Lemma load_outside (mem : memory) (p : Z) :
  read_bytes mem p 16 = None -> _mm_load_si128 mem p = UndefinedBehaviour.
Proof.
  intros H. unfold _mm_load_si128. rewrite H. now destruct (p mod 16 =? 0).
Qed.

Lemma load_unaligned (mem : memory) (p : Z) :
  p mod 16 <> 0 -> _mm_load_si128 mem p = UndefinedBehaviour.
Proof.
  intros H. unfold _mm_load_si128. now rewrite (proj2 (Z.eqb_neq _ _) H).
Qed.

(** *** The loops *)

(** The loop of [maddrc256_shuffle_ssse3] works through whole blocks of
    16 bytes: with [end_] anywhere in the last of [k] aligned, allocated
    blocks of regions that lie apart, it puts the sums into all [k] blocks
    of [region1] and changes nothing else. *)
Lemma maddrc256_loop_blocks (c : byte) (k : nat) :
  is_byte c ->
  forall (fuel : nat) (mem : memory) (region1 region2 end_ : Z) (d s : list byte),
    (k <= fuel)%nat ->
    region1 mod 16 = 0 ->
    region2 mod 16 = 0 ->
    read_bytes mem region1 (16 * k) = Some d ->
    read_bytes mem region2 (16 * k) = Some s ->
    Forall is_byte s ->
    region1 + 16 * Z.of_nat k <= region2 \/ region2 + 16 * Z.of_nat k <= region1 ->
    region1 + 16 * Z.of_nat k - 16 < end_ <= region1 + 16 * Z.of_nat k ->
    exists mem',
      maddrc256_loop fuel
        (_mm_loadu_si128 (tl c)) (_mm_loadu_si128 (th c))
        (_mm_set1_epi8 0x0f) (_mm_set1_epi8 0xf0)
        mem region1 region2 end_ = Returned mem'
      /\ forall a,
           mem' a
           = write_bytes mem region1
               (map2 (fun d s => Z.lxor d (gf_mul c s)) d s) a.
Proof.
  intros Hc. induction k as [|k IH];
    intros fuel mem region1 region2 end_ d s
           Hfuel Hal1 Hal2 Hd Hs Hbytes Hapart Hend.
  - cbn in Hd, Hs. injection Hd as <-. injection Hs as <-.
    exists mem. split.
    + destruct fuel as [|fuel]; cbn [maddrc256_loop]; [reflexivity|].
      now rewrite (proj2 (Z.ltb_ge _ _)) by lia.
    + intros a. cbn [map2]. symmetry. apply write_bytes_out. cbn. lia.
  - destruct fuel as [|fuel]; [lia|]. cbn [maddrc256_loop].
    rewrite (proj2 (Z.ltb_lt _ _)) by lia.
    pose proof (read_bytes_length _ _ _ _ Hd) as Hlend.
    pose proof (read_bytes_length _ _ _ _ Hs) as Hlens.
    rewrite (load_block mem region2 _ s Hal2 Hs) by lia.
    rewrite (load_block mem region1 _ d Hal1 Hd) by lia.
    cbn [and_then]. cbv zeta.
    rewrite round_correct;
      [| assumption | now apply Forall_firstn | rewrite length_firstn; lia].
    set (out := map2 (fun d s => Z.lxor d (gf_mul c s))
                     (firstn 16 d) (firstn 16 s)).
    assert (Hout : length out = 16%nat).
    { unfold out. rewrite length_map2, !length_firstn. lia. }
    rewrite (store_block mem region1 _ d out Hal1 Hd) by lia.
    cbn [and_then].
    assert (Hsize : size out = 16) by (unfold size; rewrite Hout; reflexivity).
    destruct (IH fuel (write_bytes mem region1 out) (region1 + 16) (region2 + 16) end_
                (skipn 16 d) (skipn 16 s)) as (mem' & Hrun & Hmem').
    + lia.
    + now apply aligned_next.
    + now apply aligned_next.
    + rewrite (read_bytes_ext _ mem).
      * pose proof (read_bytes_part mem region1 _ d 16 (16 * k) Hd ltac:(lia)) as H.
        rewrite firstn_all2 in H by (rewrite length_skipn; lia). exact H.
      * intros a Ha. apply write_bytes_out. lia.
    + rewrite (read_bytes_ext _ mem).
      * pose proof (read_bytes_part mem region2 _ s 16 (16 * k) Hs ltac:(lia)) as H.
        rewrite firstn_all2 in H by (rewrite length_skipn; lia). exact H.
      * intros a Ha. apply write_bytes_out. lia.
    + now apply Forall_skipn.
    + lia.
    + lia.
    + exists mem'. split; [exact Hrun|].
      intros a. rewrite Hmem'.
      replace (region1 + 16) with (region1 + size out) by lia.
      rewrite write_bytes_app. f_equal. unfold out.
      rewrite <- map2_app by (rewrite !length_firstn; lia).
      now rewrite !firstn_skipn.
Qed.

Lemma mulrc256_loop_blocks (c : byte) (k : nat) :
  is_byte c ->
  forall (fuel : nat) (mem : memory) (region end_ : Z) (r : list byte),
    (k <= fuel)%nat ->
    region mod 16 = 0 ->
    read_bytes mem region (16 * k) = Some r ->
    Forall is_byte r ->
    region + 16 * Z.of_nat k - 16 < end_ <= region + 16 * Z.of_nat k ->
    exists mem',
      mulrc256_loop fuel
        (_mm_loadu_si128 (tl c)) (_mm_loadu_si128 (th c))
        (_mm_set1_epi8 0x0f) (_mm_set1_epi8 0xf0)
        mem region end_ = Returned mem'
      /\ forall a, mem' a = write_bytes mem region (map (gf_mul c) r) a.
Proof.
  intros Hc. induction k as [|k IH];
    intros fuel mem region end_ r Hfuel Hal Hr Hbytes Hend.
  - cbn in Hr. injection Hr as <-.
    exists mem. split.
    + destruct fuel as [|fuel]; cbn [mulrc256_loop]; [reflexivity|].
      now rewrite (proj2 (Z.ltb_ge _ _)) by lia.
    + intros a. cbn [map]. symmetry. apply write_bytes_out. cbn. lia.
  - destruct fuel as [|fuel]; [lia|]. cbn [mulrc256_loop].
    rewrite (proj2 (Z.ltb_lt _ _)) by lia.
    pose proof (read_bytes_length _ _ _ _ Hr) as Hlen.
    rewrite (load_block mem region _ r Hal Hr) by lia.
    cbn [and_then]. cbv zeta.
    rewrite product_round_correct;
      [| assumption | now apply Forall_firstn | rewrite length_firstn; lia].
    set (out := map (gf_mul c) (firstn 16 r)).
    assert (Hout : length out = 16%nat).
    { unfold out. rewrite length_map, length_firstn. lia. }
    rewrite (store_block mem region _ r out Hal Hr) by lia.
    cbn [and_then].
    assert (Hsize : size out = 16) by (unfold size; rewrite Hout; reflexivity).
    destruct (IH fuel (write_bytes mem region out) (region + 16) end_ (skipn 16 r))
      as (mem' & Hrun & Hmem').
    + lia.
    + now apply aligned_next.
    + rewrite (read_bytes_ext _ mem).
      * pose proof (read_bytes_part mem region _ r 16 (16 * k) Hr ltac:(lia)) as H.
        rewrite firstn_all2 in H by (rewrite length_skipn; lia). exact H.
      * intros a Ha. apply write_bytes_out. lia.
    + now apply Forall_skipn.
    + lia.
    + exists mem'. split; [exact Hrun|].
      intros a. rewrite Hmem'.
      replace (region + 16) with (region + size out) by lia.
      rewrite write_bytes_app. f_equal. unfold out.
      rewrite <- map_app. now rewrite firstn_skipn.
Qed.


(** A first block that cannot be loaded. *)
Lemma maddrc256_loop_stuck (t1 t2 m1 m2 : m128i) (fuel : nat) (mem : memory)
      (region1 region2 end_ : Z) :
  region1 < end_ ->
  _mm_load_si128 mem region1 = UndefinedBehaviour
  \/ _mm_load_si128 mem region2 = UndefinedBehaviour ->
  maddrc256_loop (S fuel) t1 t2 m1 m2 mem region1 region2 end_ = UndefinedBehaviour.
Proof.
  intros Hend Hbad. cbn [maddrc256_loop].
  rewrite (proj2 (Z.ltb_lt _ _)) by lia.
  destruct Hbad as [H1|H2].
  - destruct (load_cases mem region2) as [(v & -> & _)| ->]; [|reflexivity].
    cbn [and_then]. now rewrite H1.
  - now rewrite H2.
Qed.

Lemma mulrc256_loop_stuck (t1 t2 m1 m2 : m128i) (fuel : nat) (mem : memory)
      (region end_ : Z) :
  region < end_ ->
  _mm_load_si128 mem region = UndefinedBehaviour ->
  mulrc256_loop (S fuel) t1 t2 m1 m2 mem region end_ = UndefinedBehaviour.
Proof.
  intros Hend Hbad. cbn [mulrc256_loop].
  rewrite (proj2 (Z.ltb_lt _ _)) by lia. now rewrite Hbad.
Qed.

(** The loop that has [j] blocks in front of it and then one that reaches
    outside the allocated bytes: it works through the [j] blocks and then
    loads from outside. *)
Lemma maddrc256_loop_overrun (t1 t2 m1 m2 : m128i) (j : nat) :
  forall (fuel : nat) (mem : memory) (region1 region2 end_ : Z) (d s : list byte),
    (j < fuel)%nat ->
    region1 mod 16 = 0 ->
    region2 mod 16 = 0 ->
    read_bytes mem region1 (16 * j) = Some d ->
    read_bytes mem region2 (16 * j) = Some s ->
    region1 + 16 * Z.of_nat j + 16 <= region2
      \/ region2 + 16 * Z.of_nat j + 16 <= region1 ->
    region1 + 16 * Z.of_nat j < end_ ->
    read_bytes mem (region1 + 16 * Z.of_nat j) 16 = None
      \/ read_bytes mem (region2 + 16 * Z.of_nat j) 16 = None ->
    maddrc256_loop fuel t1 t2 m1 m2 mem region1 region2 end_ = UndefinedBehaviour.
Proof.
  induction j as [|j IH];
    intros fuel mem region1 region2 end_ d s Hfuel Hal1 Hal2 Hd Hs Hapart Hend Hbad.
  - destruct fuel as [|fuel]; [lia|].
    cbn [Z.of_nat] in Hbad. rewrite !Z.mul_0_r, !Z.add_0_r in Hbad.
    apply maddrc256_loop_stuck; [lia|].
    destruct Hbad as [H|H]; [left | right]; now apply load_outside.
  - destruct fuel as [|fuel]; [lia|]. cbn [maddrc256_loop].
    rewrite (proj2 (Z.ltb_lt _ _)) by lia.
    rewrite (load_block mem region2 _ s Hal2 Hs) by lia.
    rewrite (load_block mem region1 _ d Hal1 Hd) by lia.
    cbn [and_then]. cbv zeta.
    set (out := _mm_xor_si128 _ (firstn 16 d)).
    rewrite (store_block mem region1 _ d out Hal1 Hd) by lia.
    cbn [and_then].
    assert (Hout : size out <= 16).
    { unfold out, _mm_xor_si128, size. rewrite length_map2, length_firstn. lia. }
    assert (Hout0 : 0 <= size out) by (unfold size; lia).
    apply (IH fuel _ _ _ _ (skipn 16 d) (skipn 16 s)).
    + lia.
    + now apply aligned_next.
    + now apply aligned_next.
    + rewrite (read_bytes_ext _ mem).
      * pose proof (read_bytes_length _ _ _ _ Hd) as Hlend.
        pose proof (read_bytes_part mem region1 _ d 16 (16 * j) Hd ltac:(lia)) as H.
        rewrite firstn_all2 in H by (rewrite length_skipn; lia). exact H.
      * intros a Ha. apply write_bytes_out. lia.
    + rewrite (read_bytes_ext _ mem).
      * pose proof (read_bytes_length _ _ _ _ Hs) as Hlens.
        pose proof (read_bytes_part mem region2 _ s 16 (16 * j) Hs ltac:(lia)) as H.
        rewrite firstn_all2 in H by (rewrite length_skipn; lia). exact H.
      * intros a Ha. apply write_bytes_out. lia.
    + lia.
    + lia.
    + replace (region1 + 16 + 16 * Z.of_nat j) with (region1 + 16 * Z.of_nat (S j)) by lia.
      replace (region2 + 16 + 16 * Z.of_nat j) with (region2 + 16 * Z.of_nat (S j)) by lia.
      destruct Hbad as [H|H]; [left | right]; rewrite <- H;
        apply read_bytes_ext; intros a Ha; apply write_bytes_out; lia.
Qed.

Lemma mulrc256_loop_overrun (t1 t2 m1 m2 : m128i) (j : nat) :
  forall (fuel : nat) (mem : memory) (region end_ : Z) (r : list byte),
    (j < fuel)%nat ->
    region mod 16 = 0 ->
    read_bytes mem region (16 * j) = Some r ->
    region + 16 * Z.of_nat j < end_ ->
    read_bytes mem (region + 16 * Z.of_nat j) 16 = None ->
    mulrc256_loop fuel t1 t2 m1 m2 mem region end_ = UndefinedBehaviour.
Proof.
  induction j as [|j IH];
    intros fuel mem region end_ r Hfuel Hal Hr Hend Hbad.
  - destruct fuel as [|fuel]; [lia|].
    cbn [Z.of_nat] in Hbad. rewrite !Z.mul_0_r, !Z.add_0_r in Hbad.
    apply mulrc256_loop_stuck; [lia|]. now apply load_outside.
  - destruct fuel as [|fuel]; [lia|]. cbn [mulrc256_loop].
    rewrite (proj2 (Z.ltb_lt _ _)) by lia.
    rewrite (load_block mem region _ r Hal Hr) by lia.
    cbn [and_then]. cbv zeta.
    set (out := _mm_xor_si128 _ _).
    rewrite (store_block mem region _ r out Hal Hr) by lia.
    cbn [and_then].
    assert (Hout : size out <= 16).
    { unfold out, _mm_xor_si128, _mm_shuffle_epi8, _mm_and_si128, size.
      rewrite length_map2, !length_map, !length_map2, length_firstn. lia. }
    assert (Hout0 : 0 <= size out) by (unfold size; lia).
    apply (IH fuel _ _ _ (skipn 16 r)).
    + lia.
    + now apply aligned_next.
    + rewrite (read_bytes_ext _ mem).
      * pose proof (read_bytes_length _ _ _ _ Hr) as Hlenr.
        pose proof (read_bytes_part mem region _ r 16 (16 * j) Hr ltac:(lia)) as H.
        rewrite firstn_all2 in H by (rewrite length_skipn; lia). exact H.
      * intros a Ha. apply write_bytes_out. lia.
    + lia.
    + replace (region + 16 + 16 * Z.of_nat j) with (region + 16 * Z.of_nat (S j)) by lia.
      rewrite <- Hbad.
      apply read_bytes_ext; intros a Ha; apply write_bytes_out; lia.
Qed.

(** *** The region functions on whole blocks *)

Lemma maddrc256_blocks_value (mem : memory) (dst src : Z) (d s : list byte) (c len : Z) :
  2 <= c <= 255 ->
  0 <= len ->
  dst mod 16 = 0 ->
  src mod 16 = 0 ->
  read_bytes mem dst (Z.to_nat (16 * ((len + 15) / 16))) = Some d ->
  read_bytes mem src (Z.to_nat (16 * ((len + 15) / 16))) = Some s ->
  Forall is_byte s ->
  dst + 16 * ((len + 15) / 16) <= src \/ src + 16 * ((len + 15) / 16) <= dst ->
  exists mem',
    maddrc256_shuffle_ssse3 mem dst src c len = Returned mem'
    /\ forall a,
         mem' a = write_bytes mem dst (map2 (fun d s => Z.lxor d (gf_mul c s)) d s) a.
Proof.
  intros Hc Hlen Hal1 Hal2 Hd Hs Hbytes Hapart.
  destruct (blocks_bound len Hlen) as [Hk Hend].
  rewrite to_nat_blocks in Hd, Hs by lia.
  unfold maddrc256_shuffle_ssse3.
  rewrite (proj2 (Z.eqb_neq c 0)), (proj2 (Z.eqb_neq c 1)) by lia.
  cbv zeta.
  assert (Hcb : is_byte c) by (unfold is_byte; lia).
  apply (maddrc256_loop_blocks c (Z.to_nat ((len + 15) / 16)) Hcb
           (Z.to_nat len) mem dst src (dst + len) d s);
    try assumption; lia.
Qed.

Lemma mulrc256_blocks_value (mem : memory) (region : Z) (r : list byte) (c len : Z) :
  2 <= c <= 255 ->
  0 <= len ->
  region mod 16 = 0 ->
  read_bytes mem region (Z.to_nat (16 * ((len + 15) / 16))) = Some r ->
  Forall is_byte r ->
  exists mem',
    mulrc256_shuffle_ssse3 mem region c len = Returned mem'
    /\ forall a, mem' a = write_bytes mem region (map (gf_mul c) r) a.
Proof.
  intros Hc Hlen Hal Hr Hbytes.
  destruct (blocks_bound len Hlen) as [Hk Hend].
  rewrite to_nat_blocks in Hr by lia.
  unfold mulrc256_shuffle_ssse3.
  rewrite (proj2 (Z.eqb_neq c 0)), (proj2 (Z.eqb_neq c 1)) by lia.
  cbv zeta.
  assert (Hcb : is_byte c) by (unfold is_byte; lia).
  apply (mulrc256_loop_blocks c (Z.to_nat ((len + 15) / 16)) Hcb
           (Z.to_nat len) mem region (region + len) r);
    try assumption; lia.
Qed.

(** On aligned regions of [len] bytes that lie apart, [len] a multiple of
    16, for every multiplier. *)
Lemma maddrc256_value (mem : memory) (dst src : Z) (d s : list byte) (c len : Z) :
  0 <= c <= 255 ->
  0 <= len ->
  len mod 16 = 0 ->
  dst mod 16 = 0 ->
  src mod 16 = 0 ->
  read_bytes mem dst (Z.to_nat len) = Some d ->
  read_bytes mem src (Z.to_nat len) = Some s ->
  Forall is_byte s ->
  dst + len <= src \/ src + len <= dst ->
  exists mem',
    maddrc256_shuffle_ssse3 mem dst src c len = Returned mem'
    /\ forall a,
         mem' a = write_bytes mem dst (map2 (fun d s => Z.lxor d (gf_mul c s)) d s) a.
Proof.
  intros Hc Hlen Hmod Hal1 Hal2 Hd Hs Hbytes Hapart.
  pose proof (read_bytes_length _ _ _ _ Hd) as Hlend.
  pose proof (read_bytes_length _ _ _ _ Hs) as Hlens.
  destruct (Z.eq_dec c 0) as [->|Hc0]; [|destruct (Z.eq_dec c 1) as [->|Hc1]].
  - exists mem. split; [reflexivity|]. intros a.
    rewrite map2_keep_left by lia. symmetry. apply write_bytes_same.
    now rewrite Hlend.
  - exists (write_bytes mem dst (map2 Z.lxor d s)). split.
    + unfold maddrc256_shuffle_ssse3, xorr_sse2. cbn [Z.eqb Pos.eqb].
      now rewrite Hd, Hs.
    + intros a. f_equal.
      apply map2_ext_r with (P := is_byte); [|assumption].
      intros x y Hy. now rewrite gf_mul_1_l.
  - apply maddrc256_blocks_value; try assumption; try lia;
      rewrite whole_blocks by assumption; assumption.
Qed.

Lemma mulrc256_value (mem : memory) (region : Z) (r : list byte) (c len : Z) :
  0 <= c <= 255 ->
  0 <= len ->
  len mod 16 = 0 ->
  region mod 16 = 0 ->
  read_bytes mem region (Z.to_nat len) = Some r ->
  Forall is_byte r ->
  exists mem',
    mulrc256_shuffle_ssse3 mem region c len = Returned mem'
    /\ forall a, mem' a = write_bytes mem region (map (gf_mul c) r) a.
Proof.
  intros Hc Hlen Hmod Hal Hr Hbytes.
  pose proof (read_bytes_length _ _ _ _ Hr) as Hlenr.
  destruct (Z.eq_dec c 0) as [->|Hc0]; [|destruct (Z.eq_dec c 1) as [->|Hc1]].
  - exists (write_bytes mem region (repeat 0 (Z.to_nat len))). split.
    + unfold mulrc256_shuffle_ssse3, memset. cbn [Z.eqb]. now rewrite Hr.
    + intros a. now rewrite map_gf_mul_0, Hlenr.
  - exists mem. split; [reflexivity|]. intros a.
    rewrite map_gf_mul_1 by assumption. symmetry. apply write_bytes_same.
    now rewrite Hlenr.
  - apply mulrc256_blocks_value; try assumption; try lia.
    rewrite whole_blocks by assumption; assumption.
Qed.

(** What a memory that agrees with [write_bytes mem p v] holds. *)
Lemma written_region (mem mem' : memory) (p : Z) (v : list byte) (n : nat) :
  (forall a, mem' a = write_bytes mem p v a) ->
  length v = n ->
  read_bytes mem' p n = Some v.
Proof.
  intros H <-. rewrite (read_bytes_ext mem' (write_bytes mem p v)) by (intros; apply H).
  apply read_bytes_written.
Qed.

Lemma written_elsewhere (mem mem' : memory) (p : Z) (v : list byte) (q : Z) (n : nat) :
  (forall a, mem' a = write_bytes mem p v a) ->
  q + Z.of_nat n <= p \/ p + size v <= q ->
  read_bytes mem' q n = read_bytes mem q n.
Proof.
  intros H Hapart. apply read_bytes_ext. intros a Ha.
  rewrite H. apply write_bytes_out. lia.
Qed.

(** *** The multiply-add *)

Lemma examples_are_bytes : Forall is_byte Examples.region_src.
Proof.
  apply Forall_forall. intros s Hs.
  apply in_map_iff in Hs. destruct Hs as (i & <- & _).
  unfold is_byte. apply Z.mod_pos_bound. lia.
Qed.

Lemma heap_dst : read_bytes Examples.heap 0x1000 32 = Some Examples.region_dst.
Proof. vm_compute. reflexivity. Qed.

Lemma heap_src : read_bytes Examples.heap 0x2000 32 = Some Examples.region_src.
Proof. vm_compute. reflexivity. Qed.




(** *** Multiplying a region *)

(** [mulrc256_shuffle_ssse3] multiplies a region by a constant: on an
    allocated region of [len] bytes that starts at a multiple of 16, [len] a
    multiple of 16, the call returns, every byte [s] of the region has
    become [c * s] and every byte outside it is as it was; [c = 0] zeroes
    the region and [c = 1] leaves the memory as it is. *)
Theorem mulrc256_shuffle_ssse3_correct
        (mem : memory) (region : Z) (r : list byte) (c len : Z) :
  0 <= c <= 255 ->
  0 <= len ->
  len mod 16 = 0 ->
  region mod 16 = 0 ->
  read_bytes mem region (Z.to_nat len) = Some r ->
  Forall is_byte r ->
  exists mem',
    mulrc256_shuffle_ssse3 mem region c len = Returned mem'
    /\ read_bytes mem' region (Z.to_nat len) = Some (map (gf_mul c) r)
    /\ (forall a, ~ (region <= a < region + len) -> mem' a = mem a)
    /\ (c = 0 -> read_bytes mem' region (Z.to_nat len) = Some (repeat 0 (Z.to_nat len)))
    /\ (c = 1 -> forall a, mem' a = mem a).
Proof.
  intros Hc Hlen Hmod Hal Hr Hbytes.
  pose proof (read_bytes_length _ _ _ _ Hr) as Hlenr.
  destruct (mulrc256_value mem region r c len) as (mem' & Hrun & Hmem');
    try assumption.
  assert (Hread : read_bytes mem' region (Z.to_nat len) = Some (map (gf_mul c) r)).
  { apply (written_region mem mem' region); [exact Hmem'|].
    now rewrite length_map. }
  exists mem'. split; [exact Hrun|]. split; [exact Hread|]. split; [|split].
  - intros a Ha. rewrite Hmem'. apply write_bytes_out.
    unfold size. rewrite length_map. lia.
  - intros ->. rewrite Hread, map_gf_mul_0. now rewrite Hlenr.
  - intros -> a. rewrite Hmem', map_gf_mul_1 by assumption.
    apply write_bytes_same. now rewrite Hlenr.
Qed.

Lemma mulrc256_shuffle_ssse3_correct_witness :
  exists mem',
    mulrc256_shuffle_ssse3 Examples.heap 0x2000 29 32 = Returned mem'
    /\ read_bytes mem' 0x2000 32 = Some (map (gf_mul 29) Examples.region_src).
Proof.
  destruct (mulrc256_shuffle_ssse3_correct Examples.heap 0x2000 Examples.region_src 29 32)
    as (mem' & Hrun & Hread & _);
    [lia | lia | reflexivity | reflexivity | exact heap_src | exact examples_are_bytes |].
  exists mem'. split; assumption.
Defined.

Lemma memcpy_apart (mem : memory) (region1 region2 : Z) (x s : list byte) (len : Z) :
  0 <= len ->
  read_bytes mem region1 (Z.to_nat len) = Some x ->
  read_bytes mem region2 (Z.to_nat len) = Some s ->
  region1 + len <= region2 \/ region2 + len <= region1 ->
  memcpy mem region1 region2 len = Returned (write_bytes mem region1 s).
Proof.
  intros Hlen H1 H2 Hapart. unfold memcpy. rewrite H1, H2.
  destruct (Z.ltb_spec region1 (region2 + len));
    destruct (Z.ltb_spec region2 (region1 + len)); cbn [andb]; try reflexivity.
  lia.
Qed.

Lemma mulrc256_x_value (mem : memory) (region1 region2 : Z) (x s : list byte) (c len : Z) :
  0 <= c <= 255 ->
  0 <= len ->
  len mod 16 = 0 ->
  region1 mod 16 = 0 ->
  read_bytes mem region1 (Z.to_nat len) = Some x ->
  read_bytes mem region2 (Z.to_nat len) = Some s ->
  Forall is_byte s ->
  region1 + len <= region2 \/ region2 + len <= region1 ->
  exists mem',
    mulrc256_shuffle_sse3_x mem region1 region2 c len = Returned mem'
    /\ forall a, mem' a = write_bytes mem region1 (map (gf_mul c) s) a.
Proof.
  intros Hc Hlen Hmod Hal Hx Hs Hbytes Hapart.
  pose proof (read_bytes_length _ _ _ _ Hx) as Hlenx.
  pose proof (read_bytes_length _ _ _ _ Hs) as Hlens.
  unfold mulrc256_shuffle_sse3_x.
  rewrite (memcpy_apart mem region1 region2 x s len) by assumption.
  cbn [and_then].
  destruct (mulrc256_value (write_bytes mem region1 s) region1 s c len)
    as (mem' & Hrun & Hmem'); try assumption.
  { rewrite <- Hlens. apply read_bytes_written. }
  exists mem'. split; [exact Hrun|].
  intros a. rewrite Hmem'. apply write_bytes_over. now rewrite length_map.
Qed.

(** [mulrc256_shuffle_sse3_x] leaves in [region1] the bytes of [region2]
    times [c], whatever [region1] held before, and leaves [region2] and the
    rest of the memory as they were: for allocated regions of [len] bytes
    that do not overlap, [region1] at a multiple of 16. *)
Theorem mulrc256_shuffle_sse3_x_correct
        (mem : memory) (region1 region2 : Z) (x s : list byte) (c len : Z) :
  0 <= c <= 255 ->
  0 <= len ->
  len mod 16 = 0 ->
  region1 mod 16 = 0 ->
  read_bytes mem region1 (Z.to_nat len) = Some x ->
  read_bytes mem region2 (Z.to_nat len) = Some s ->
  Forall is_byte s ->
  region1 + len <= region2 \/ region2 + len <= region1 ->
  exists mem',
    mulrc256_shuffle_sse3_x mem region1 region2 c len = Returned mem'
    /\ read_bytes mem' region1 (Z.to_nat len) = Some (map (gf_mul c) s)
    /\ read_bytes mem' region2 (Z.to_nat len) = Some s
    /\ (forall a, ~ (region1 <= a < region1 + len) -> mem' a = mem a).
Proof.
  intros Hc Hlen Hmod Hal Hx Hs Hbytes Hapart.
  pose proof (read_bytes_length _ _ _ _ Hs) as Hlens.
  destruct (mulrc256_x_value mem region1 region2 x s c len)
    as (mem' & Hrun & Hmem'); try assumption.
  exists mem'. split; [exact Hrun|]. split; [|split].
  - apply (written_region mem mem' region1); [exact Hmem'|].
    now rewrite length_map.
  - rewrite <- Hs.
    apply (written_elsewhere mem mem' region1 (map (gf_mul c) s) region2);
      [exact Hmem'|].
    unfold size. rewrite length_map. lia.
  - intros a Ha. rewrite Hmem'. apply write_bytes_out.
    unfold size. rewrite length_map. lia.
Qed.

Lemma mulrc256_shuffle_sse3_x_correct_witness :
  exists mem',
    mulrc256_shuffle_sse3_x Examples.heap 0x1000 0x2000 29 32 = Returned mem'
    /\ read_bytes mem' 0x1000 32 = Some (map (gf_mul 29) Examples.region_src).
Proof.
  destruct (mulrc256_shuffle_sse3_x_correct Examples.heap 0x1000 0x2000
              Examples.region_dst Examples.region_src 29 32)
    as (mem' & Hrun & Hread & _);
    [lia | lia | reflexivity | reflexivity | exact heap_dst | exact heap_src
     | exact examples_are_bytes | lia |].
  exists mem'. split; assumption.
Defined.

(** *** How the region functions compose *)

(** The second of two calls in a row finds the regions as the first left
    them. *)
Lemma maddrc256_then (mem mem1 : memory) (dst src : Z) (d s v : list byte) (len : Z) :
  0 <= len ->
  read_bytes mem dst (Z.to_nat len) = Some d ->
  read_bytes mem src (Z.to_nat len) = Some s ->
  dst + len <= src \/ src + len <= dst ->
  length v = Z.to_nat len ->
  (forall a, mem1 a = write_bytes mem dst v a) ->
  read_bytes mem1 dst (Z.to_nat len) = Some v
  /\ read_bytes mem1 src (Z.to_nat len) = Some s.
Proof.
  intros Hlen Hd Hs Hapart Hv Hmem1. split.
  - now apply (written_region mem mem1 dst).
  - rewrite <- Hs. apply (written_elsewhere mem mem1 dst v); [exact Hmem1|].
    unfold size. lia.
Qed.

(** Adding the same multiple of the same source a second time takes it
    away again: after two calls of [maddrc256_shuffle_ssse3] on aligned,
    allocated regions that do not overlap, every byte of the memory is what
    it was. *)
Theorem maddrc256_shuffle_ssse3_twice_cancels
        (mem : memory) (dst src : Z) (d s : list byte) (c len : Z) :
  0 <= c <= 255 ->
  0 <= len ->
  len mod 16 = 0 ->
  dst mod 16 = 0 ->
  src mod 16 = 0 ->
  read_bytes mem dst (Z.to_nat len) = Some d ->
  read_bytes mem src (Z.to_nat len) = Some s ->
  Forall is_byte s ->
  dst + len <= src \/ src + len <= dst ->
  exists mem1 mem2,
    maddrc256_shuffle_ssse3 mem dst src c len = Returned mem1
    /\ maddrc256_shuffle_ssse3 mem1 dst src c len = Returned mem2
    /\ forall a, mem2 a = mem a.
Proof.
  intros Hc Hlen Hmod Hal1 Hal2 Hd Hs Hbytes Hapart.
  pose proof (read_bytes_length _ _ _ _ Hd) as Hlend.
  pose proof (read_bytes_length _ _ _ _ Hs) as Hlens.
  destruct (maddrc256_value mem dst src d s c len) as (mem1 & Hrun1 & Hmem1);
    try assumption.
  set (v := map2 (fun d s => Z.lxor d (gf_mul c s)) d s) in *.
  assert (Hv : length v = Z.to_nat len)
    by (unfold v; rewrite length_map2; lia).
  destruct (maddrc256_then mem mem1 dst src d s v len Hlen Hd Hs Hapart Hv Hmem1)
    as [Hd1 Hs1].
  destruct (maddrc256_value mem1 dst src v s c len) as (mem2 & Hrun2 & Hmem2);
    try assumption.
  exists mem1, mem2. split; [exact Hrun1|]. split; [exact Hrun2|].
  intros a. rewrite Hmem2. unfold v at 1. rewrite madd_twice by lia.
  rewrite (write_bytes_ext mem1 (write_bytes mem dst v)) by exact Hmem1.
  rewrite write_bytes_over by lia.
  apply write_bytes_same. now rewrite Hlend.
Qed.

Lemma maddrc256_shuffle_ssse3_twice_cancels_witness :
  exists mem1 mem2,
    maddrc256_shuffle_ssse3 Examples.heap 0x1000 0x2000 29 32 = Returned mem1
    /\ maddrc256_shuffle_ssse3 mem1 0x1000 0x2000 29 32 = Returned mem2
    /\ read_bytes mem2 0x1000 32 = Some Examples.region_dst.
Proof.
  destruct (maddrc256_shuffle_ssse3_twice_cancels Examples.heap 0x1000 0x2000
              Examples.region_dst Examples.region_src 29 32)
    as (mem1 & mem2 & Hrun1 & Hrun2 & Hsame);
    [lia | lia | reflexivity | reflexivity | reflexivity | exact heap_dst
     | exact heap_src | exact examples_are_bytes | lia |].
  exists mem1, mem2. split; [exact Hrun1|]. split; [exact Hrun2|].
  rewrite <- heap_dst. apply read_bytes_ext. intros a _. apply Hsame.
Defined.





(** *** A length that is not a multiple of 16 *)

(** For a multiplier other than 0 and 1 the loops step by 16 bytes until
    they have passed [length]: they work on all the blocks of 16 bytes that
    [length] reaches into, so on up to 15 bytes beyond it.  Where these
    blocks are allocated the calls return, with the sums or products in all
    of their bytes and nothing changed behind them; where [length] is not a
    multiple of 16 and the byte behind the [length] bytes of a region is not
    allocated, the last load reaches outside and the call is undefined. *)
Theorem maddrc256_shuffle_ssse3_works_on_whole_blocks
        (mem : memory) (dst src : Z) (c len : Z) :
  2 <= c <= 255 ->
  0 <= len ->
  dst mod 16 = 0 ->
  src mod 16 = 0 ->
  dst + 16 * ((len + 15) / 16) <= src \/ src + 16 * ((len + 15) / 16) <= dst ->
  len <= 16 * ((len + 15) / 16) < len + 16
  /\ (forall d s,
        read_bytes mem dst (Z.to_nat (16 * ((len + 15) / 16))) = Some d ->
        read_bytes mem src (Z.to_nat (16 * ((len + 15) / 16))) = Some s ->
        Forall is_byte s ->
        exists mem1 mem2,
          maddrc256_shuffle_ssse3 mem dst src c len = Returned mem1
          /\ read_bytes mem1 dst (Z.to_nat (16 * ((len + 15) / 16)))
             = Some (map2 (fun d s => Z.lxor d (gf_mul c s)) d s)
          /\ (forall a, ~ (dst <= a < dst + 16 * ((len + 15) / 16)) -> mem1 a = mem a)
          /\ mulrc256_shuffle_ssse3 mem src c len = Returned mem2
          /\ read_bytes mem2 src (Z.to_nat (16 * ((len + 15) / 16)))
             = Some (map (gf_mul c) s)
          /\ (forall a, ~ (src <= a < src + 16 * ((len + 15) / 16)) -> mem2 a = mem a))
  /\ (forall d s,
        len mod 16 <> 0 ->
        read_bytes mem dst (Z.to_nat len) = Some d ->
        read_bytes mem src (Z.to_nat len) = Some s ->
        (mem (dst + len) = None \/ mem (src + len) = None ->
         maddrc256_shuffle_ssse3 mem dst src c len = UndefinedBehaviour)
        /\ (mem (src + len) = None ->
            mulrc256_shuffle_ssse3 mem src c len = UndefinedBehaviour)).
Proof.
  intros Hc Hlen Hal1 Hal2 Hapart.
  destruct (blocks_bound len Hlen) as [Hblocks Hend].
  split; [lia|]. split.
  - intros d s Hd Hs Hbytes.
    pose proof (read_bytes_length _ _ _ _ Hd) as Hlend.
    pose proof (read_bytes_length _ _ _ _ Hs) as Hlens.
    destruct (maddrc256_blocks_value mem dst src d s c len)
      as (mem1 & Hrun1 & Hmem1); try assumption.
    destruct (mulrc256_blocks_value mem src s c len)
      as (mem2 & Hrun2 & Hmem2); try assumption.
    exists mem1, mem2.
    split; [exact Hrun1|]. split; [|split; [|split; [exact Hrun2|split]]].
    + apply (written_region mem mem1 dst); [exact Hmem1|].
      rewrite length_map2. lia.
    + intros a Ha. rewrite Hmem1. apply write_bytes_out.
      unfold size. rewrite length_map2. lia.
    + apply (written_region mem mem2 src); [exact Hmem2|].
      now rewrite length_map.
    + intros a Ha. rewrite Hmem2. apply write_bytes_out.
      unfold size. rewrite length_map. lia.
  - intros d s Hmod Hd Hs.
    destruct (partial_block len Hlen Hmod) as [Hpart Hceil].
    assert (Hq : 0 <= len / 16) by (apply Z.div_pos; lia).
    set (j := Z.to_nat (len / 16)).
    assert (Hj : Z.of_nat j = len / 16) by (unfold j; lia).
    assert (Hfit : (0 + 16 * j <= Z.to_nat len)%nat) by lia.
    pose proof (read_bytes_part mem dst _ d 0 (16 * j) Hd Hfit) as Hd'.
    pose proof (read_bytes_part mem src _ s 0 (16 * j) Hs Hfit) as Hs'.
    cbn [Z.of_nat] in Hd', Hs'. rewrite Z.add_0_r in Hd', Hs'.
    split.
    + intros Hbad. unfold maddrc256_shuffle_ssse3.
      rewrite (proj2 (Z.eqb_neq c 0)), (proj2 (Z.eqb_neq c 1)) by lia.
      cbv zeta.
      eapply (maddrc256_loop_overrun _ _ _ _ j (Z.to_nat len) mem dst src (dst + len));
        [lia | assumption | assumption | exact Hd' | exact Hs' | lia | lia |].
      destruct Hbad as [H|H]; [left | right];
        (eapply read_bytes_none; [|exact H]); lia.
    + intros Hbad. unfold mulrc256_shuffle_ssse3.
      rewrite (proj2 (Z.eqb_neq c 0)), (proj2 (Z.eqb_neq c 1)) by lia.
      cbv zeta.
      eapply (mulrc256_loop_overrun _ _ _ _ j (Z.to_nat len) mem src (src + len));
        [lia | assumption | exact Hs' | lia |].
      (eapply read_bytes_none; [|exact Hbad]); lia.
Qed.

Lemma maddrc256_shuffle_ssse3_works_on_whole_blocks_witness :
  (exists mem1,
      maddrc256_shuffle_ssse3 Examples.heap 0x1000 0x2000 29 20 = Returned mem1
      /\ read_bytes mem1 0x1000 32
         = Some (map2 (fun d s => Z.lxor d (gf_mul 29 s))
                      Examples.region_dst Examples.region_src))
  /\ maddrc256_shuffle_ssse3 Examples.heap 0x4000 0x2000 29 20 = UndefinedBehaviour.
Proof.
  split.
  - destruct (maddrc256_shuffle_ssse3_works_on_whole_blocks Examples.heap 0x1000 0x2000 29 20)
      as (_ & Hblocks & _);
      [lia | lia | reflexivity | reflexivity | left; vm_compute; discriminate |].
    destruct (Hblocks Examples.region_dst Examples.region_src
                heap_dst heap_src examples_are_bytes)
      as (mem1 & mem2 & Hrun & Hread & _).
    exists mem1. split; assumption.
  - destruct (maddrc256_shuffle_ssse3_works_on_whole_blocks Examples.heap 0x4000 0x2000 29 20)
      as (_ & _ & Hover);
      [lia | lia | reflexivity | reflexivity | right; vm_compute; discriminate |].
    apply (Hover Examples.object_4 (firstn 20 Examples.region_src));
      [discriminate | reflexivity | reflexivity | left; reflexivity].
Defined.

(** *** Regions that are not aligned *)

(** For a multiplier other than 0 and 1 and a length that is not 0, a
    region that does not start at a multiple of 16 makes the call undefined,
    whatever the memory holds: the first aligned load from it faults. *)
Theorem maddrc256_shuffle_ssse3_needs_aligned_regions
        (mem : memory) (region1 region2 : Z) (c len : Z) :
  2 <= c <= 255 ->
  0 < len ->
  region1 mod 16 <> 0 \/ region2 mod 16 <> 0 ->
  maddrc256_shuffle_ssse3 mem region1 region2 c len = UndefinedBehaviour
  /\ (region1 mod 16 <> 0 ->
      mulrc256_shuffle_ssse3 mem region1 c len = UndefinedBehaviour
      /\ mulrc256_shuffle_sse3_x mem region1 region2 c len = UndefinedBehaviour).
Proof.
  intros Hc Hlen Hbad.
  assert (Hfuel : exists fuel, Z.to_nat len = S fuel)
    by (exists (Z.to_nat len - 1)%nat; lia).
  destruct Hfuel as [fuel Hfuel].
  assert (Hmul : forall mem', region1 mod 16 <> 0 ->
            mulrc256_shuffle_ssse3 mem' region1 c len = UndefinedBehaviour).
  { intros mem' H1. unfold mulrc256_shuffle_ssse3.
    rewrite (proj2 (Z.eqb_neq c 0)), (proj2 (Z.eqb_neq c 1)) by lia.
    cbv zeta. rewrite Hfuel.
    apply mulrc256_loop_stuck; [lia | now apply load_unaligned]. }
  split.
  - unfold maddrc256_shuffle_ssse3.
    rewrite (proj2 (Z.eqb_neq c 0)), (proj2 (Z.eqb_neq c 1)) by lia.
    cbv zeta. rewrite Hfuel.
    apply maddrc256_loop_stuck; [lia|].
    destruct Hbad as [H|H]; [left | right]; now apply load_unaligned.
  - intros H1. split; [now apply Hmul|].
    unfold mulrc256_shuffle_sse3_x, memcpy.
    destruct (_ && _); [reflexivity|].
    destruct (read_bytes mem region1 _); [|reflexivity].
    destruct (read_bytes mem region2 _); [|reflexivity].
    cbn [and_then]. now apply Hmul.
Qed.

Lemma maddrc256_shuffle_ssse3_needs_aligned_regions_witness :
  read_bytes Examples.heap 0x3001 32 = Some (firstn 32 (skipn 1 Examples.object_3))
  /\ maddrc256_shuffle_ssse3 Examples.heap 0x3001 0x2000 29 32 = UndefinedBehaviour.
Proof.
  split; [vm_compute; reflexivity|].
  refine (proj1 (maddrc256_shuffle_ssse3_needs_aligned_regions
                   Examples.heap 0x3001 0x2000 29 32 _ _ _));
    [lia | lia | left; discriminate].
Defined.

End GF256Facts.
